(** * node-acme: the ACME protocol client and its helpers

    A shallow embedding of the helper class [AcmeUtils] and of the protocol
    module (function [_parseLink], class [AcmeProtocol]), and the properties
    of the base64url codec, the key validator, the Link header parser, the
    nonce pool, the memoized directory and the workflow operations.

    JavaScript strings are modelled by [string], one [ascii] per code unit
    (code units below 256); a [Buffer] is a [list byte]. *)

From Stdlib Require Import NArith Ascii String.
From Stdlib Require Import Strings.Byte.
From stdpp Require Import base gmap strings list.

Local Open Scope string_scope.

(** ** String primitives used by the source *)

Module Str.

(** [x.replace(/a/g, 'b')] for a one-character pattern and replacement. *)
Fixpoint replace_all (a b : ascii) (x : string) : string :=
  match x with
  | EmptyString => EmptyString
  | String c r => String (if Ascii.eqb c a then b else c) (replace_all a b r)
  end.

(** [x.replace(/a/g, '')]. *)
Fixpoint remove_all (a : ascii) (x : string) : string :=
  match x with
  | EmptyString => EmptyString
  | String c r =>
      if Ascii.eqb c a then remove_all a r else String c (remove_all a r)
  end.

(** [x.match(/[^...]/)] fails, for a character class given as a predicate:
    every code unit of [x] is in the class. *)
Fixpoint all_chars (p : ascii -> bool) (x : string) : bool :=
  match x with
  | EmptyString => true
  | String c r => p c && all_chars p r
  end.

(** The character [a] occurs in [x]. *)
Fixpoint contains (a : ascii) (x : string) : bool :=
  match x with
  | EmptyString => false
  | String c r => Ascii.eqb c a || contains a r
  end.

(** The white space of [String.prototype.trim] among the code units below
    256: tab, line feed, vertical tab, form feed, carriage return, space and
    no-break space. *)
Definition is_space (c : ascii) : bool :=
  let n := nat_of_ascii c in
  ((9 <=? n) && (n <=? 13))%nat || (n =? 32)%nat || (n =? 160)%nat.

Fixpoint trim_left (x : string) : string :=
  match x with
  | EmptyString => EmptyString
  | String c r => if is_space c then trim_left r else x
  end.

Fixpoint trim_right (x : string) : string :=
  match x with
  | EmptyString => EmptyString
  | String c r =>
      match trim_right r with
      | EmptyString => if is_space c then EmptyString else String c EmptyString
      | r' => String c r'
      end
  end.

(** [x.trim()]. *)
Definition trim (x : string) : string := trim_right (trim_left x).

(** [x.split(sep)] for a one-character separator: never empty. *)
Fixpoint split (sep : ascii) (x : string) : list string :=
  match x with
  | EmptyString => [EmptyString]
  | String c r =>
      if Ascii.eqb c sep then EmptyString :: split sep r
      else match split sep r with
           | y :: ys => String c y :: ys
           | [] => [String c EmptyString]
           end
  end.

(** The longest prefix of [x] whose characters satisfy [p], and the rest:
    a greedy [[...]*] whose follower is outside the class. *)
Fixpoint span (p : ascii -> bool) (x : string) : string * string :=
  match x with
  | EmptyString => (EmptyString, EmptyString)
  | String c r =>
      if p c then let '(a, b) := span p r in (String c a, b)
      else (EmptyString, x)
  end.

End Str.

(** ** JavaScript values and objects

    Objects live in a heap and are passed by reference, so that a mutation
    through one reference is seen through every other.  An object carries its
    own string-keyed properties and, separately, the two properties keyed by
    the module's private symbols [LINKS] and [LOCATION].  Numbers and
    functions are outside the model, so no value can be called: an own
    property named [hasOwnProperty] hides the built-in method and a call of
    it through the object fails ([call_hasOwnProperty]).  An array owns its
    [length] and its indices besides its named properties, a [Buffer] its
    indices.  The conversion of an object to a string takes the built-in
    [toString] and [join], and the property names the source reads are not
    inherited from the built-in prototypes. *)

Module JS.

Definition loc := nat.

Inductive value :=
| VUndefined
| VNull
| VBool (b : bool)
| VString (s : string)
| VRef (l : loc).

Inductive kind :=
| Plain
| Array (elems : list value)
| Buffer (source : value).

Record object := Object {
  kind_of : kind;
  props : gmap string value;
  links : option value;
  location : option value;
}.

Definition plain (m : gmap string value) : object := Object Plain m None None.

Inductive error :=
| TypeError (msg : string)
| Error (msg : string)
| RequestError (cause : string).

Inductive result (A : Type) :=
| Ok (a : A)
| Throw (e : error).
Arguments Ok {A} a.
Arguments Throw {A} e.

(** A settled promise. *)
Inductive outcome (A : Type) :=
| Fulfilled (a : A)
| Rejected (e : error).
Arguments Fulfilled {A} a.
Arguments Rejected {A} e.

Definition truthy (v : value) : bool :=
  match v with
  | VUndefined | VNull => false
  | VBool b => b
  | VString s => negb (String.eqb s "")
  | VRef _ => true
  end.

Definition typeof (v : value) : string :=
  match v with
  | VUndefined => "undefined"
  | VNull => "object"
  | VBool _ => "boolean"
  | VString _ => "string"
  | VRef _ => "object"
  end.

Definition alloc (o : object) (h : list object) : loc * list object :=
  (List.length h, (h ++ [o])%list).

Definition isArray (h : list object) (v : value) : bool :=
  match v with
  | VRef l =>
      match h !! l with
      | Some (Object (Array _) _ _ _) => true
      | _ => false
      end
  | _ => false
  end.

(** The index that a property name writes: a decimal numeral without sign
    and without a leading zero. *)
Definition digit (c : ascii) : option N :=
  let n := N_of_ascii c in
  if ((48 <=? n) && (n <=? 57))%N then Some (n - 48)%N else None.

Fixpoint numeral (s : string) (acc : N) : option N :=
  match s with
  | EmptyString => Some acc
  | String c r =>
      match digit c with
      | Some d => numeral r (10 * acc + d)%N
      | None => None
      end
  end.

Definition array_index (name : string) : option N :=
  match name with
  | EmptyString => None
  | String c EmptyString => digit c
  | String c _ => if Ascii.eqb c "0" then None else numeral name 0
  end.

(** [name] is an index below [n]. *)
Definition index_below (name : string) (n : nat) : bool :=
  match array_index name with
  | Some i => (i <? N.of_nat n)%N
  | None => false
  end.

(** The number of bytes of the UTF-8 encoding of a string: two for a code
    unit from 128 on. *)
Fixpoint utf8_length (s : string) : nat :=
  match s with
  | EmptyString => 0
  | String c r => (if (N_of_ascii c <? 128)%N then 1 else 2) + utf8_length r
  end.

(** The length of a [Buffer] made from [source]: a string or an array. *)
Definition buffer_length (h : list object) (source : value) : nat :=
  match source with
  | VString s => utf8_length s
  | VRef l =>
      match h !! l with
      | Some (Object (Array es) _ _ _) => List.length es
      | _ => 0
      end
  | _ => 0
  end.

(** The own properties of an object. *)
Definition own_key (h : list object) (o : object) (name : string) : bool :=
  bool_decide (is_Some (props o !! name)) ||
  match kind_of o with
  | Plain => false
  | Array es => String.eqb name "length" || index_below name (List.length es)
  | Buffer source => index_below name (buffer_length h source)
  end.

(** The built-in [Object.prototype.hasOwnProperty], applied to [v]. *)
Definition hasOwnProperty (h : list object) (v : value) (name : string) : bool :=
  match v with
  | VRef l =>
      match h !! l with
      | Some o => own_key h o name
      | None => false
      end
  | _ => false
  end.

(** [v.hasOwnProperty(name)], the method being looked up through the object
    [v]: an own property of that name is found first, and it is no
    function. *)
Definition call_hasOwnProperty (h : list object) (v : value) (name : string)
  : result bool :=
  if hasOwnProperty h v "hasOwnProperty" then
    Throw (TypeError "object.hasOwnProperty is not a function")
  else Ok (hasOwnProperty h v name).

(** [fields.every(f)]: the calls stop at the first [false]. *)
Fixpoint every (f : string -> result bool) (fields : list string) : result bool :=
  match fields with
  | [] => Ok true
  | x :: r =>
      match f x with
      | Ok true => every f r
      | Ok false => Ok false
      | Throw e => Throw e
      end
  end.

(** [name in v], for an object reference [v] and a name that no built-in
    prototype defines. *)
Definition has_property (h : list object) (v : value) (name : string) : bool :=
  hasOwnProperty h v name.

(** [v.name] where [v] is neither [undefined] nor [null]. *)
Definition prop (h : list object) (v : value) (name : string) : value :=
  match v with
  | VRef l =>
      match h !! l with
      | Some o => default VUndefined (props o !! name)
      | None => VUndefined
      end
  | _ => VUndefined
  end.

(** [v.name]: reading a property of [undefined] or [null] throws. *)
Definition get (h : list object) (v : value) (name : string) : result value :=
  match v with
  | VUndefined | VNull =>
      Throw (TypeError ("Cannot read property '" ++ name ++ "' of undefined"))
  | _ => Ok (prop h v name)
  end.

(** [v.name = x] in strict mode: only an object can take the property. *)
Definition set (h : list object) (v : value) (name : string) (x : value)
  : result (list object) :=
  match v with
  | VRef l =>
      match h !! l with
      | Some o =>
          Ok (<[l := Object (kind_of o) (<[name := x]> (props o))
                        (links o) (location o)]> h)
      | None => Ok h
      end
  | _ => Throw (TypeError ("Cannot set property '" ++ name ++ "'"))
  end.

Fixpoint join (sep : string) (l : list string) : string :=
  match l with
  | [] => ""
  | [x] => x
  | x :: r => x ++ sep ++ join sep r
  end.

(** [String(v)]: an array is joined with commas, an array met again while it
    is being joined prints as the empty string. *)
Fixpoint to_string_from (fuel : nat) (h : list object) (seen : list loc)
    (v : value) : string :=
  match v with
  | VUndefined => "undefined"
  | VNull => "null"
  | VBool true => "true"
  | VBool false => "false"
  | VString s => s
  | VRef l =>
      match h !! l with
      | Some (Object Plain _ _ _) => "[object Object]"
      | Some (Object (Buffer src) _ _ _) =>
          match src with VString s => s | _ => "" end
      | Some (Object (Array es) _ _ _) =>
          match fuel with
          | O => ""
          | S fuel' =>
              if bool_decide (l ∈ seen) then ""
              else join ","
                     (map (fun e =>
                             match e with
                             | VUndefined | VNull => ""
                             | _ => to_string_from fuel' h (l :: seen) e
                             end) es)
          end
      | None => "undefined"
      end
  end.

Definition to_string (h : list object) (v : value) : string :=
  to_string_from (S (List.length h)) h [] v.

(** [a + b] when one operand is a string. *)
Definition concat (h : list object) (a b : value) : value :=
  VString (to_string h a ++ to_string h b).

(** [Array.prototype.shift]. *)
Definition shift (a : list value) : value * list value :=
  match a with
  | [] => (VUndefined, [])
  | x :: r => (x, r)
  end.

End JS.

(** ** Node's [Buffer] base64 codec

    [buffer.toString('base64')] and [new Buffer(str, 'base64')] belong to the
    Node runtime.  They are modelled after RFC 4648 and Node's decoder: the
    encoder emits the standard alphabet with [=] padding; the decoder reads
    the standard and the URL-safe alphabet, skips every other character,
    stops at the first [=], and turns each group of four sextets into three
    bytes (a final group of two or three sextets into one or two bytes). *)

Module NodeBuffer.
Local Open Scope N_scope.

Definition alphabet : string :=
  "ABCDEFGHIJKLMNOPQRSTUVWXYZabcdefghijklmnopqrstuvwxyz0123456789+/".

Definition base64_char (n : N) : ascii :=
  match String.get (N.to_nat n) alphabet with
  | Some c => c
  | None => "="%char
  end.

Definition byte_of_N (n : N) : byte :=
  match Byte.of_N (N.land n 255) with
  | Some b => b
  | None => x00
  end.

Definition enc1 (a : N) : N := N.shiftr a 2.
Definition enc2 (a b : N) : N := N.lor (N.shiftl (N.land a 3) 4) (N.shiftr b 4).
Definition enc3 (b c : N) : N := N.lor (N.shiftl (N.land b 15) 2) (N.shiftr c 6).
Definition enc4 (c : N) : N := N.land c 63.

(** [buffer.toString('base64')]. *)
Fixpoint toString_base64 (buf : list byte) : string :=
  match buf with
  | [] => ""
  | [a] =>
      let a := Byte.to_N a in
      String (base64_char (enc1 a)) (String (base64_char (enc2 a 0)) "==")
  | [a; b] =>
      let a := Byte.to_N a in
      let b := Byte.to_N b in
      String (base64_char (enc1 a))
        (String (base64_char (enc2 a b)) (String (base64_char (enc3 b 0)) "="))
  | a :: b :: c :: rest =>
      let a := Byte.to_N a in
      let b := Byte.to_N b in
      let c := Byte.to_N c in
      String (base64_char (enc1 a))
        (String (base64_char (enc2 a b))
           (String (base64_char (enc3 b c))
              (String (base64_char (enc4 c)) (toString_base64 rest))))
  end.

(** The decoder's table: both alphabets are accepted. *)
Definition unbase64 (c : ascii) : option N :=
  let n := N_of_ascii c in
  if (65 <=? n) && (n <=? 90) then Some (n - 65)
  else if (97 <=? n) && (n <=? 122) then Some (n - 71)
  else if (48 <=? n) && (n <=? 57) then Some (n + 4)
  else if (n =? 43) || (n =? 45) then Some 62
  else if (n =? 47) || (n =? 95) then Some 63
  else None.

(** The legal characters before the first [=], as sextets. *)
Fixpoint sextets (str : string) : list N :=
  match str with
  | EmptyString => []
  | String c r =>
      if Ascii.eqb c "=" then []
      else match unbase64 c with
           | Some v => v :: sextets r
           | None => sextets r
           end
  end.

Definition dec1 (s1 s2 : N) : byte :=
  byte_of_N (N.lor (N.shiftl s1 2) (N.shiftr (N.land s2 48) 4)).
Definition dec2 (s2 s3 : N) : byte :=
  byte_of_N (N.lor (N.shiftl (N.land s2 15) 4) (N.shiftr (N.land s3 60) 2)).
Definition dec3 (s3 s4 : N) : byte :=
  byte_of_N (N.lor (N.shiftl (N.land s3 3) 6) (N.land s4 63)).

Fixpoint decode_groups (l : list N) : list byte :=
  match l with
  | s1 :: s2 :: s3 :: s4 :: r =>
      dec1 s1 s2 :: dec2 s2 s3 :: dec3 s3 s4 :: decode_groups r
  | [s1; s2; s3] => [dec1 s1 s2; dec2 s2 s3]
  | [s1; s2] => [dec1 s1 s2]
  | _ => []
  end.

(** [new Buffer(str, 'base64')]. *)
Definition from_base64 (str : string) : list byte :=
  decode_groups (sextets str).

End NodeBuffer.

(** ** [AcmeUtils]: the base64url codec *)

Module AcmeUtils.
Local Open Scope N_scope.

(** [x.replace(/[+]/g, '-').replace(/\//g, '_').replace(/=/g, '')] *)
Definition fromStandardB64 (x : string) : string :=
  Str.remove_all "=" (Str.replace_all "/" "_" (Str.replace_all "+" "-" x)).

(** [toStandardB64]: translate, strip every [=], then pad by the length. *)
Definition toStandardB64 (x : string) : string :=
  let b64 :=
    Str.remove_all "=" (Str.replace_all "_" "/" (Str.replace_all "-" "+" x)) in
  match N.of_nat (String.length b64) mod 4 with
  | 2 => b64 ++ "=="
  | 3 => b64 ++ "="
  | _ => b64
  end.

Definition b64enc (buffer : list byte) : string :=
  fromStandardB64 (NodeBuffer.toString_base64 buffer).

Definition b64dec (str : string) : list byte :=
  NodeBuffer.from_base64 str.

(** The class [[a-zA-Z0-9_-]] of [isB64String]. *)
Definition b64url_char (c : ascii) : bool :=
  let n := N_of_ascii c in
  ((97 <=? n) && (n <=? 122)) || ((65 <=? n) && (n <=? 90))
  || ((48 <=? n) && (n <=? 57)) || (n =? 95) || (n =? 45).

(** [isB64String]: a string with no character outside [[a-zA-Z0-9_-]]. *)
Definition isB64String (x : JS.value) : bool :=
  match x with
  | JS.VString s => Str.all_chars b64url_char s
  | _ => false
  end.

(** [fieldsPresent].  [fields] is the content of the array literal passed at
    each call site, so the [Array.isArray(fields)] test holds.  The callback
    of [every] calls [object.hasOwnProperty(val)] through the object. *)
Definition fieldsPresent (h : list JS.object) (fields : list string)
    (object : JS.value) : JS.result bool :=
  if negb (JS.truthy object) || negb (String.eqb (JS.typeof object) "object")
  then JS.Ok false
  else JS.every (JS.call_hasOwnProperty h object) fields.

(** [validJWK]; [||] does not evaluate ['d' in jwk] when the fields are
    missing. *)
Definition validJWK (h : list JS.object) (jwk : JS.value) : JS.result bool :=
  match fieldsPresent h ["kty"] jwk with
  | JS.Throw e => JS.Throw e
  | JS.Ok present =>
      if negb present || JS.has_property h jwk "d" then JS.Ok false
      else
        match JS.prop h jwk "kty" with
        | JS.VString kty =>
            if String.eqb kty "RSA" then
              JS.Ok (isB64String (JS.prop h jwk "n") &&
                     isB64String (JS.prop h jwk "e"))
            else if String.eqb kty "EC" then
              JS.Ok (String.eqb (JS.typeof (JS.prop h jwk "crv")) "string" &&
                     isB64String (JS.prop h jwk "x") &&
                     isB64String (JS.prop h jwk "y"))
            else JS.Ok false
        | _ => JS.Ok false
        end
  end.

End AcmeUtils.

(** ** The protocol module: the Link header *)

Module Link.
Import JS.

Definition quote : ascii := "034"%char.

(** The [replace] that strips the angle brackets of the URL (pattern: start,
    [<], a group of characters other than [>], [>], end; replacement: the
    group): the text between the brackets when the whole string is one
    bracketed token, else the string itself. *)
Fixpoint closing (r : string) : option string :=
  match r with
  | EmptyString => None
  | String c r' =>
      if Ascii.eqb c ">" then
        match r' with EmptyString => Some EmptyString | _ => None end
      else option_map (String c) (closing r')
  end.

Definition unbracket (x : string) : string :=
  match x with
  | String c r =>
      if Ascii.eqb c "<" then
        match closing r with Some m => m | None => x end
      else x
  | EmptyString => x
  end.

(** The [match] of an attribute (pattern: start, a non-empty group of
    characters other than [=] and space, spaces, [=], spaces, a double quote,
    a non-empty group of characters other than the double quote, a double
    quote, end): the two groups, when the pattern matches. *)
Definition match_attr (p : string) : option (string * string) :=
  let '(key, r1) :=
    Str.span (fun c => negb (Ascii.eqb c "=" || Ascii.eqb c " ")) p in
  match key with
  | EmptyString => None
  | _ =>
      match snd (Str.span (fun c => Ascii.eqb c " ") r1) with
      | String e r3 =>
          if Ascii.eqb e "=" then
            match snd (Str.span (fun c => Ascii.eqb c " ") r3) with
            | String q r5 =>
                if Ascii.eqb q quote then
                  let '(val, r6) :=
                    Str.span (fun c => negb (Ascii.eqb c quote)) r5 in
                  match val, r6 with
                  | String _ _, String q' EmptyString =>
                      if Ascii.eqb q' quote then Some (key, val) else None
                  | _, _ => None
                  end
                else None
            | EmptyString => None
            end
          else None
      | EmptyString => None
      end
  end.

(** [acc[k] = v] on an object literal, for a string [v]: the key
    [__proto__] names the prototype accessor, which ignores a string. *)
Definition assign (k : string) (v : value) (acc : gmap string value)
  : gmap string value :=
  if String.eqb k "__proto__" then acc else <[k := v]> acc.

(** The [info] object of one comma-separated segment. *)
Definition parse_segment (lnk : string) : gmap string value :=
  match Str.split ";" (Str.trim lnk) with
  | first :: parts =>
      let url := unbracket first in
      let info :=
        fold_left
          (fun acc p =>
             match match_attr (Str.trim p) with
             | Some (k, v) => assign k (VString v) acc
             | None => acc
             end) parts ∅ in
      <["url" := VString url]> info
  | [] => ∅
  end.

(** The relations of a header value: the last segment with a given [rel]
    wins. *)
Definition relations (link : string) : gmap string value :=
  fold_left
    (fun acc info =>
       match info !! "rel" with
       | Some rel => assign (to_string [] rel) (default VUndefined (info !! "url")) acc
       | None => acc
       end)
    (map parse_segment (Str.split "," link)) ∅.

(** [_parseLink]: the content of the object returned, or [None] for the
    [null] of the [catch] branch, taken when [link.split] is not callable. *)
Definition _parseLink (link : value) : option (gmap string value) :=
  match link with
  | VString s => Some (relations s)
  | _ => None
  end.

End Link.

(** ** The protocol module: class [AcmeProtocol]

    One client instance, the module-level [AGENT] header object, the heap of
    the objects it shares with its caller, and the promises it has created.
    Each promise returned by a method is a job, named by its index; the
    callbacks of the source's [then] chains are the transitions of the job,
    each run atomically when its event arrives, as the event loop does.  The
    HTTP library, the signing collaborator [crypto.generateSignature] and the
    scheduler are the environment: a request or a signing call is recorded
    when it is dispatched, and its outcome arrives as an event. *)

Module Protocol.
Import JS.

Definition pid := nat.

Inductive method := HEAD | GET | POST.

(** [opts.body]: absent, the envelope itself (with [json: true]), or
    [JSON.stringify] of the envelope. *)
Inductive req_body :=
| NoBody
| JsonBody (jws : value)
| TextBody (jws : value).

Record request := Request {
  req_method : method;
  req_uri : value;
  req_json : bool;
  req_full : bool;
  req_headers : gmap string string;
  req_body_of : req_body;
}.

(** A response body as the HTTP library hands it over: a primitive, or an
    object it has just built from the JSON text. *)
Inductive parsed :=
| Primitive (v : value)
| Parsed (o : object).

Record response := Response {
  headers : gmap string string;
  body : parsed;
}.

(** [resp.headers[name]]. *)
Definition header (resp : response) (name : string) : value :=
  match headers resp !! name with
  | Some s => VString s
  | None => VUndefined
  end.

(** A call [crypto.generateSignature(privateKey, nonce, body)], with the
    content of the [body] object at the time of the call. *)
Record sign_call := SignCall {
  sc_key : value;
  sc_nonce : value;
  sc_payload : value;
  sc_content : option object;
}.

(** The callback given to [this.directory().then]. *)
Inductive dir_callback :=
| NewReg (contacts agreement : value).

Inductive job :=
| DirFetch
| AwaitDirectory (d : pid) (k : dir_callback)
| NonceProbe (uri body : value) (binary : bool)
| NonceReady (nonce uri body : value) (binary : bool)
| Signing (uri : value) (binary : bool)
| Posting (binary : bool)
| Settled (o : outcome value).

Record world := World {
  heap : list object;
  AGENT : gmap string string;
  nonces : list value;
  privateKey : value;
  directoryURI : value;
  dirPromise : option pid;
  jobs : list job;
  sent : list request;
  signed : list sign_call;
}.

Definition set_heap (h : list object) (w : world) : world :=
  World h (AGENT w) (nonces w) (privateKey w) (directoryURI w) (dirPromise w)
        (jobs w) (sent w) (signed w).
Definition set_AGENT (a : gmap string string) (w : world) : world :=
  World (heap w) a (nonces w) (privateKey w) (directoryURI w) (dirPromise w)
        (jobs w) (sent w) (signed w).
Definition set_nonces (n : list value) (w : world) : world :=
  World (heap w) (AGENT w) n (privateKey w) (directoryURI w) (dirPromise w)
        (jobs w) (sent w) (signed w).
Definition set_dirPromise (d : option pid) (w : world) : world :=
  World (heap w) (AGENT w) (nonces w) (privateKey w) (directoryURI w) d
        (jobs w) (sent w) (signed w).
Definition set_jobs (j : list job) (w : world) : world :=
  World (heap w) (AGENT w) (nonces w) (privateKey w) (directoryURI w)
        (dirPromise w) j (sent w) (signed w).
Definition set_sent (r : list request) (w : world) : world :=
  World (heap w) (AGENT w) (nonces w) (privateKey w) (directoryURI w)
        (dirPromise w) (jobs w) r (signed w).
Definition set_signed (c : list sign_call) (w : world) : world :=
  World (heap w) (AGENT w) (nonces w) (privateKey w) (directoryURI w)
        (dirPromise w) (jobs w) (sent w) c.

(** [rp.head], [rp.get], [rp.post]: the request leaves now. *)
Definition dispatch (r : request) (w : world) : world :=
  set_sent (sent w ++ [r]) w.

(** A new promise. *)
Definition spawn (j : job) (w : world) : pid * world :=
  (List.length (jobs w), set_jobs (jobs w ++ [j]) w).

Definition set_job (p : pid) (j : job) (w : world) : world :=
  set_jobs (<[p := j]> (jobs w)) w.

Definition DEFAULTS_directoryURI : string :=
  "https://acme-staging.api.letsencrypt.org/directory".

(** [new AcmeProtocol(privateKey, directoryURI)], in a module whose [AGENT]
    is [{'User-Agent': pkg.homepage}]. *)
Definition constructor (homepage : string) (h : list object)
    (privateKey directoryURI : value) : result world :=
  if negb (truthy privateKey) then Throw (TypeError "privateKey required")
  else Ok (World h {["User-Agent" := homepage]} [] privateKey
             (if truthy directoryURI then directoryURI
              else VString DEFAULTS_directoryURI)
             None [] [] []).

(** [obj[LINKS]] and [obj[LOCATION]]. *)
Definition LINKS_of (h : list object) (obj : value) : value :=
  match obj with
  | VRef l =>
      match h !! l with
      | Some o => default VUndefined (links o)
      | None => VUndefined
      end
  | _ => VUndefined
  end.

Definition LOCATION_of (h : list object) (obj : value) : value :=
  match obj with
  | VRef l =>
      match h !! l with
      | Some o => default VUndefined (location o)
      | None => VUndefined
      end
  | _ => VUndefined
  end.

(** [AcmeProtocol.getLink(obj, name)]. *)
Definition getLink (h : list object) (obj name : value) : result value :=
  if negb (truthy obj) || negb (truthy (LINKS_of h obj)) then
    Throw (TypeError "Invalid object, no links")
  else if negb (truthy name) then Ok (LINKS_of h obj)
  else Ok (prop h (LINKS_of h obj) (to_string h name)).

(** [AcmeProtocol.getLocation(obj)]. *)
Definition getLocation (h : list object) (obj : value) : result value :=
  if negb (truthy obj) then Throw (TypeError "Invalid object, no location")
  else Ok (LOCATION_of h obj).

(** The deposit made by [_post] and [directory]:
    [if (resp.headers['replay-nonce']) this.nonces.push(...)]. *)
Definition deposit (hdr : value) (pool : list value) : list value :=
  if truthy hdr then pool ++ [hdr] else pool.

(** The synchronous part of [_nonce(uri)]: the pool is shifted; a truthy
    token is returned at once ([Some]), otherwise the HEAD probe leaves. *)
Definition _nonce (uri : value) (w : world) : world * option value :=
  let '(nonce, rest) := shift (nonces w) in
  let w := set_nonces rest w in
  if truthy nonce then (w, Some nonce)
  else (dispatch (Request HEAD uri true true (AGENT w) NoBody) w, None).

(** The callback of the probe: the header, or [Error]. *)
Definition on_probe_response (resp : response) : result value :=
  if truthy (header resp "replay-nonce") then Ok (header resp "replay-nonce")
  else Throw (Error "No nonce available").

(** [_post(uri, body, binary)]: its synchronous part is that of [_nonce];
    the job returned is the promise chain it has started. *)
Definition _post (uri body : value) (binary : bool) (w : world) : world * job :=
  match _nonce uri w with
  | (w', Some nonce) => (w', NonceReady nonce uri body binary)
  | (w', None) => (w', NonceProbe uri body binary)
  end.

(** First [then] of [_post]: the signing collaborator is called. *)
Definition on_nonce (nonce uri body : value) (binary : bool) (w : world)
  : world * job :=
  let content :=
    match body with VRef l => heap w !! l | _ => None end in
  (set_signed (signed w ++ [SignCall (privateKey w) nonce body content]) w,
   Signing uri binary).

(** Second [then] of [_post]: the options are built and the POST leaves.
    [opts.headers] is the [AGENT] object itself. *)
Definition on_signed (uri : value) (binary : bool) (jws : value) (w : world)
  : world * job :=
  if binary then
    let w := set_AGENT (<["Content-Type" := "application/json"]> (AGENT w)) w in
    (dispatch (Request POST uri false true (AGENT w) (TextBody jws)) w,
     Posting binary)
  else
    (dispatch (Request POST uri true true (AGENT w) (JsonBody jws)) w,
     Posting binary).

(** The body of a response enters the heap. *)
Definition receive (b : parsed) (h : list object) : value * list object :=
  match b with
  | Primitive v => (v, h)
  | Parsed o => let '(l, h') := alloc o h in (VRef l, h')
  end.

(** [new Buffer(v)]; a [Buffer] made from a [Buffer] is a copy of it. *)
Definition new_Buffer (v : value) (h : list object) : result (value * list object) :=
  let ok source :=
    let '(l, h') := alloc (Object (Buffer source) ∅ None None) h in
    Ok (VRef l, h') in
  match v with
  | VString _ => ok v
  | VRef l =>
      match h !! l with
      | Some (Object (Array _) _ _ _) => ok v
      | Some (Object (Buffer source) _ _ _) => ok source
      | _ => Throw (TypeError "must start with number, buffer, array or string")
      end
  | _ => Throw (TypeError "must start with number, buffer, array or string")
  end.

(** Third [then] of [_post]: the response handler. *)
Definition on_post_response (binary : bool) (resp : response) (w : world)
  : world * outcome value :=
  let '(v, h1) := receive (body resp) (heap w) in
  let wrapped :=
    if binary then
      match new_Buffer v h1 with
      | Ok (b, h') =>
          let '(o, h'') := alloc (plain {["body" := b]}) h' in Ok (VRef o, h'')
      | Throw e => Throw e
      end
    else Ok (v, h1) in
  match wrapped with
  | Throw e => (set_heap h1 w, Rejected e)
  | Ok (out, h2) =>
      match out with
      | VRef l =>
          let '(lk, h3) :=
            match Link._parseLink (header resp "link") with
            | None => (VNull, h2)
            | Some m => let '(l', h') := alloc (plain m) h2 in (VRef l', h')
            end in
          let h4 :=
            match h3 !! l with
            | Some o =>
                <[l := Object (kind_of o) (props o) (Some lk)
                         (Some (header resp "location"))]> h3
            | None => h3
            end in
          (set_nonces (deposit (header resp "replay-nonce") (nonces w))
             (set_heap h4 w),
           Fulfilled out)
      | _ =>
          (set_heap h2 w,
           Rejected (TypeError "Cannot create property 'Symbol(links)'"))
      end
  end.

(** [directory()]. *)
Definition directory (w : world) : world * pid :=
  match dirPromise w with
  | Some p => (w, p)
  | None =>
      let w := dispatch (Request GET (directoryURI w) true true (AGENT w) NoBody) w in
      let '(p, w) := spawn DirFetch w in
      (set_dirPromise (Some p) w, p)
  end.

(** The callback of [directory]'s fetch. *)
Definition on_directory_response (resp : response) (w : world)
  : world * outcome value :=
  let '(v, h1) := receive (body resp) (heap w) in
  (set_nonces (deposit (header resp "replay-nonce") (nonces w)) (set_heap h1 w),
   Fulfilled v).

Inductive reply :=
| Threw (e : error)
| Returned (p : pid)
| Silent.

(** [newRegistration(contacts, agreement)]. *)
Definition newRegistration (contacts agreement : value) (w : world)
  : world * reply :=
  if negb (isArray (heap w) contacts) then
    (w, Threw (TypeError "contacts must be non-empty array of URIs"))
  else
    let '(w, d) := directory w in
    let '(p, w) := spawn (AwaitDirectory d (NewReg contacts agreement)) w in
    (w, Returned p).

(** The callback of [newRegistration], run with the directory. *)
Definition on_directory_newReg (contacts agreement dir : value) (w : world)
  : world * job :=
  match get (heap w) dir "new-reg" with
  | Throw e => (w, Settled (Rejected e))
  | Ok endpoint =>
      if negb (truthy endpoint) then
        (w, Settled (Rejected (Error "No new-registration endpoint available")))
      else
        let payload :=
          <["contact" := contacts]> (<["resource" := VString "new-reg"]> ∅) in
        let payload :=
          if truthy agreement then <["agreement" := agreement]> payload
          else payload in
        let '(l, h) := alloc (plain payload) (heap w) in
        let w := set_heap h w in
        _post (prop (heap w) dir "new-reg") (VRef l) false w
  end.

(** [updateRegistration(uri, registration)]. *)
Definition updateRegistration (uri registration : value) (w : world)
  : world * reply :=
  if negb (truthy uri) then
    (w, Threw (TypeError "No registration URI provided"))
  else
    match set (heap w) registration "resource" (VString "reg") with
    | Throw e => (w, Threw e)
    | Ok h =>
        let '(w, j) := _post uri registration false (set_heap h w) in
        let '(p, w) := spawn j w in
        (w, Returned p)
    end.

(** [respondToChallenge(challenge)]. *)
Definition respondToChallenge (challenge : value) (w : world) : world * reply :=
  match get (heap w) challenge "uri" with
  | Throw e => (w, Threw e)
  | Ok uri =>
      if negb (truthy uri) then
        (w, Threw (TypeError "Invalid challenge object"))
      else
        match set (heap w) challenge "resource" (VString "challenge") with
        | Throw e => (w, Threw e)
        | Ok h1 =>
            match get h1 (privateKey w) "thumbprint" with
            | Throw e => (set_heap h1 w, Threw e)
            | Ok thumbprint =>
                let keyAuthorization :=
                  concat h1 (concat h1 (prop h1 challenge "token") (VString "."))
                         thumbprint in
                match set h1 challenge "keyAuthorization" keyAuthorization with
                | Throw e => (set_heap h1 w, Threw e)
                | Ok h2 =>
                    let '(w, j) :=
                      _post (prop h2 challenge "uri") challenge false
                            (set_heap h2 w) in
                    let '(p, w) := spawn j w in
                    (w, Returned p)
                end
            end
        end
  end.

Inductive call :=
| Directory
| NewRegistration (contacts agreement : value)
| UpdateRegistration (uri registration : value)
| RespondToChallenge (challenge : value)
| Post (uri body : value) (binary : bool).

Inductive event :=
| Call (c : call)
| Tick (p : pid)
| Signed (p : pid) (o : outcome value)
| Reply (p : pid) (o : outcome response).

Definition do_call (c : call) (w : world) : world * reply :=
  match c with
  | Directory => let '(w, p) := directory w in (w, Returned p)
  | NewRegistration contacts agreement => newRegistration contacts agreement w
  | UpdateRegistration uri registration => updateRegistration uri registration w
  | RespondToChallenge challenge => respondToChallenge challenge w
  | Post uri body binary =>
      let '(w, j) := _post uri body binary w in
      let '(p, w) := spawn j w in
      (w, Returned p)
  end.

(** A queued callback of job [p] runs. *)
Definition do_tick (p : pid) (w : world) : world :=
  match jobs w !! p with
  | Some (NonceReady nonce uri body binary) =>
      let '(w, j) := on_nonce nonce uri body binary w in set_job p j w
  | Some (AwaitDirectory d (NewReg contacts agreement)) =>
      match jobs w !! d with
      | Some (Settled (Fulfilled dir)) =>
          let '(w, j) := on_directory_newReg contacts agreement dir w in
          set_job p j w
      | Some (Settled (Rejected e)) => set_job p (Settled (Rejected e)) w
      | _ => w
      end
  | _ => w
  end.

(** The signing collaborator settles its promise for job [p]. *)
Definition do_signed (p : pid) (o : outcome value) (w : world) : world :=
  match jobs w !! p with
  | Some (Signing uri binary) =>
      match o with
      | Fulfilled jws => let '(w, j) := on_signed uri binary jws w in set_job p j w
      | Rejected e => set_job p (Settled (Rejected e)) w
      end
  | _ => w
  end.

(** The request that job [p] awaits completes. *)
Definition do_reply (p : pid) (o : outcome response) (w : world) : world :=
  match jobs w !! p with
  | Some DirFetch =>
      match o with
      | Fulfilled resp =>
          let '(w, r) := on_directory_response resp w in set_job p (Settled r) w
      | Rejected e => set_job p (Settled (Rejected e)) w
      end
  | Some (NonceProbe uri body binary) =>
      match o with
      | Fulfilled resp =>
          match on_probe_response resp with
          | Ok nonce => set_job p (NonceReady nonce uri body binary) w
          | Throw e => set_job p (Settled (Rejected e)) w
          end
      | Rejected e => set_job p (Settled (Rejected e)) w
      end
  | Some (Posting binary) =>
      match o with
      | Fulfilled resp =>
          let '(w, r) := on_post_response binary resp w in set_job p (Settled r) w
      | Rejected e => set_job p (Settled (Rejected e)) w
      end
  | _ => w
  end.

Definition step (e : event) (w : world) : world * reply :=
  match e with
  | Call c => do_call c w
  | Tick p => (do_tick p w, Silent)
  | Signed p o => (do_signed p o w, Silent)
  | Reply p o => (do_reply p o w, Silent)
  end.

(** A run: the final world and the reply to each event. *)
Fixpoint exec (es : list event) (w : world) : world * list reply :=
  match es with
  | [] => (w, [])
  | e :: r =>
      let '(w1, a) := step e w in
      let '(w2, l) := exec r w1 in
      (w2, a :: l)
  end.

Definition run (es : list event) (w : world) : world := fst (exec es w).

(** The requests that fetch the directory. *)
Definition is_directory_fetch (r : request) : bool :=
  match req_method r with GET => true | _ => false end.

Definition directory_fetches (w : world) : nat :=
  List.length (List.filter is_directory_fetch (sent w)).

End Protocol.

(** ** Vocabulary of the statements *)

Module Base64Check.
Import NodeBuffer AcmeUtils.
Local Open Scope N_scope.

(** Finite checks: a boolean property of the numbers below [k], or of the
    256 bytes, is established by evaluating it on each of them. *)
Definition N_below (k : nat) : list N := map N.of_nat (seq 0 k).

(** What [fromStandardB64] does to the first character. *)
Definition url_char (c : ascii) : ascii :=
  if Ascii.eqb c "+" then "-"%char else if Ascii.eqb c "/" then "_"%char else c.

Definition sextet_ok (n : N) : bool :=
  let c := url_char (base64_char n) in
  negb (Ascii.eqb c "=") &&
  match unbase64 c with Some m => m =? n | None => false end.

Definition enc_bound_ok (a b : N) : bool :=
  (enc1 a <? 64) && (enc2 a b <? 64) && (enc3 a b <? 64) && (enc4 a <? 64).

Definition dec1_ok (a y : N) : bool :=
  Byte.eqb (dec1 (enc1 a) (enc2 a y)) (byte_of_N a).

Definition dec2_ok (hl b : N) : bool :=
  Byte.eqb
    (dec2 (N.lor (N.shiftl (N.shiftr hl 2) 4) (N.shiftr b 4))
          (N.lor (N.shiftl (N.land b 15) 2) (N.land hl 3)))
    (byte_of_N b).

Definition dec3_ok (m c : N) : bool :=
  Byte.eqb (dec3 (N.lor (N.shiftl m 2) (N.shiftr c 6)) (enc4 c)) (byte_of_N c).

End Base64Check.

Module Vocabulary.
Import JS NodeBuffer AcmeUtils Link Protocol.


(** The base64url alphabet of RFC 4648, and the strings written in it. *)
Definition base64url_alphabet : string :=
  "ABCDEFGHIJKLMNOPQRSTUVWXYZabcdefghijklmnopqrstuvwxyz0123456789-_".

Fixpoint base64url_text (s : string) : Prop :=
  match s with
  | EmptyString => True
  | String c r => Str.contains c base64url_alphabet = true /\ base64url_text r
  end.



(** An object with its string-keyed properties replaced. *)
Definition with_props (m : gmap string value) (o : object) : object :=
  Object (kind_of o) m (links o) (location o).

(** The worlds a client can be in: built by the constructor, then driven by
    any sequence of events. *)
Definition reachable (w : world) : Prop :=
  exists homepage h key uri w0 es,
    constructor homepage h key uri = Ok w0 /\
    run es w0 = w.

(** Every token in the pool is truthy, as the guard of each deposit makes
    sure. *)
Definition pool_truthy (w : world) : Prop :=
  Forall (fun n => truthy n = true) (nonces w).

(** The directory promise and the fetches agree: no promise and no fetch, or
    one promise and one fetch. *)
Definition directory_consistent (w : world) : Prop :=
  match dirPromise w with
  | None => directory_fetches w = 0
  | Some p =>
      directory_fetches w = 1 /\ p < List.length (jobs w)
  end.

(** The translation of the URL-safe alphabet to the standard one. *)
Definition to_standard_alphabet (x : string) : string :=
  Str.replace_all "_" "/" (Str.replace_all "-" "+" x).

Definition rsa_public : object :=
  plain (<["kty" := VString "RSA"]> (<["n" := VString "AQAB-_"]>
          (<["e" := VString "AQAB"]> ∅))).

Definition rsa_private : object :=
  plain (<["d" := VString "c2VjcmV0"]> (props rsa_public)).

(** The same keys, each with a field named [hasOwnProperty], as a JSON text
    can give them. *)
Definition shadowing_private : object :=
  plain (<["hasOwnProperty" := VNull]> (props rsa_private)).

Definition shadowing_public : object :=
  plain (<["hasOwnProperty" := VNull]> (props rsa_public)).

Definition ec_public : object :=
  plain (<["kty" := VString "EC"]> (<["crv" := VString "P-256"]>
          (<["x" := VString "f83O"]> (<["y" := VString "x_FE"]> ∅)))).

Definition dq : string := String quote "".

(** The header of the source's comment. *)
Definition sample_header : string :=
  "<testing>; rel=" ++ dq ++ "test" ++ dq ++ ", <foo>; rel=" ++ dq ++ "test2" ++ dq
  ++ "; title=" ++ dq ++ "a test" ++ dq.

Definition fresh_client : world :=
  World [] {["User-Agent" := "https://github.com/isaackwan/node-acme"]} []
        (VString "key") (VString DEFAULTS_directoryURI) None [] [] [].

Definition directory_body : object :=
  plain (<["new-reg" := VString "https://ca.example/acme/new-reg"]> ∅).

Definition directory_response : response :=
  Response (<["replay-nonce" := "n0"]> ∅) (Parsed directory_body).

(** C3 as it is stated: in every world a client can reach, once the directory
    promise is rejected, a further [directory()] call dispatches a new
    fetch. *)
Definition failed_directory_is_retried : Prop :=
  forall w p e,
    reachable w -> dirPromise w = Some p ->
    jobs w !! p = Some (Settled (Rejected e)) ->
    directory_fetches (fst (step (Call Directory) w)) =
    S (directory_fetches w).

Definition refused : error := RequestError "ECONNREFUSED".

(** The operations of the nonce store: [take] is the synchronous part of
    [_nonce], [deposit] the guarded [push] of [_post] and [directory]. *)
Inductive pool_op :=
| Take (probeURI : value)
| Deposit (nonce : value).

(** One operation; a take served from the pool returns its token, a take on
    an exhausted pool returns nothing yet (the probe is on its way). *)
Definition pool_step (op : pool_op) (w : world) : world * option value :=
  match op with
  | Take uri => _nonce uri w
  | Deposit n => (set_nonces (deposit n (nonces w)) w, None)
  end.

Fixpoint pool_run (ops : list pool_op) (w : world)
  : world * list (option value) :=
  match ops with
  | [] => (w, [])
  | op :: r =>
      let '(w1, a) := pool_step op w in
      let '(w2, l) := pool_run r w1 in
      (w2, a :: l)
  end.

(** C1 as it is stated: in a run of store operations from an empty pool, a
    token returned by two takes was deposited between them. *)
Definition nonce_never_reissued : Prop :=
  forall (ops : list pool_op) (i j : nat) (t : value),
    (i < j)%nat ->
    snd (pool_run ops fresh_client) !! i = Some (Some t) ->
    snd (pool_run ops fresh_client) !! j = Some (Some t) ->
    exists k, (i < k < j)%nat /\ ops !! k = Some (Deposit t).

Definition pool_of (l : list value) : world :=
  set_nonces l fresh_client.

(** A segment of a Link header declares a relation when one of its
    attributes matches the attribute pattern with the key [rel]. *)
Definition declares_rel (lnk : string) : bool :=
  match Str.split ";" (Str.trim lnk) with
  | _ :: parts =>
      existsb
        (fun p =>
           match match_attr (Str.trim p) with
           | Some (k, _) => String.eqb k "rel"
           | None => false
           end) parts
  | [] => false
  end.

Definition no_relation (link : string) : bool :=
  forallb (fun lnk => negb (declares_rel lnk)) (Str.split "," link).

(** C9 as it is stated, for an absent header: the response handler of
    [_post] fulfils, and asking the value it returns for its links succeeds
    with an object that has no relation. *)
Definition absent_link_reports_no_relations : Prop :=
  forall (w : world) (resp : response) (o : object),
    body resp = Parsed o -> headers resp !! "link" = None ->
    exists w' out l,
      on_post_response false resp w = (w', Fulfilled out) /\
      getLink (heap w') out VUndefined = Ok (VRef l) /\
      heap w' !! l = Some (plain ∅).

(** A client whose heap holds an array of one contact at location 0. *)
Definition client_with_one_contact : world :=
  set_heap [Object (Array [VString "mailto:a@example.com"]) ∅ None None]
           fresh_client.

(** A client whose heap holds the empty array at location 0. *)
Definition client_with_empty_contacts : world :=
  set_heap [Object (Array []) ∅ None None] fresh_client.

Definition new_reg_payload : object :=
  plain (<["contact" := VRef 0]> (<["resource" := VString "new-reg"]> ∅)).

(** The end-to-end scenario of the challenge response: a key object with
    thumbprint "K", a challenge with token "T", and a registration. *)
Definition key_object : object := plain (<["thumbprint" := VString "K"]> ∅).

Definition challenge_object : object :=
  plain (<["uri" := VString "https://ca.example/acme/challenge/1"]>
          (<["token" := VString "T"]> (<["type" := VString "http-01"]> ∅))).

Definition registration_object : object :=
  plain (<["agreement" := VString "https://ca.example/terms"]> ∅).

Definition challenge_client : world :=
  World [key_object; challenge_object; registration_object]
        {["User-Agent" := "https://github.com/isaackwan/node-acme"]} []
        (VRef 0) (VString DEFAULTS_directoryURI) None [] [] [].

End Vocabulary.

(** ** [AcmeUtils]: signatures and fingerprints *)

Module Keys.
Import JS AcmeUtils.

(** [validSignature]; [&&] calls [validJWK] only when the three tests before
    it hold. *)
Definition validSignature (h : list object) (sig : value) : result bool :=
  match fieldsPresent h ["alg"; "nonce"; "sig"; "jwk"] sig with
  | Throw e => Throw e
  | Ok false => Ok false
  | Ok true =>
      if String.eqb (typeof (prop h sig "alg")) "string" &&
         isB64String (prop h sig "nonce") &&
         isB64String (prop h sig "sig")
      then validJWK h (prop h sig "jwk")
      else Ok false
  end.

(** [keyFingerprint]: the strings are built with [+], from the left. *)
Definition keyFingerprint (h : list object) (jwk : value) : result value :=
  match fieldsPresent h ["kty"] jwk with
  | Throw e => Throw e
  | Ok false => Throw (Error "Invalid key")
  | Ok true =>
    match prop h jwk "kty" with
    | VString kty =>
        if String.eqb kty "RSA" then
          Ok (concat h (VString "") (prop h jwk "n"))
        else if String.eqb kty "EC" then
          Ok (concat h
                (concat h
                   (concat h
                      (concat h (concat h (VString "") (prop h jwk "crv"))
                              (VString "|"))
                      (prop h jwk "x"))
                   (VString "|"))
                (prop h jwk "y"))
        else Throw (Error "Unrecognized key type")
    | _ => Throw (Error "Unrecognized key type")
    end
  end.

End Keys.

(** ** The http-01 validator

    The class [HTTP01validator]: the constructor's check and the handler it
    registers for [/.well-known/acme-challenge/:token].  The handler closes
    over [domain] and over the challenge object, which it reads when a
    request arrives.  A port is a number, here an [N]; the web framework and
    the listening socket are outside the model, but for the check that
    [res.end] makes on its argument. *)

Module HTTP01validator.
Import JS AcmeUtils.

Definition CHALLENGE_FIELDS : list string :=
  ["type"; "token"; "keyAuthorization"].

(** [a === b]. *)
Definition strict_equal (a b : value) : bool :=
  match a, b with
  | VUndefined, VUndefined => true
  | VNull, VNull => true
  | VBool x, VBool y => Bool.eqb x y
  | VString x, VString y => String.eqb x y
  | VRef x, VRef y => Nat.eqb x y
  | _, _ => false
  end.

Record validator := Validator {
  port : N;
  domain : value;
  challenge : value;
}.

(** [new HTTP01validator(domain, challenge, port)]; [port] is absent or a
    number, and [port || 80] replaces an absent port and the port 0. *)
Definition constructor (h : list object) (domain challenge : value)
    (port : option N) : result validator :=
  match fieldsPresent h CHALLENGE_FIELDS challenge with
  | Throw e => Throw e
  | Ok present =>
      if negb present
         || negb (strict_equal (prop h challenge "type") (VString "http-01"))
      then Throw (TypeError "Mal-formed challenge")
      else
        Ok (Validator
              (match port with
               | Some p => if N.eqb p 0 then 80%N else p
               | None => 80%N
               end)
              domain challenge)
  end.

(** What the handler sends: the status of [writeHead] and the body written
    by [end]. *)
Record reply := Reply {
  status : N;
  content_type : option string;
  sent_body : value;
}.

(** [res.end(data)]: a falsy argument writes nothing, a string or a [Buffer]
    is written, and any other argument makes [end] throw. *)
Definition end_body (h : list object) (data : value) : result value :=
  if negb (truthy data) then Ok (VString "")
  else
    match data with
    | VString _ => Ok data
    | VRef l =>
        match h !! l with
        | Some (Object (Buffer _) _ _ _) => Ok data
        | _ => Throw (TypeError "first argument must be a string or Buffer")
        end
    | _ => Throw (TypeError "first argument must be a string or Buffer")
    end.

(** The handler, for a request whose [Host] header is [host] (absent:
    [None]) and whose route parameter is [token].  [host.split(/:/)[0]] is
    the text before the first colon; on an absent header the call throws. *)
Definition handle (h : list object) (v : validator) (host : option string)
    (token : string) : result reply :=
  match host with
  | None => Throw (TypeError "Cannot read property 'split' of undefined")
  | Some host =>
      let name :=
        match Str.split ":" host with
        | first :: _ => VString first
        | [] => VUndefined
        end in
      if strict_equal name (domain v) &&
         strict_equal (VString token) (prop h (challenge v) "token")
      then
        match end_body h (prop h (challenge v) "keyAuthorization") with
        | Ok written => Ok (Reply 200 (Some "text/plain") written)
        | Throw e => Throw e
        end
      else Ok (Reply 404 None (VString ""))
  end.

End HTTP01validator.

(** ** Vocabulary of the further properties *)

Module Notions.
Import JS NodeBuffer AcmeUtils Link Protocol Keys Base64Check Vocabulary.

(** What [toStandardB64] does to a character. *)
Definition std_char (c : ascii) : ascii :=
  if Ascii.eqb c "-" then "+"%char else if Ascii.eqb c "_" then "/"%char else c.

(** The checks made on each of the 64 characters of the encoder. *)
Definition alphabet_ok (n : N) : bool :=
  let b := base64_char n in
  let u := url_char b in
  negb (Ascii.eqb b "=") && negb (Ascii.eqb u "=") &&
  Ascii.eqb (std_char u) b && b64url_char u &&
  match unbase64 b with Some m => N.eqb m n | None => false end.

(** The checks made on each character of the base64url alphabet. *)
Definition url_alphabet_ok (c : ascii) : bool :=
  implb (Str.contains c base64url_alphabet)
        (negb (Ascii.eqb c "=") && negb (Ascii.eqb (std_char c) "=") &&
         Ascii.eqb (url_char (std_char c)) c).

(** A signature envelope over the public RSA key at location 1. *)
Definition signature_object : object :=
  plain (<["alg" := VString "RS256"]> (<["nonce" := VString "bm9uY2U"]>
          (<["sig" := VString "c2ln_-"]> (<["jwk" := VRef 1]> ∅)))).

(** A key object that only says it is an RSA key. *)
Definition bare_rsa : object := plain (<["kty" := VString "RSA"]> ∅).

(** A key object with a null [kty]. *)
Definition null_kty : object := plain (<["kty" := VNull]> ∅).

(** A well-formed Link header: each link is written [<url>; rel="rel"], and
    the links are separated by a comma and a space. *)
Definition format_link (url rel : string) : string :=
  "<" ++ url ++ ">; rel=" ++ dq ++ rel ++ dq.

Definition format_links (l : list (string * string)) : string :=
  join ", " (map (fun '(url, rel) => format_link url rel) l).

(** The URLs and relation names that such a header can carry unharmed. *)
Definition plain_url (url : string) : bool :=
  negb (Str.contains "," url) && negb (Str.contains ";" url) &&
  negb (Str.contains ">" url).

Definition plain_rel (rel : string) : bool :=
  negb (String.eqb rel "") && negb (String.eqb rel "__proto__") &&
  negb (Str.contains quote rel) && negb (Str.contains "," rel) &&
  negb (Str.contains ";" rel).

(** The mapping a list of links stands for: a later link replaces an earlier
    one with the same relation. *)
Definition links_map (l : list (string * string)) : gmap string value :=
  fold_left (fun acc '(url, rel) => <[rel := VString url]> acc) l ∅.

Definition plain_link (p : string * string) : Prop :=
  plain_url p.1 = true /\ plain_rel p.2 = true.

(** Requests by kind. *)
Definition is_post (r : request) : bool :=
  match req_method r with POST => true | _ => false end.

Definition text_body (r : request) : bool :=
  match req_body_of r with TextBody _ => true | _ => false end.

Definition is_signing (j : job) : bool :=
  match j with Signing _ _ => true | _ => false end.

(** The POSTs sent so far, and the jobs waiting for their envelope. *)
Definition posts (w : world) : nat :=
  List.length (List.filter is_post (sent w)).

Definition signing_jobs (w : world) : nat :=
  List.length (List.filter is_signing (jobs w)).

(** A nonce as a response header carries it: a non-empty string. *)
Definition is_token (v : value) : bool :=
  match v with
  | VString s => negb (String.eqb s "")
  | _ => false
  end.

Definition job_nonce_ok (j : job) : Prop :=
  match j with
  | NonceReady nonce _ _ _ => is_token nonce = true
  | _ => True
  end.

(** What the signer is given: the client's key and a nonce of the pool or
    of a probe. *)
Definition signer_state (key : value) (w : world) : Prop :=
  privateKey w = key /\
  Forall (fun v => is_token v = true) (nonces w) /\
  Forall job_nonce_ok (jobs w) /\
  Forall (fun c => sc_key c = key /\ is_token (sc_nonce c) = true) (signed w).

(** Every request sent after a POST with a text body carries the
    [Content-Type] that this POST has written into [AGENT]. *)
Definition content_type_leaks (l : list request) : Prop :=
  forall i j ri rj,
    i < j -> l !! i = Some ri -> text_body ri = true -> l !! j = Some rj ->
    req_headers rj !! "Content-Type" = Some "application/json".

(** The events that write to an object the caller already holds: the two
    methods that tag their argument, and a response whose body is an object
    of the heap rather than a new one. *)
Definition writes_to_caller (e : event) : Prop :=
  match e with
  | Call (UpdateRegistration _ _) | Call (RespondToChallenge _) => True
  | Reply _ (Fulfilled resp) =>
      match body resp with Primitive (VRef _) => True | _ => False end
  | _ => False
  end.

(** The state of the shared [AGENT] object: either it has the header, or no
    text body has been sent yet; and a text body goes out with the header. *)
Definition content_type_state (w : world) : Prop :=
  content_type_leaks (sent w) /\
  (AGENT w !! "Content-Type" = Some "application/json" \/
   Forall (fun r => text_body r = false) (sent w)) /\
  Forall (fun r => text_body r = true ->
                   req_headers r !! "Content-Type" = Some "application/json")
         (sent w).



(** A reference to a [Buffer]. *)
Definition is_Buffer (h : list object) (v : value) : bool :=
  match v with
  | VRef l =>
      match h !! l with
      | Some (Object (Buffer _) _ _ _) => true
      | _ => false
      end
  | _ => false
  end.

End Notions.

(** * Properties *)

Import Base64Check Vocabulary.

(** ** Base64url codec *)

Section Base64RoundTrip.
Import NodeBuffer AcmeUtils.
Local Open Scope N_scope.

Example b64enc_sample : b64enc [xfb; xff; x3e; x01] = "-_8-AQ".
Proof. reflexivity. Qed.

Example b64dec_sample : b64dec "-_8-AQ" = [xfb; xff; x3e; x01].
Proof. reflexivity. Qed.

Example b64dec_padded_sample : b64dec "+/8+AQ==" = [xfb; xff; x3e; x01].
Proof. reflexivity. Qed.

Lemma N_below_forallb (f : N -> bool) (k : nat) :
  forallb f (N_below k) = true -> forall n, n < N.of_nat k -> f n = true.
Proof.
  intros Hall n Hn.
  rewrite forallb_forall in Hall. apply Hall.
  unfold N_below. apply in_map_iff. exists (N.to_nat n). split.
  - apply N2Nat.id.
  - apply in_seq. lia.
Qed.

Lemma byte_of_to_N (b : byte) : byte_of_N (Byte.to_N b) = b.
Proof. destruct b; reflexivity. Qed.

Lemma byte_forallb (f : byte -> bool) :
  forallb (fun n => f (byte_of_N n)) (N_below 256) = true -> forall b, f b = true.
Proof.
  intros Hall b. rewrite <- (byte_of_to_N b).
  apply (N_below_forallb (fun n => f (byte_of_N n)) 256 Hall).
  pose proof (Byte.to_N_bounded b). lia.
Qed.

Lemma fromStandardB64_cons (c : ascii) (s : string) :
  fromStandardB64 (String c s) =
  if Ascii.eqb (url_char c) "=" then fromStandardB64 s
  else String (url_char c) (fromStandardB64 s).
Proof.
  unfold fromStandardB64, url_char. simpl.
  destruct (Ascii.eqb_spec c "+") as [->|]; [reflexivity|].
  destruct (Ascii.eqb_spec c "/") as [->|]; reflexivity.
Qed.

Lemma sextet_ok_all : forall n, n < 64 -> sextet_ok n = true.
Proof. apply (N_below_forallb sextet_ok 64). vm_compute. reflexivity. Qed.

Lemma sextets_fromStandardB64_cons (n : N) (s : string) :
  n < 64 ->
  sextets (fromStandardB64 (String (base64_char n) s)) =
  n :: sextets (fromStandardB64 s).
Proof.
  intros Hn. pose proof (sextet_ok_all n Hn) as Hok.
  unfold sextet_ok in Hok. apply andb_prop in Hok as [Hpad Hdec].
  rewrite fromStandardB64_cons.
  destruct (Ascii.eqb (url_char (base64_char n)) "=") eqn:E; [discriminate|].
  simpl. rewrite E.
  destruct (unbase64 (url_char (base64_char n))) as [m|]; [|discriminate].
  apply N.eqb_eq in Hdec. subst m. reflexivity.
Qed.

(** Bounds of the encoder's sextets. *)
Lemma land_3_bound (a : N) : N.land a 3 < 4.
Proof. change 3 with (N.ones 2). rewrite N.land_ones. apply N.mod_lt. discriminate. Qed.

Lemma land_15_bound (a : N) : N.land a 15 < 16.
Proof. change 15 with (N.ones 4). rewrite N.land_ones. apply N.mod_lt. discriminate. Qed.

Lemma shiftr_6_bound (c : N) : c < 256 -> N.shiftr c 6 < 4.
Proof.
  intros Hc. rewrite N.shiftr_div_pow2. change (2 ^ 6) with 64.
  apply N.Div0.div_lt_upper_bound. lia.
Qed.

Lemma enc_bound_all (a b : N) : a < 256 -> b < 256 -> enc_bound_ok a b = true.
Proof.
  intros Ha Hb. revert b Hb.
  apply (N_below_forallb (fun b => enc_bound_ok a b) 256).
  revert a Ha.
  apply (N_below_forallb
           (fun a => forallb (fun b => enc_bound_ok a b) (N_below 256)) 256).
  vm_compute. reflexivity.
Qed.

Lemma N_below_forallb2 (f : N -> N -> bool) (j k : nat) :
  forallb (fun a => forallb (f a) (N_below k)) (N_below j) = true ->
  forall a b, a < N.of_nat j -> b < N.of_nat k -> f a b = true.
Proof.
  intros Hall a b Ha Hb.
  apply (N_below_forallb (f a) k); [|exact Hb].
  apply (N_below_forallb (fun a => forallb (f a) (N_below k)) j Hall a Ha).
Qed.

Lemma dec1_enc (a b : byte) :
  dec1 (enc1 (Byte.to_N a)) (enc2 (Byte.to_N a) (Byte.to_N b)) = a.
Proof.
  pose proof (Byte.to_N_bounded a). pose proof (Byte.to_N_bounded b).
  rewrite <- (byte_of_to_N a) at 3. apply Byte.byte_dec_bl.
  apply (N_below_forallb2 dec1_ok 256 256); [vm_compute; reflexivity|lia|lia].
Qed.

Lemma dec1_enc_last (a : byte) :
  dec1 (enc1 (Byte.to_N a)) (enc2 (Byte.to_N a) 0) = a.
Proof.
  pose proof (Byte.to_N_bounded a).
  rewrite <- (byte_of_to_N a) at 3. apply Byte.byte_dec_bl.
  apply (N_below_forallb2 dec1_ok 256 256); [vm_compute; reflexivity|lia|lia].
Qed.

Lemma dec2_generic (h l : N) (b : byte) :
  h < 4 -> l < 4 ->
  dec2 (N.lor (N.shiftl h 4) (N.shiftr (Byte.to_N b) 4))
       (N.lor (N.shiftl (N.land (Byte.to_N b) 15) 2) l) = b.
Proof.
  intros Hh Hl. pose proof (Byte.to_N_bounded b).
  assert (Hcase : forall hl, hl < 16 ->
            dec2_ok hl (Byte.to_N b) = true).
  { intros hl Hhl.
    apply (N_below_forallb2 dec2_ok 16 256); [vm_compute; reflexivity|lia|lia]. }
  assert (Hsplit : exists hl, hl < 16 /\ N.shiftr hl 2 = h /\ N.land hl 3 = l).
  { assert (Hh' : h = 0 \/ h = 1 \/ h = 2 \/ h = 3) by lia.
    assert (Hl' : l = 0 \/ l = 1 \/ l = 2 \/ l = 3) by lia.
    exists (4 * h + l).
    destruct Hh' as [->|[->|[->| ->]]], Hl' as [->|[->|[->| ->]]];
      vm_compute; repeat split; reflexivity. }
  destruct Hsplit as (hl & Hhl & <- & <-).
  rewrite <- (byte_of_to_N b) at 3. apply Byte.byte_dec_bl.
  apply (Hcase hl Hhl).
Qed.

Lemma dec2_enc (a b c : byte) :
  dec2 (enc2 (Byte.to_N a) (Byte.to_N b)) (enc3 (Byte.to_N b) (Byte.to_N c)) = b.
Proof.
  unfold enc2, enc3. apply dec2_generic.
  - apply land_3_bound.
  - apply shiftr_6_bound. pose proof (Byte.to_N_bounded c). lia.
Qed.

Lemma dec2_enc_last (a b : byte) :
  dec2 (enc2 (Byte.to_N a) (Byte.to_N b)) (enc3 (Byte.to_N b) 0) = b.
Proof.
  unfold enc2, enc3. apply dec2_generic.
  - apply land_3_bound.
  - reflexivity.
Qed.

Lemma dec3_enc (b c : byte) :
  dec3 (enc3 (Byte.to_N b) (Byte.to_N c)) (enc4 (Byte.to_N c)) = c.
Proof.
  pose proof (Byte.to_N_bounded c). pose proof (land_15_bound (Byte.to_N b)).
  unfold enc3. rewrite <- (byte_of_to_N c) at 3. apply Byte.byte_dec_bl.
  apply (N_below_forallb2 dec3_ok 16 256); [vm_compute; reflexivity|lia|lia].
Qed.

Lemma enc_bounds (a b : byte) :
  enc1 (Byte.to_N a) < 64 /\ enc2 (Byte.to_N a) (Byte.to_N b) < 64 /\
  enc3 (Byte.to_N a) (Byte.to_N b) < 64 /\ enc4 (Byte.to_N a) < 64.
Proof.
  pose proof (Byte.to_N_bounded a). pose proof (Byte.to_N_bounded b).
  assert (Hok : enc_bound_ok (Byte.to_N a) (Byte.to_N b) = true)
    by (apply enc_bound_all; lia).
  unfold enc_bound_ok in Hok.
  repeat (apply andb_prop in Hok as [Hok ?]).
  repeat split; apply N.ltb_lt; assumption.
Qed.

Lemma enc_bounds_last (a : byte) :
  enc2 (Byte.to_N a) 0 < 64 /\ enc3 (Byte.to_N a) 0 < 64.
Proof.
  pose proof (Byte.to_N_bounded a).
  assert (Hok : enc_bound_ok (Byte.to_N a) 0 = true)
    by (apply enc_bound_all; lia).
  unfold enc_bound_ok in Hok.
  repeat (apply andb_prop in Hok as [Hok ?]).
  split; apply N.ltb_lt; assumption.
Qed.

(** Induction on a buffer three bytes at a time, as the encoder reads it. *)
Lemma buffer_ind3 (P : list byte -> Prop) :
  P [] -> (forall a, P [a]) -> (forall a b, P [a; b]) ->
  (forall a b c rest, P rest -> P (a :: b :: c :: rest)) ->
  forall buf, P buf.
Proof.
  intros H0 H1 H2 H3.
  fix IH 1. intros [|a [|b [|c rest]]]; [exact H0|apply H1|apply H2|].
  apply H3, IH.
Qed.

(** C7. Base64url round trip: for every byte sequence (buffer) [x], decoding
    the base64url encoding of [x] with [b64dec] gives back exactly [x]. *)
Theorem b64dec_b64enc (x : list byte) : b64dec (b64enc x) = x.
Proof.
  unfold b64dec, b64enc, from_base64.
  induction x as [|a|a b|a b c rest IH] using buffer_ind3.
  - reflexivity.
  - destruct (enc_bounds a a) as (H1 & _ & _ & _).
    destruct (enc_bounds_last a) as (H2 & _).
    cbn [toString_base64].
    rewrite !sextets_fromStandardB64_cons by assumption.
    cbn. f_equal. apply dec1_enc_last.
  - destruct (enc_bounds a b) as (H1 & H2 & _ & _).
    destruct (enc_bounds_last b) as (_ & H3).
    cbn [toString_base64].
    rewrite !sextets_fromStandardB64_cons by assumption.
    cbn [fromStandardB64 Str.replace_all Str.remove_all sextets decode_groups
         Ascii.eqb Bool.eqb].
    f_equal; [apply dec1_enc|]. f_equal. apply dec2_enc_last.
  - destruct (enc_bounds a b) as (H1 & H2 & _ & _).
    destruct (enc_bounds b c) as (_ & _ & H3 & _).
    destruct (enc_bounds c c) as (_ & _ & _ & H4).
    cbn [toString_base64].
    rewrite !sextets_fromStandardB64_cons by assumption.
    cbn [decode_groups]. rewrite IH.
    f_equal; [apply dec1_enc|]. f_equal; [apply dec2_enc|].
    f_equal. apply dec3_enc.
Qed.

End Base64RoundTrip.

Section PaddingLaw.
Import AcmeUtils.
Local Open Scope N_scope.

Lemma replace_all_length (a b : ascii) (x : string) :
  String.length (Str.replace_all a b x) = String.length x.
Proof. induction x as [|c r IH]; simpl; congruence. Qed.

Lemma append_cons (c : ascii) (x y : string) :
  String c x ++ y = String c (x ++ y).
Proof. reflexivity. Qed.

Lemma append_empty_r (x : string) : x ++ "" = x.
Proof. induction x as [|c r IH]; [reflexivity|]. by rewrite append_cons, IH. Qed.

Lemma replace_all_app (a b : ascii) (x y : string) :
  Str.replace_all a b (x ++ y) = Str.replace_all a b x ++ Str.replace_all a b y.
Proof.
  induction x as [|c r IH]; [reflexivity|].
  simpl. rewrite !append_cons. simpl. congruence.
Qed.

Lemma remove_all_app (a : ascii) (x y : string) :
  Str.remove_all a (x ++ y) = Str.remove_all a x ++ Str.remove_all a y.
Proof.
  induction x as [|c r IH]; [reflexivity|].
  rewrite append_cons. simpl.
  destruct (Ascii.eqb c a); rewrite ?append_cons; congruence.
Qed.

Lemma remove_all_idem (a : ascii) (x : string) :
  Str.remove_all a (Str.remove_all a x) = Str.remove_all a x.
Proof.
  induction x as [|c r IH]; simpl; [reflexivity|].
  destruct (Ascii.eqb c a) eqn:E; simpl; rewrite ?E; congruence.
Qed.

Lemma remove_replace_comm (p a b : ascii) (x : string) :
  a <> p -> b <> p ->
  Str.remove_all p (Str.replace_all a b x) =
  Str.replace_all a b (Str.remove_all p x).
Proof.
  intros Ha Hb. induction x as [|c r IH]; simpl; [reflexivity|].
  destruct (Ascii.eqb_spec c a) as [->|Hca].
  - destruct (Ascii.eqb_spec b p); [contradiction|].
    destruct (Ascii.eqb_spec a p); [contradiction|].
    simpl. rewrite Ascii.eqb_refl. congruence.
  - destruct (Ascii.eqb_spec c p); [assumption|].
    simpl. destruct (Ascii.eqb_spec c a); [contradiction|]. congruence.
Qed.

Lemma to_standard_alphabet_length (x : string) :
  String.length (to_standard_alphabet x) = String.length x.
Proof. unfold to_standard_alphabet. by rewrite !replace_all_length. Qed.

Lemma to_standard_alphabet_idem (x : string) :
  to_standard_alphabet (to_standard_alphabet x) = to_standard_alphabet x.
Proof.
  unfold to_standard_alphabet. induction x as [|c r IH]; simpl; [reflexivity|].
  rewrite IH. f_equal.
  destruct (Ascii.eqb_spec c "-") as [->|]; [reflexivity|].
  destruct (Ascii.eqb_spec c "_") as [->|H1]; [reflexivity|].
  destruct (Ascii.eqb_spec c "-"); [contradiction|].
  destruct (Ascii.eqb_spec c "_"); [contradiction|]. reflexivity.
Qed.

Lemma stripped_form (x : string) :
  Str.remove_all "=" (to_standard_alphabet x) =
  to_standard_alphabet (Str.remove_all "=" x).
Proof.
  unfold to_standard_alphabet.
  rewrite !remove_replace_comm by discriminate. reflexivity.
Qed.

Lemma to_standard_alphabet_app (x y : string) :
  to_standard_alphabet (x ++ y) = to_standard_alphabet x ++ to_standard_alphabet y.
Proof. unfold to_standard_alphabet. by rewrite !replace_all_app. Qed.

(** Every padded output is mapped to the same stripped string again. *)
Lemma restrip (x pad : string) :
  Str.remove_all "=" pad = "" -> to_standard_alphabet pad = pad ->
  Str.remove_all "=" (to_standard_alphabet
    (to_standard_alphabet (Str.remove_all "=" x) ++ pad)) =
  to_standard_alphabet (Str.remove_all "=" x).
Proof.
  intros Hpad Hfix.
  set (s := to_standard_alphabet (Str.remove_all "=" x)).
  assert (Hs1 : to_standard_alphabet s = s)
    by apply to_standard_alphabet_idem.
  assert (Hs2 : Str.remove_all "=" s = s).
  { unfold s. rewrite stripped_form, remove_all_idem. reflexivity. }
  rewrite to_standard_alphabet_app, Hs1, Hfix, remove_all_app, Hs2, Hpad.
  apply append_empty_r.
Qed.

Lemma length_app_string (x y : string) :
  String.length (x ++ y) = (String.length x + String.length y)%nat.
Proof.
  induction x as [|c r IH]; [reflexivity|].
  rewrite append_cons. simpl. congruence.
Qed.

Lemma toStandardB64_unfold (x : string) :
  toStandardB64 x =
  let b64 := to_standard_alphabet (Str.remove_all "=" x) in
  match N.of_nat (String.length (Str.remove_all "=" x)) mod 4 with
  | 2 => b64 ++ "=="
  | 3 => b64 ++ "="
  | _ => b64
  end.
Proof.
  unfold toStandardB64.
  fold (to_standard_alphabet x). rewrite stripped_form.
  rewrite to_standard_alphabet_length. reflexivity.
Qed.

Lemma toStandardB64_padded (x pad : string) :
  Str.remove_all "=" pad = "" -> to_standard_alphabet pad = pad ->
  toStandardB64 (to_standard_alphabet (Str.remove_all "=" x) ++ pad) =
  toStandardB64 x.
Proof.
  intros Hpad Hfix. rewrite (toStandardB64_unfold x).
  unfold toStandardB64 at 1.
  fold (to_standard_alphabet
          (to_standard_alphabet (Str.remove_all "=" x) ++ pad)).
  rewrite (restrip x pad Hpad Hfix), to_standard_alphabet_length.
  reflexivity.
Qed.

(** C8. Padding law of [toStandardB64]: with [n] the length of the input once
    its [=] characters are stripped, the output is the stripped input in the
    standard alphabet followed by exactly two pad characters when
    [n mod 4 = 2], by one when [n mod 4 = 3], and by none when [n mod 4] is 0
    or 1; and the conversion is idempotent, also on padded input. *)
Theorem toStandardB64_padding_law (x : string) :
  let b64 := to_standard_alphabet (Str.remove_all "=" x) in
  let n := N.of_nat (String.length (Str.remove_all "=" x)) in
  (n mod 4 = 2 -> toStandardB64 x = b64 ++ "==") /\
  (n mod 4 = 3 -> toStandardB64 x = b64 ++ "=") /\
  (n mod 4 = 0 \/ n mod 4 = 1 -> toStandardB64 x = b64) /\
  toStandardB64 (toStandardB64 x) = toStandardB64 x.
Proof.
  intros b64 n. rewrite (toStandardB64_unfold x). fold b64 n. cbv zeta.
  repeat split.
  - intros ->. reflexivity.
  - intros ->. reflexivity.
  - intros [-> | ->]; reflexivity.
  - assert (Hx : toStandardB64 x =
                 match n mod 4 with
                 | 2 => b64 ++ "=="
                 | 3 => b64 ++ "="
                 | _ => b64
                 end) by apply toStandardB64_unfold.
    destruct (n mod 4) as [|[[|[]|]|[|[]|]|]] eqn:E; subst b64;
      first [ rewrite (toStandardB64_padded x "==") by reflexivity; exact Hx
            | rewrite (toStandardB64_padded x "=") by reflexivity; exact Hx
            | rewrite <- (append_empty_r (to_standard_alphabet _)) at 1;
              rewrite (toStandardB64_padded x "") by reflexivity; exact Hx ].
Qed.

(** The law at the padded input ["-_8-AQ=="]: six characters remain after
    stripping, so two pad characters are appended. *)
Lemma toStandardB64_padding_law_witness :
  AcmeUtils.toStandardB64 "-_8-AQ==" = "+/8+AQ==" /\
  AcmeUtils.toStandardB64 "-_8-A" = "+/8+A" /\
  AcmeUtils.toStandardB64 (AcmeUtils.toStandardB64 "-_8-AQ==") =
  AcmeUtils.toStandardB64 "-_8-AQ==".
Proof.
  pose proof (toStandardB64_padding_law "-_8-AQ==") as (H2 & _ & _ & Hi).
  pose proof (toStandardB64_padding_law "-_8-A") as (_ & _ & H1 & _).
  split; [apply H2; reflexivity|].
  split; [apply H1; right; reflexivity|exact Hi].
Defined.

End PaddingLaw.

(** ** Key validation *)

Section KeyValidation.
Import JS AcmeUtils.

Lemma b64url_char_alphabet (c : ascii) :
  b64url_char c = Str.contains c base64url_alphabet.
Proof. destruct c as [[] [] [] [] [] [] [] []]; reflexivity. Qed.

Lemma isB64String_text (s : string) :
  base64url_text s -> isB64String (VString s) = true.
Proof.
  unfold isB64String. induction s as [|c r IH]; [reflexivity|].
  cbn [base64url_text Str.all_chars]. intros [Hc Hr].
  rewrite b64url_char_alphabet, Hc. by apply IH.
Qed.

(** A name that is neither an index nor [length] is owned by an object when
    it is one of its named properties, whatever the kind of the object. *)
Lemma own_key_named (h : list object) (o : object) (name : string) :
  array_index name = None -> String.eqb name "length" = false ->
  own_key h o name = bool_decide (is_Some (props o !! name)).
Proof.
  intros Hi Hl. unfold own_key, index_below. rewrite Hi, Hl.
  destruct (kind_of o); apply orb_false_r.
Qed.

Lemma hasOwnProperty_named (h : list object) (l : loc) (o : object)
    (name : string) :
  h !! l = Some o ->
  array_index name = None -> String.eqb name "length" = false ->
  hasOwnProperty h (VRef l) name = bool_decide (is_Some (props o !! name)).
Proof.
  intros Hl Hi Hn. unfold hasOwnProperty.
  match goal with
  | |- context [match ?x with Some _ => _ | None => _ end] =>
      replace x with (Some o) by (symmetry; exact Hl)
  end.
  by apply own_key_named.
Qed.

(** The method call through an object that does not own the name. *)
Lemma call_hasOwnProperty_plain (h : list object) (l : loc) (o : object)
    (name : string) :
  h !! l = Some o -> props o !! "hasOwnProperty" = None ->
  call_hasOwnProperty h (VRef l) name = Ok (hasOwnProperty h (VRef l) name).
Proof.
  intros Hl Hs. unfold call_hasOwnProperty.
  rewrite (hasOwnProperty_named h l o "hasOwnProperty" Hl) by reflexivity.
  rewrite Hs. by rewrite bool_decide_eq_false_2 by (intros [? ?]; discriminate).
Qed.

(** The method call through an object that owns the name. *)
Lemma call_hasOwnProperty_shadowed (h : list object) (l : loc) (o : object)
    (name : string) :
  h !! l = Some o -> is_Some (props o !! "hasOwnProperty") ->
  call_hasOwnProperty h (VRef l) name =
    Throw (TypeError "object.hasOwnProperty is not a function").
Proof.
  intros Hl Hs. unfold call_hasOwnProperty.
  rewrite (hasOwnProperty_named h l o "hasOwnProperty" Hl) by reflexivity.
  by rewrite bool_decide_eq_true_2 by exact Hs.
Qed.

Lemma fieldsPresent_shadowed (h : list object) (l : loc) (o : object)
    (fields : list string) :
  h !! l = Some o -> is_Some (props o !! "hasOwnProperty") -> fields <> [] ->
  fieldsPresent h fields (VRef l) =
    Throw (TypeError "object.hasOwnProperty is not a function").
Proof.
  intros Hl Hs Hne. unfold fieldsPresent. cbn [truthy typeof negb orb].
  destruct fields as [|f fields]; [done|]. cbn [every].
  by rewrite (call_hasOwnProperty_shadowed h l o f Hl Hs).
Qed.

Lemma fieldsPresent_kty (h : list object) (l : loc) (o : object) (v : value) :
  h !! l = Some o -> props o !! "hasOwnProperty" = None ->
  props o !! "kty" = Some v ->
  fieldsPresent h ["kty"] (VRef l) = Ok true.
Proof.
  intros Hl Hs Hk. unfold fieldsPresent. cbn [truthy typeof negb orb every].
  rewrite (call_hasOwnProperty_plain h l o _ Hl Hs).
  rewrite (hasOwnProperty_named h l o "kty" Hl) by reflexivity.
  rewrite Hk. by rewrite bool_decide_eq_true_2 by eauto.
Qed.

Lemma has_property_d (h : list object) (l : loc) (o : object) :
  h !! l = Some o ->
  has_property h (VRef l) "d" = bool_decide (is_Some (props o !! "d")).
Proof.
  intros Hl. unfold has_property. by apply hasOwnProperty_named.
Qed.

(** What [validJWK] does on an object that owns no field named
    [hasOwnProperty]: it returns false when the object carries a [d] field,
    whatever its other fields; it returns true for an object without [d]
    whose [kty] is "RSA" and whose [n] and [e] are base64url strings, and for
    an object without [d] whose [kty] is "EC", whose [crv] is a string and
    whose [x] and [y] are base64url strings. *)
Lemma validJWK_law (h : list object) (l : loc) (o : object) :
  h !! l = Some o -> props o !! "hasOwnProperty" = None ->
  (is_Some (props o !! "d") -> validJWK h (VRef l) = Ok false) /\
  (forall n e : string,
     props o !! "d" = None ->
     props o !! "kty" = Some (VString "RSA") ->
     props o !! "n" = Some (VString n) -> props o !! "e" = Some (VString e) ->
     base64url_text n -> base64url_text e ->
     validJWK h (VRef l) = Ok true) /\
  (forall crv x y : string,
     props o !! "d" = None ->
     props o !! "kty" = Some (VString "EC") ->
     props o !! "crv" = Some (VString crv) ->
     props o !! "x" = Some (VString x) -> props o !! "y" = Some (VString y) ->
     base64url_text x -> base64url_text y ->
     validJWK h (VRef l) = Ok true).
Proof.
  intros Hl Hs. repeat split.
  - intros Hd. unfold validJWK.
    assert (Hf : exists b, fieldsPresent h ["kty"] (VRef l) = Ok b).
    { unfold fieldsPresent. cbn [truthy typeof negb orb every].
      rewrite (call_hasOwnProperty_plain h l o _ Hl Hs).
      destruct (hasOwnProperty h (VRef l) "kty"); eauto. }
    destruct Hf as [b ->].
    rewrite (has_property_d h l o Hl), bool_decide_eq_true_2 by assumption.
    by rewrite orb_true_r.
  - intros n e Hd Hkty Hn He Tn Te. unfold validJWK.
    rewrite (fieldsPresent_kty h l o _ Hl Hs Hkty), (has_property_d h l o Hl), Hd.
    rewrite bool_decide_eq_false_2 by (intros [? ?]; discriminate).
    unfold prop. rewrite Hl, Hkty, Hn, He. simpl default.
    cbn [negb orb String.eqb Ascii.eqb Bool.eqb].
    by rewrite !isB64String_text.
  - intros crv x y Hd Hkty Hcrv Hx Hy Tx Ty. unfold validJWK.
    rewrite (fieldsPresent_kty h l o _ Hl Hs Hkty), (has_property_d h l o Hl), Hd.
    rewrite bool_decide_eq_false_2 by (intros [? ?]; discriminate).
    unfold prop. rewrite Hl, Hkty, Hcrv, Hx, Hy. simpl default.
    cbn [negb orb andb typeof String.eqb Ascii.eqb Bool.eqb].
    by rewrite !isB64String_text.
Qed.

(** The law on a heap holding a private RSA key, a public RSA key and a
    public EC key. *)
Example validJWK_samples :
  validJWK [rsa_private; rsa_public; ec_public] (VRef 0) = Ok false /\
  validJWK [rsa_private; rsa_public; ec_public] (VRef 1) = Ok true /\
  validJWK [rsa_private; rsa_public; ec_public] (VRef 2) = Ok true.
Proof. vm_compute. repeat split. Qed.

(** An array owns its [length] and its indices, so that [fieldsPresent]
    finds them. *)
Example fieldsPresent_array_keys :
  fieldsPresent [Object (Array []) ∅ None None] ["length"] (VRef 0) = Ok true /\
  fieldsPresent [Object (Array [VString "a"]) ∅ None None] ["0"] (VRef 0)
    = Ok true /\
  fieldsPresent [Object (Array [VString "a"]) ∅ None None] ["1"] (VRef 0)
    = Ok false /\
  fieldsPresent [Object (Array [VString "a"]) ∅ None None] ["00"] (VRef 0)
    = Ok false.
Proof. vm_compute. repeat split. Qed.

(** C6, the failing input.  A key object that owns a field named
    [hasOwnProperty], as a JSON text can give it, makes [fieldsPresent] call
    that field instead of the built-in method: a [TypeError] leaves
    [validJWK] before the [d] field is looked at.  So the key that carries
    [d] is not answered with false, and the public key with base64url [n] and
    [e] is not answered with true. *)
Theorem validJWK_throws_on_own_hasOwnProperty :
  (exists msg,
     validJWK [shadowing_private; shadowing_public] (VRef 0) =
       Throw (TypeError msg)) /\
  (exists msg,
     validJWK [shadowing_private; shadowing_public] (VRef 1) =
       Throw (TypeError msg)) /\
  is_Some (props shadowing_private !! "d") /\
  props shadowing_public !! "d" = None /\
  props shadowing_public !! "kty" = Some (VString "RSA") /\
  props shadowing_public !! "n" = Some (VString "AQAB-_") /\
  props shadowing_public !! "e" = Some (VString "AQAB") /\
  base64url_text "AQAB-_" /\ base64url_text "AQAB".
Proof.
  split; [eexists; vm_compute; reflexivity|].
  split; [eexists; vm_compute; reflexivity|].
  split; [by eexists|]. repeat split.
Qed.

End KeyValidation.

Section LinkSamples.
Import JS Link.

Example parseLink_sample :
  _parseLink (VString sample_header)
  = Some (<["test2" := VString "foo"]> (<["test" := VString "testing"]> ∅)).
Proof. vm_compute. reflexivity. Qed.

Example parseLink_last_wins :
  _parseLink (VString ("<a>; rel=" ++ dq ++ "x" ++ dq ++ ", <b>; rel=" ++ dq ++ "x" ++ dq))
  = Some (<["x" := VString "b"]> ∅).
Proof. vm_compute. reflexivity. Qed.

End LinkSamples.

(** ** The workflow operations and the caller's objects *)

Section Operations.
Import JS Protocol.

Lemma lookup_spawned (js : list job) (j : job) :
  (js ++ [j])%list !! List.length js = Some j.
Proof. by apply list_lookup_middle. Qed.

Lemma insert_spawned (js : list job) (j j' : job) :
  <[List.length js := j']> (js ++ [j])%list = (js ++ [j'])%list.
Proof.
  replace (List.length js) with (List.length js + 0)%nat by lia.
  by rewrite insert_app_r.
Qed.

Lemma append_assoc (a b c : string) : (a ++ b) ++ c = a ++ b ++ c.
Proof.
  induction a as [|x a IH]; [reflexivity|].
  by rewrite !append_cons, IH.
Qed.

Lemma to_string_VString (h : list object) (s : string) :
  to_string h (VString s) = s.
Proof. reflexivity. Qed.

(** Writing one property leaves the others as they were, through any
    reference. *)
Lemma prop_after_set (h : list object) (l : loc) (o : object)
    (name name' : string) (x v : value) :
  h !! l = Some o -> name <> name' ->
  prop (<[l := with_props (<[name := x]> (props o)) o]> h) v name' =
  prop h v name'.
Proof.
  intros Hl Hne. destruct v as [| | | |l']; try reflexivity. simpl.
  destruct (decide (l = l')) as [<-|Hll].
  - rewrite list_lookup_insert_eq by (by eapply lookup_lt_Some).
    rewrite Hl. simpl. by rewrite lookup_insert_ne.
  - by rewrite list_lookup_insert_ne.
Qed.

Lemma set_ref (h : list object) (l : loc) (o : object) (name : string)
    (x : value) :
  h !! l = Some o ->
  set h (VRef l) name x = Ok (<[l := with_props (<[name := x]> (props o)) o]> h).
Proof. intros Hl. unfold set. by rewrite Hl. Qed.

Lemma get_truthy (h : list object) (v : value) (name : string) :
  truthy v = true -> get h v name = Ok (prop h v name).
Proof. by destruct v. Qed.

(** What [_post] does before it returns. *)
Lemma _post_sync (uri body : value) (binary : bool) (w : world) :
  exists w' j,
    _post uri body binary w = (w', j) /\
    heap w' = heap w /\ jobs w' = jobs w /\ privateKey w' = privateKey w /\
    AGENT w' = AGENT w /\ signed w' = signed w /\
    dirPromise w' = dirPromise w /\
    ((exists nonce, j = NonceReady nonce uri body binary /\ sent w' = sent w) \/
     (j = NonceProbe uri body binary /\
      sent w' = (sent w ++ [Request HEAD uri true true (AGENT w) NoBody])%list)).
Proof.
  unfold _post, _nonce.
  destruct (shift (nonces w)) as [nonce rest].
  destruct (truthy nonce); eexists _, _; (split; [reflexivity|]);
    repeat (split; [reflexivity|]); [left|right]; eauto.
Qed.

Lemma prop_own (h : list object) (l : loc) (o : object) (name : string)
    (v : value) :
  h !! l = Some o -> props o !! name = Some v -> prop h (VRef l) name = v.
Proof. intros Hl Hn. simpl. by rewrite Hl, Hn. Qed.

(** [respondToChallenge] on a challenge object that has a [uri]: the object
    is tagged where it is, and [_post] is called with the same reference. *)
Lemma respondToChallenge_sync (w : world) (l : loc) (o : object) (uri : value) :
  heap w !! l = Some o ->
  props o !! "uri" = Some uri -> truthy uri = true ->
  truthy (privateKey w) = true ->
  let tagged := with_props (<["resource" := VString "challenge"]> (props o)) o in
  let h1 := <[l := tagged]> (heap w) in
  let ka :=
    concat h1 (concat h1 (prop (heap w) (VRef l) "token") (VString "."))
           (prop (heap w) (privateKey w) "thumbprint") in
  let h2 :=
    <[l := with_props (<["keyAuthorization" := ka]> (props tagged)) o]> (heap w) in
  respondToChallenge (VRef l) w =
    (let '(w1, j) := _post uri (VRef l) false (set_heap h2 w) in
     let '(p, w2) := spawn j w1 in (w2, Returned p)).
Proof.
  intros Hl Hu Ht Hk tagged h1 ka h2.
  assert (Hlt : (l < List.length (heap w))%nat) by (by eapply lookup_lt_Some).
  assert (Hl1 : h1 !! l = Some tagged)
    by (unfold h1; by rewrite list_lookup_insert_eq).
  unfold respondToChallenge.
  rewrite (get_truthy (heap w) (VRef l)) by reflexivity.
  rewrite (prop_own _ _ _ _ _ Hl Hu), Ht. cbn [negb].
  rewrite (set_ref _ _ _ _ _ Hl). fold tagged. fold h1.
  rewrite (get_truthy h1 (privateKey w)) by assumption.
  assert (Hsame : forall v name, "resource" <> name ->
            prop h1 v name = prop (heap w) v name)
    by (intros v name Hne; by apply prop_after_set).
  rewrite !Hsame by discriminate. fold ka.
  rewrite (set_ref h1 l tagged _ _ Hl1).
  assert (Hh2 : <[l := with_props (<["keyAuthorization" := ka]> (props tagged))
                        tagged]> h1 = h2).
  { unfold h1, h2. by rewrite list_insert_insert_eq. }
  rewrite Hh2.
  assert (Huri : prop h2 (VRef l) "uri" = uri).
  { unfold h2. simpl. rewrite list_lookup_insert_eq by assumption. simpl.
    rewrite !lookup_insert_ne by discriminate. by rewrite Hu. }
  by rewrite Huri.
Qed.




(** The promise chain of [_post], run without interruption from the moment
    [_post] has returned: the probe's response (ignored when the pool has
    served the nonce), the signing callback, the envelope. *)
Lemma post_chain (w : world) (uri body : value) (resp : response)
    (jws : value) :
  truthy (header resp "replay-nonce") = true ->
  let '(w1, j) := _post uri body false w in
  let '(p, w2) := spawn j w1 in
  let w3 := run [Reply p (Fulfilled resp); Tick p; Signed p (Fulfilled jws)] w2 in
  exists nonce,
    signed w3 =
      (signed w ++
       [SignCall (privateKey w) nonce body
          (match body with VRef l => heap w !! l | _ => None end)])%list /\
    last (sent w3) = Some (Request POST uri true true (AGENT w) (JsonBody jws)) /\
    heap w3 = heap w.
Proof.
  intros Hn. unfold _post, _nonce.
  destruct (shift (nonces w)) as [n rest].
  destruct (truthy n) eqn:Htn.
  - unfold spawn, run. simpl.
    unfold do_reply. simpl. rewrite lookup_spawned.
    unfold do_tick. simpl. rewrite lookup_spawned.
    unfold on_nonce, set_job. simpl. rewrite insert_spawned.
    unfold do_signed. simpl. rewrite lookup_spawned.
    unfold on_signed, set_job, dispatch. simpl.
    exists n. split; [reflexivity|]. split; [apply last_snoc|reflexivity].
  - unfold spawn, run. simpl.
    unfold do_reply. simpl. rewrite lookup_spawned.
    unfold on_probe_response. rewrite Hn.
    unfold set_job. simpl. rewrite insert_spawned.
    unfold do_tick. simpl. rewrite lookup_spawned.
    unfold on_nonce, set_job. simpl. rewrite insert_spawned.
    unfold do_signed. simpl. rewrite lookup_spawned.
    unfold on_signed, set_job, dispatch. simpl.
    eexists. split; [reflexivity|]. split; [apply last_snoc|reflexivity].
Qed.

Lemma respondToChallenge_without_uri (w : world) (challenge : value) :
  truthy (prop (heap w) challenge "uri") = false ->
  exists msg, respondToChallenge challenge w = (w, Threw (TypeError msg)).
Proof.
  intros Hu. unfold respondToChallenge, get.
  destruct challenge; try (eexists; reflexivity); rewrite Hu; by eexists.
Qed.

(** C5. For every challenge object with a (truthy) [uri] and a string
    [token], with a client whose key thumbprint is a string,
    [respondToChallenge] tags the object as a challenge response and gives it
    the [keyAuthorization] made of the token, then ".", then the thumbprint;
    that object is the payload handed to the signing collaborator, and the
    envelope it returns is posted to the challenge's [uri].  A challenge
    without a [uri] makes it throw a [TypeError] and leaves the client as it
    was: nothing is sent. *)
Theorem respondToChallenge_keyAuthorization (w : world) :
  (forall (l : loc) (o : object) (uri : value) (T K : string),
     heap w !! l = Some o ->
     props o !! "uri" = Some uri -> truthy uri = true ->
     props o !! "token" = Some (VString T) ->
     truthy (privateKey w) = true ->
     prop (heap w) (privateKey w) "thumbprint" = VString K ->
     let payload :=
       with_props (<["keyAuthorization" := VString (T ++ "." ++ K)]>
                     (<["resource" := VString "challenge"]> (props o))) o in
     exists w1 p,
       respondToChallenge (VRef l) w = (w1, Returned p) /\
       heap w1 !! l = Some payload /\
       forall resp jws,
         truthy (header resp "replay-nonce") = true ->
         let w2 :=
           run [Reply p (Fulfilled resp); Tick p; Signed p (Fulfilled jws)] w1 in
         exists nonce,
           signed w2 =
             (signed w ++
              [SignCall (privateKey w) nonce (VRef l) (Some payload)])%list /\
           last (sent w2) =
             Some (Request POST uri true true (AGENT w) (JsonBody jws))) /\
  (forall challenge,
     truthy (prop (heap w) challenge "uri") = false ->
     exists msg, respondToChallenge challenge w = (w, Threw (TypeError msg))).
Proof.
  split; [|apply respondToChallenge_without_uri].
  intros l o uri T K Hl Hu Ht Htok Hk Hthumb payload.
  assert (Hlt : (l < List.length (heap w))%nat) by (by eapply lookup_lt_Some).
  rewrite (respondToChallenge_sync w l o uri Hl Hu Ht Hk).
  rewrite (prop_own _ _ _ _ _ Hl Htok), Hthumb.
  unfold concat. rewrite !to_string_VString, append_assoc.
  cbn [props with_props]. fold payload.
  set (w' := set_heap (<[l := payload]> (heap w)) w).
  assert (Hchain := fun resp jws => post_chain w' uri (VRef l) resp jws).
  destruct (_post uri (VRef l) false w') as [w1 j] eqn:Hpost.
  destruct (_post_sync uri (VRef l) false w')
    as (w1' & j' & Hp' & Hh & Hj & _).
  rewrite Hpost in Hp'. injection Hp' as <- <-.
  destruct (spawn j w1) as [p w2] eqn:Hspawn.
  exists w2, p. split; [reflexivity|]. split.
  - unfold spawn in Hspawn. injection Hspawn as <- <-. simpl.
    rewrite Hh. unfold w'. simpl. by rewrite list_lookup_insert_eq.
  - intros resp jws Hn. destruct (Hchain resp jws Hn) as (nonce & Hs & Hsent & _).
    exists nonce. split; [|exact Hsent].
    rewrite Hs. unfold w'. simpl. by rewrite list_lookup_insert_eq.
Qed.

End Operations.

(** ** Runs of the client *)

Section Runs.
Import JS Protocol.

Ltac open_step :=
  unfold step, do_call, do_tick, do_signed, do_reply, newRegistration,
    updateRegistration, respondToChallenge, directory, on_directory_newReg,
    _post, _nonce, on_nonce, on_signed, on_post_response,
    on_directory_response, on_probe_response, new_Buffer, receive, deposit,
    spawn, set_job, dispatch, alloc in *.

Ltac split_step := open_step; repeat case_match; simplify_eq; simpl in *.

Lemma exec_app (es1 es2 : list event) (w : world) :
  exec (es1 ++ es2) w =
  let '(w1, l1) := exec es1 w in
  let '(w2, l2) := exec es2 w1 in (w2, (l1 ++ l2)%list).
Proof.
  revert w. induction es1 as [|e es1 IH]; intros w; simpl.
  - by destruct (exec es2 w).
  - destruct (step e w) as [w1 a]. rewrite IH.
    destruct (exec es1 w1) as [w2 l1]. by destruct (exec es2 w2).
Qed.

Lemma run_app (es1 es2 : list event) (w : world) :
  run (es1 ++ es2) w = run es2 (run es1 w).
Proof.
  unfold run. rewrite exec_app.
  destruct (exec es1 w) as [w1 l1]. simpl. by destruct (exec es2 w1).
Qed.

Lemma run_cons (e : event) (es : list event) (w : world) :
  run (e :: es) w = run es (fst (step e w)).
Proof.
  unfold run. simpl. destruct (step e w) as [w1 a]. simpl.
  by destruct (exec es w1).
Qed.

(** A property kept by every step holds all along a run. *)
Lemma run_invariant (P : world -> Prop) :
  (forall e w, P w -> P (fst (step e w))) ->
  forall es w, P w -> P (run es w).
Proof.
  intros Hstep es. induction es as [|e es IH]; intros w Hw; [exact Hw|].
  rewrite run_cons. apply IH, Hstep, Hw.
Qed.

Lemma step_pool_truthy (e : event) (w : world) :
  pool_truthy w -> pool_truthy (fst (step e w)).
Proof.
  unfold pool_truthy. intros Hw. destruct e as [c|p|p o|p o].
  - destruct c; split_step; try assumption;
      repeat match goal with
      | H : shift ?l = _ |- _ => destruct l; simpl in H; simplify_eq
      end;
      try assumption; try constructor;
      try (by inversion Hw).
  - split_step; try assumption;
      repeat match goal with
      | H : shift ?l = _ |- _ => destruct l; simpl in H; simplify_eq
      end;
      try assumption; try constructor; try (by inversion Hw).
  - split_step; assumption.
  - split_step; try assumption;
      try (apply Forall_app; split; [assumption|by repeat constructor]).
Qed.

Lemma fetches_dispatch (r : request) (w : world) :
  directory_fetches (dispatch r w) =
  (directory_fetches w + (if is_directory_fetch r then 1 else 0))%nat.
Proof.
  unfold directory_fetches, dispatch. simpl.
  rewrite List.filter_app, List.length_app. simpl.
  by destruct (is_directory_fetch r).
Qed.

Ltac fetches :=
  unfold directory_fetches in *; simpl in *;
  rewrite ?List.filter_app, ?List.length_app in *; simpl in *.

(** Once set, [this.dirPromise] is never assigned again. *)
Lemma step_dirPromise_stable (e : event) (w : world) (p : pid) :
  dirPromise w = Some p -> dirPromise (fst (step e w)) = Some p.
Proof.
  intros Hp. destruct e as [c|q|q o|q o]; [destruct c|..];
    split_step; congruence.
Qed.

(** With the promise set, no step fetches the directory. *)
Lemma step_fetches_stable (e : event) (w : world) (p : pid) :
  dirPromise w = Some p ->
  directory_fetches (fst (step e w)) = directory_fetches w.
Proof.
  intros Hp. destruct e as [c|q|q o|q o]; [destruct c|..];
    split_step; try congruence; fetches; lia.
Qed.

Lemma step_jobs_grow (e : event) (w : world) :
  (List.length (jobs w) <= List.length (jobs (fst (step e w))))%nat.
Proof.
  destruct e as [c|q|q o|q o]; [destruct c|..];
    split_step; rewrite ?List.length_app, ?length_insert; simpl; lia.
Qed.

Lemma step_directory_consistent (e : event) (w : world) :
  directory_consistent w -> directory_consistent (fst (step e w)).
Proof.
  unfold directory_consistent. intros Hw.
  destruct (dirPromise w) as [p|] eqn:Hp.
  - rewrite (step_dirPromise_stable e w p Hp), (step_fetches_stable e w p Hp).
    pose proof (step_jobs_grow e w). lia.
  - destruct e as [c|q|q o|q o]; [destruct c|..];
      split_step; try congruence; rewrite ?Hp; fetches;
      rewrite ?List.length_app, ?length_insert; simpl; simplify_eq; lia.
Qed.

(** A settled promise keeps its outcome. *)
Lemma step_settled_stable (e : event) (w : world) (p : pid) (o : outcome value) :
  jobs w !! p = Some (Settled o) ->
  jobs (fst (step e w)) !! p = Some (Settled o).
Proof.
  intros Hp. pose proof (lookup_lt_Some _ _ _ Hp) as Hlt.
  destruct e as [c|q|q r|q r]; [destruct c|..];
    split_step; try assumption;
    repeat match goal with
    | |- (_ ++ _)%list !! p = _ => rewrite lookup_app_l
    | |- context [List.length (_ ++ _)%list] => rewrite List.length_app
    | |- <[?q := _]> _ !! p = _ =>
        rewrite list_lookup_insert_ne by (intros ->; congruence)
    end;
    simpl; try assumption; try lia.
Qed.

(** [directory()] returns [this.dirPromise]. *)
Lemma directory_returns (w : world) :
  exists p, step (Call Directory) w = (fst (step (Call Directory) w), Returned p) /\
       dirPromise (fst (step (Call Directory) w)) = Some p.
Proof.
  simpl. unfold directory. destruct (dirPromise w) as [p|] eqn:Hp; simpl.
  - by exists p.
  - by eexists.
Qed.

(** Along a run the promise stays, and every [directory()] call has returned
    the promise the client holds at the end. *)
Lemma exec_directory (es : list event) (w0 w : world) (rs : list reply) :
  exec es w0 = (w, rs) ->
  (forall p, dirPromise w0 = Some p -> dirPromise w = Some p) /\
  (forall i, es !! i = Some (Call Directory) ->
     exists p, rs !! i = Some (Returned p) /\ dirPromise w = Some p).
Proof.
  revert w0 w rs. induction es as [|e es IH]; intros w0 w rs Hex; simpl in Hex.
  - simplify_eq. split; [auto|]. intros i Hi. by rewrite lookup_nil in Hi.
  - destruct (step e w0) as [w1 a] eqn:Hstep.
    destruct (exec es w1) as [w2 l] eqn:Hrest. simplify_eq.
    destruct (IH _ _ _ Hrest) as [Hstable Hcalls]. split.
    + intros p Hp. apply Hstable.
      pose proof (step_dirPromise_stable e w0 p Hp) as H1.
      by rewrite Hstep in H1.
    + intros [|i] Hi; simpl in Hi.
      * simplify_eq.
        destruct (directory_returns w0) as (p & Hret & Hprom).
        rewrite Hstep in Hret, Hprom. simpl in Hret, Hprom. simplify_eq.
        exists p. split; [reflexivity|]. by apply Hstable.
      * apply (Hcalls i Hi).
Qed.

Lemma constructor_consistent (homepage : string) (h : list object)
    (key uri : value) (w0 : world) :
  constructor homepage h key uri = Ok w0 ->
  directory_consistent w0 /\ pool_truthy w0.
Proof.
  unfold constructor. destruct (truthy key); [|discriminate].
  intros [= <-]. split; [reflexivity|constructor].
Qed.

Lemma reachable_consistent (w : world) :
  reachable w -> directory_consistent w /\ pool_truthy w.
Proof.
  intros (homepage & h & key & uri & w0 & es & Hc & <-).
  destruct (constructor_consistent _ _ _ _ _ Hc) as [Hd Hp]. split.
  - by apply (run_invariant _ step_directory_consistent).
  - by apply (run_invariant _ step_pool_truthy).
Qed.

End Runs.

(** ** The memoized directory *)

Section DirectoryMemo.
Import JS Protocol.

(** C2. Directory resolution is memoized.  For a client just constructed and
    any sequence of events: at most one directory fetch is ever dispatched;
    every [directory()] call of the run, made before or after the fetch has
    completed, has returned one and the same promise, the one the client
    holds, and then exactly one fetch has been dispatched.  In every world a
    [directory()] call made while the promise is unset dispatches the one
    fetch, and a call made once it is set returns it and changes nothing;
    and a promise that has settled keeps its outcome, so that every holder of
    the promise observes the same result. *)
Theorem directory_memoized (homepage : string) (h : list object)
    (key uri : value) (w0 : world) (es : list event) :
  constructor homepage h key uri = Ok w0 ->
  (directory_fetches (run es w0) <= 1)%nat /\
  (forall i, es !! i = Some (Call Directory) ->
     exists p, snd (exec es w0) !! i = Some (Returned p) /\
          dirPromise (run es w0) = Some p /\
          directory_fetches (run es w0) = 1%nat) /\
  (forall w, dirPromise w = None ->
     exists p, snd (step (Call Directory) w) = Returned p /\
          dirPromise (fst (step (Call Directory) w)) = Some p /\
          sent (fst (step (Call Directory) w)) =
            (sent w ++ [Request GET (directoryURI w) true true (AGENT w) NoBody])%list) /\
  (forall w p, dirPromise w = Some p ->
     step (Call Directory) w = (w, Returned p)) /\
  (forall w p o es', jobs w !! p = Some (Settled o) ->
     jobs (run es' w) !! p = Some (Settled o)).
Proof.
  intros Hc.
  destruct (constructor_consistent _ _ _ _ _ Hc) as [Hd0 _].
  assert (Hd : directory_consistent (run es w0))
    by (by apply (run_invariant _ step_directory_consistent)).
  unfold directory_consistent in Hd.
  split; [destruct (dirPromise (run es w0)); lia|].
  split; [|split; [|split]].
  - intros i Hi. unfold run in *.
    destruct (exec es w0) as [w rs] eqn:Hex. simpl in *.
    destruct (exec_directory es w0 w rs Hex) as [_ Hcalls].
    destruct (Hcalls i Hi) as (p & Hr & Hp).
    exists p. rewrite Hp in Hd. by destruct Hd.
  - intros w Hw. simpl. unfold directory. rewrite Hw. simpl.
    by eexists.
  - intros w p Hw. simpl. unfold directory. by rewrite Hw.
  - intros w p o es' Hs.
    apply (run_invariant (fun w' => jobs w' !! p = Some (Settled o)));
      [|exact Hs].
    intros e w' Hw'. by apply step_settled_stable.
Qed.

(** Two calls before the fetch completes and one after it: one fetch, one
    promise. *)
Lemma directory_memoized_witness :
  let es := [Call Directory; Call Directory;
             Reply 0 (Fulfilled directory_response); Call Directory] in
  snd (exec es fresh_client) = [Returned 0; Returned 0; Silent; Returned 0] /\
  directory_fetches (run es fresh_client) = 1%nat.
Proof.
  pose proof (directory_memoized "https://github.com/isaackwan/node-acme" []
                (VString "key") VUndefined fresh_client
                [Call Directory; Call Directory;
                 Reply 0 (Fulfilled directory_response); Call Directory]
                eq_refl) as (_ & Hcalls & _).
  destruct (Hcalls 3%nat eq_refl) as (p & _ & _ & Hone).
  split; [vm_compute; reflexivity|exact Hone].
Defined.

(** C3, counterexample.  A new client calls [directory()], the fetch fails,
    and [directory()] is called again: the second call returns the rejected
    promise and no fetch is dispatched. *)
Lemma failed_directory_is_retried_counterexample :
  ~ failed_directory_is_retried.
Proof.
  intros Hclaim.
  specialize (Hclaim
    (run [Call Directory; Reply 0 (Rejected refused)] fresh_client) 0%nat refused).
  assert (Hreach : reachable
            (run [Call Directory; Reply 0 (Rejected refused)] fresh_client)).
  { exists "https://github.com/isaackwan/node-acme", [], (VString "key"),
      VUndefined, fresh_client,
      [Call Directory; Reply 0 (Rejected refused)].
    split; reflexivity. }
  specialize (Hclaim Hreach eq_refl eq_refl).
  vm_compute in Hclaim. discriminate.
Qed.

Example failed_directory_second_call :
  let w := run [Call Directory; Reply 0 (Rejected refused)] fresh_client in
  step (Call Directory) w = (w, Returned 0%nat) /\
  jobs w !! 0%nat = Some (Settled (Rejected refused)) /\
  directory_fetches w = 1%nat.
Proof. vm_compute. repeat split. Qed.

(** C3, amended.  When the directory fetch fails, the promise held by every
    caller is rejected with the error of the transport, unchanged; whatever
    happens next it stays rejected with that error, and every later
    [directory()] call returns this same promise without dispatching a
    request: the failed resolution is cached and never retried. *)
Theorem failed_directory_stays_cached (w : world) (p : pid) (e : error)
    (es : list event) :
  dirPromise w = Some p -> jobs w !! p = Some DirFetch ->
  let w1 := fst (step (Reply p (Rejected e)) w) in
  let w2 := run es w1 in
  jobs w1 !! p = Some (Settled (Rejected e)) /\
  jobs w2 !! p = Some (Settled (Rejected e)) /\
  step (Call Directory) w2 = (w2, Returned p) /\
  directory_fetches (fst (step (Call Directory) w2)) = directory_fetches w.
Proof.
  intros Hp Hj w1 w2.
  assert (H1 : jobs w1 !! p = Some (Settled (Rejected e))).
  { unfold w1. simpl. unfold do_reply. rewrite Hj. unfold set_job. simpl.
    apply list_lookup_insert_eq. by eapply lookup_lt_Some. }
  assert (Hkeep : dirPromise w2 = Some p /\
                  jobs w2 !! p = Some (Settled (Rejected e)) /\
                  directory_fetches w2 = directory_fetches w).
  { apply (run_invariant
             (fun w' => dirPromise w' = Some p /\
                        jobs w' !! p = Some (Settled (Rejected e)) /\
                        directory_fetches w' = directory_fetches w)).
    - intros ev w' (Hd & Hs & Hf). split; [|split].
      + by apply step_dirPromise_stable.
      + by apply step_settled_stable.
      + by rewrite (step_fetches_stable ev w' p Hd).
    - split; [|split; [exact H1|]].
      + unfold w1. by apply step_dirPromise_stable.
      + unfold w1. by rewrite (step_fetches_stable _ w p Hp). }
  destruct Hkeep as (Hd & Hs & Hf).
  assert (Hcall : step (Call Directory) w2 = (w2, Returned p))
    by (simpl; unfold directory; by rewrite Hd).
  split; [exact H1|]. split; [exact Hs|]. split; [exact Hcall|].
  by rewrite Hcall.
Qed.

Lemma failed_directory_stays_cached_witness :
  let w := run [Call Directory] fresh_client in
  let w2 := run [Call Directory] (fst (step (Reply 0 (Rejected refused)) w)) in
  jobs w2 !! 0%nat = Some (Settled (Rejected refused)) /\
  step (Call Directory) w2 = (w2, Returned 0%nat).
Proof.
  pose proof (failed_directory_stays_cached (run [Call Directory] fresh_client)
                0%nat refused [Call Directory] eq_refl eq_refl)
    as (_ & Hs & Hc & _).
  split; [exact Hs|exact Hc].
Defined.

End DirectoryMemo.

(** ** The nonce pool *)

Section NoncePool.
Import JS Protocol.

(** C1, counterexample.  The authority sends the same token twice; both
    copies are deposited and two successive takes return it, with no deposit
    between them. *)
Lemma nonce_never_reissued_counterexample : ~ nonce_never_reissued.
Proof.
  intros Hclaim.
  destruct (Hclaim [Deposit (VString "n1"); Deposit (VString "n1");
                    Take (VString "u"); Take (VString "u")]
              2%nat 3%nat (VString "n1")) as (k & Hk & _);
    [lia|reflexivity|reflexivity|lia].
Qed.

Lemma pool_step_absent (op : pool_op) (w : world) (t : value) :
  t ∉ nonces w -> op <> Deposit t ->
  (t ∉ nonces (fst (pool_step op w))) /\ (snd (pool_step op w) <> Some t).
Proof.
  intros Ht Hop. destruct op as [uri|n]; simpl.
  - unfold _nonce. destruct (nonces w) as [|x rest] eqn:Hn; simpl.
    + split; [apply not_elem_of_nil|discriminate].
    + apply not_elem_of_cons in Ht as [Hx Hrest].
      destruct (truthy x); simpl; (split; [assumption|congruence]).
  - split; [|discriminate]. unfold deposit.
    destruct (truthy n); [|assumption].
    rewrite elem_of_app, list_elem_of_singleton. intros [? | ->]; [done|].
    by apply Hop.
Qed.

Lemma pool_run_absent (ops : list pool_op) (w : world) (t : value) :
  t ∉ nonces w -> Deposit t ∉ ops ->
  forall r, r ∈ snd (pool_run ops w) -> r <> Some t.
Proof.
  revert w. induction ops as [|op ops IH]; intros w Ht Hops r Hr; simpl in Hr.
  - by apply elem_of_nil in Hr.
  - apply not_elem_of_cons in Hops as [Hop Hops].
    destruct (pool_step_absent op w t Ht (not_eq_sym Hop)) as [Ht1 Ha].
    destruct (pool_step op w) as [w1 a]. simpl in Ht1, Ha.
    destruct (pool_run ops w1) as [w2 l] eqn:Hrun. simpl in Hr.
    apply elem_of_cons in Hr as [->|Hr]; [exact Ha|].
    apply (IH w1 Ht1 Hops). by rewrite Hrun.
Qed.

(** C1, amended.  A take on a non-empty pool (whose tokens are truthy, as
    every deposited token is) returns the first token and removes exactly
    that entry, and sends nothing.  A token returned by a take is not
    returned by any later take served from the pool, provided the pool held
    no second copy of it and it is not deposited again in between. *)
Theorem nonce_taken_once (w : world) (uri : value) :
  (forall n rest,
     pool_truthy w -> nonces w = n :: rest ->
     _nonce uri w = (set_nonces rest w, Some n)) /\
  (forall t w1 ops,
     _nonce uri w = (w1, Some t) ->
     nonces w = t :: nonces w1 /\ sent w1 = sent w /\
     (t ∉ nonces w1 -> Deposit t ∉ ops ->
      forall r, r ∈ snd (pool_run ops w1) -> r <> Some t)).
Proof.
  split.
  - intros n rest Hw Hn. unfold _nonce. rewrite Hn. simpl.
    unfold pool_truthy in Hw. rewrite Hn in Hw.
    apply Forall_cons in Hw as [-> _]. reflexivity.
  - intros t w1 ops Htake. unfold _nonce in Htake.
    destruct (nonces w) as [|x rest] eqn:Hn; simpl in Htake; [discriminate|].
    destruct (truthy x); [|discriminate].
    injection Htake as <- <-. simpl.
    split; [reflexivity|]. split; [reflexivity|].
    intros Ht Hops. by apply pool_run_absent.
Qed.

Lemma nonce_taken_once_witness :
  _nonce (VString "u") (pool_of [VString "n1"; VString "n2"]) =
    (pool_of [VString "n2"], Some (VString "n1")) /\
  forall r,
    r ∈ snd (pool_run [Take (VString "u"); Deposit (VString "n3");
                       Take (VString "u"); Take (VString "u")]
               (pool_of [VString "n2"])) ->
    r <> Some (VString "n1").
Proof.
  destruct (nonce_taken_once (pool_of [VString "n1"; VString "n2"])
              (VString "u")) as [Hhead Honce].
  split.
  - apply (Hhead (VString "n1") [VString "n2"]); [|reflexivity].
    repeat constructor.
  - destruct (Honce (VString "n1") (pool_of [VString "n2"])
                [Take (VString "u"); Deposit (VString "n3");
                 Take (VString "u"); Take (VString "u")] eq_refl)
      as (_ & _ & Hnot).
    apply Hnot.
    + simpl. rewrite list_elem_of_singleton. discriminate.
    + rewrite !elem_of_cons, elem_of_nil. intros [?|[?|[?|[?|[]]]]]; discriminate.
Defined.

End NoncePool.

(** ** The Link header and the response wrapper *)

Section LinkHeader.
Import JS Protocol.
Import Link.

Lemma assign_other (k name : string) (v : value) (acc : gmap string value) :
  k <> name -> assign k v acc !! name = acc !! name.
Proof.
  intros Hk. unfold assign. destruct (String.eqb k "__proto__"); [reflexivity|].
  by rewrite lookup_insert_ne.
Qed.

Lemma attributes_no_rel (parts : list string) (acc : gmap string value) :
  acc !! "rel" = None ->
  existsb
    (fun p =>
       match match_attr (Str.trim p) with
       | Some (k, _) => String.eqb k "rel"
       | None => false
       end) parts = false ->
  fold_left
    (fun acc p =>
       match match_attr (Str.trim p) with
       | Some (k, v) => assign k (VString v) acc
       | None => acc
       end) parts acc !! "rel" = None.
Proof.
  revert acc. induction parts as [|p parts IH]; intros acc Hacc Hex; simpl in *;
    [exact Hacc|].
  apply orb_false_elim in Hex as [Hp Hex]. apply IH; [|exact Hex].
  destruct (match_attr (Str.trim p)) as [[k v]|]; [|exact Hacc].
  rewrite assign_other; [exact Hacc|].
  intros ->. discriminate.
Qed.

Lemma parse_segment_no_rel (lnk : string) :
  declares_rel lnk = false -> parse_segment lnk !! "rel" = None.
Proof.
  unfold declares_rel, parse_segment.
  destruct (Str.split ";" (Str.trim lnk)) as [|first parts]; [reflexivity|].
  intros Hex. rewrite lookup_insert_ne by discriminate.
  by apply attributes_no_rel.
Qed.

Lemma relations_none (link : string) :
  no_relation link = true -> relations link = ∅.
Proof.
  unfold no_relation, relations.
  generalize (Str.split "," link) (∅ : gmap string value).
  intros segs. induction segs as [|lnk segs IH]; intros acc Hall; simpl in *;
    [reflexivity|].
  apply andb_prop in Hall as [Hseg Hall].
  apply negb_true_iff in Hseg.
  rewrite (parse_segment_no_rel lnk Hseg). by apply IH.
Qed.

Lemma on_post_response_object (w : world) (resp : response) (o : object) :
  body resp = Parsed o ->
  let out := List.length (heap w) in
  let h1 := (heap w ++ [o])%list in
  on_post_response false resp w =
    (let '(lk, h3) :=
       match _parseLink (header resp "link") with
       | None => (VNull, h1)
       | Some m => (VRef (S out), (h1 ++ [plain m])%list)
       end in
     (set_nonces (deposit (header resp "replay-nonce") (nonces w))
        (set_heap
           (<[out := Object (kind_of o) (props o) (Some lk)
                       (Some (header resp "location"))]> h3) w),
      Fulfilled (VRef out))).
Proof.
  intros Hb out h1. unfold on_post_response, receive, alloc. rewrite Hb.
  subst out h1. cbv zeta.
  assert (Hlen : List.length (heap w ++ [o]) = S (List.length (heap w)))
    by (rewrite List.length_app; simpl; lia).
  assert (Hlook : (heap w ++ [o])%list !! List.length (heap w) = Some o)
    by (by apply list_lookup_middle).
  rewrite Hlen.
  destruct (_parseLink (header resp "link")) as [m|].
  - rewrite lookup_app_l by (rewrite Hlen; lia).
    match goal with
    | |- context [match ?x with Some _ => _ | None => _ end] =>
        replace x with (Some o) by (symmetry; exact Hlook)
    end.
    reflexivity.
  - match goal with
    | |- context [match ?x with Some _ => _ | None => _ end] =>
        replace x with (Some o) by (symmetry; exact Hlook)
    end.
    reflexivity.
Qed.

(** C9, counterexample.  A response without a Link header: [_parseLink]
    returns [null], and [getLink] on the value returned throws. *)
Lemma absent_link_reports_no_relations_counterexample :
  ~ absent_link_reports_no_relations.
Proof.
  intros Hclaim.
  destruct (Hclaim fresh_client (Response ∅ (Parsed (plain ∅))) (plain ∅)
              eq_refl (lookup_empty _)) as (w' & out & l & Hpost & Hget & _).
  vm_compute in Hpost. injection Hpost as <- <-.
  vm_compute in Hget. discriminate.
Qed.

Example absent_link_getLink_throws :
  let '(w', r) :=
    on_post_response false (Response ∅ (Parsed (plain ∅))) fresh_client in
  r = Fulfilled (VRef 0%nat) /\
  LINKS_of (heap w') (VRef 0%nat) = VNull /\
  getLink (heap w') (VRef 0%nat) VUndefined =
    Throw (TypeError "Invalid object, no links").
Proof. vm_compute. repeat split. Qed.

(** A header that is not of the expected form may still yield a link. *)
Example unbracketed_link_is_parsed :
  _parseLink (VString ("a; rel=" ++ String quote "x" ++ String quote ""))
  = Some (<["x" := VString "a"]> ∅).
Proof. vm_compute. reflexivity. Qed.

(** C9, amended.  Whatever the Link header, the response handler of [_post]
    does not fail on its account: with an object for body it fulfils with
    that object.  When the header is absent, [_parseLink] yields [null], not a
    mapping, and [getLink] on the returned object throws a [TypeError].  When
    the header is a string none of whose segments declares a relation,
    [_parseLink] yields an empty mapping and [getLink] returns it. *)
Theorem link_header_tolerance (w : world) (resp : response) (o : object) :
  body resp = Parsed o ->
  exists w' out,
    on_post_response false resp w = (w', Fulfilled (VRef out)) /\
    (headers resp !! "link" = None ->
       _parseLink (header resp "link") = None /\
       LINKS_of (heap w') (VRef out) = VNull /\
       getLink (heap w') (VRef out) VUndefined =
         Throw (TypeError "Invalid object, no links")) /\
    (forall s, headers resp !! "link" = Some s -> no_relation s = true ->
       _parseLink (header resp "link") = Some ∅ /\
       exists l, getLink (heap w') (VRef out) VUndefined = Ok (VRef l) /\
            heap w' !! l = Some (plain ∅)).
Proof.
  intros Hb. rewrite (on_post_response_object w resp o Hb).
  set (out := List.length (heap w)).
  assert (Hout : (out < List.length (heap w ++ [o]))%nat)
    by (rewrite List.length_app; simpl; unfold out; lia).
  destruct (headers resp !! "link") as [s|] eqn:Hlink.
  - assert (Hh : header resp "link" = VString s)
      by (unfold header; by rewrite Hlink).
    rewrite Hh. simpl _parseLink.
    eexists _, out. split; [reflexivity|]. split; [discriminate|].
    intros s' [= <-] Hno. rewrite (relations_none s Hno).
    split; [reflexivity|]. exists (S out). simpl heap.
    assert (Hlen : (out < List.length ((heap w ++ [o]) ++ [plain ∅]))%nat)
      by (rewrite !List.length_app; simpl; unfold out; lia).
    split.
    + unfold getLink, LINKS_of. rewrite list_lookup_insert_eq by exact Hlen.
      reflexivity.
    + rewrite list_lookup_insert_ne by lia.
      apply list_lookup_middle. rewrite List.length_app. simpl. unfold out. lia.
  - assert (Hh : header resp "link" = VUndefined)
      by (unfold header; by rewrite Hlink).
    rewrite Hh. simpl _parseLink.
    eexists _, out. split; [reflexivity|]. split; [|discriminate].
    intros _. split; [reflexivity|]. simpl heap.
    unfold getLink, LINKS_of. rewrite list_lookup_insert_eq by exact Hout.
    split; reflexivity.
Qed.

Lemma link_header_tolerance_witness :
  exists w',
    on_post_response false
      (Response (<["link" := "<a>; rel=x"]> ∅) (Parsed (plain ∅))) fresh_client
    = (w', Fulfilled (VRef 0%nat)) /\
    exists l, getLink (heap w') (VRef 0%nat) VUndefined = Ok (VRef l) /\
         heap w' !! l = Some (plain ∅).
Proof.
  destruct (link_header_tolerance fresh_client
              (Response (<["link" := "<a>; rel=x"]> ∅) (Parsed (plain ∅)))
              (plain ∅) eq_refl) as (w' & out & Hpost & _ & Hstr).
  assert (Hout : out = 0%nat).
  { vm_compute in Hpost. by injection Hpost as _ <-. }
  subst out. exists w'. split; [exact Hpost|].
  destruct (Hstr "<a>; rel=x") as (_ & Hl); [reflexivity|reflexivity|].
  exact Hl.
Defined.

End LinkHeader.

(** ** Registration *)

Section Registration.
Import JS Protocol.

(** The registration scenario: one contact and no agreement give exactly one
    POST, to the [new-reg] endpoint, of a payload with that [contact] and no
    [agreement]. *)
Example newRegistration_end_to_end :
  let es := [Call (NewRegistration (VRef 0) VUndefined);
             Reply 0 (Fulfilled directory_response);
             Tick 1; Tick 1; Signed 1 (Fulfilled (VString "jws"))] in
  let w := run es client_with_one_contact in
  map req_method (sent w) = [GET; POST] /\
  map sc_content (signed w) = [Some new_reg_payload] /\
  heap w !! 0%nat =
    Some (Object (Array [VString "mailto:a@example.com"]) ∅ None None) /\
  last (sent w) =
    Some (Request POST (VString "https://ca.example/acme/new-reg") true true
            (AGENT fresh_client) (JsonBody (VString "jws"))).
Proof. vm_compute. repeat split. Qed.

(** What [newRegistration] does get right: anything but an array makes it
    throw before the directory is touched. *)
Lemma newRegistration_rejects_non_array (w : world) (contacts agreement : value) :
  isArray (heap w) contacts = false ->
  newRegistration contacts agreement w =
    (w, Threw (TypeError "contacts must be non-empty array of URIs")).
Proof. intros H. unfold newRegistration. by rewrite H. Qed.

(** Every array passes the guard, and the directory is resolved. *)
Lemma newRegistration_accepts_array (w : world) (contacts agreement : value) :
  isArray (heap w) contacts = true ->
  exists w' p, newRegistration contacts agreement w = (w', Returned p) /\
          is_Some (dirPromise w').
Proof.
  intros H. unfold newRegistration. rewrite H. simpl.
  unfold directory. destruct (dirPromise w) eqn:Hd; simpl;
    eexists _, _; (split; [reflexivity|]); simpl; eauto.
Qed.

(** C4, the failing input.  [newRegistration([])] does not throw: it returns
    a promise and fetches the directory; once the directory has arrived, a
    registration whose [contact] is the empty array is signed and posted to
    the [new-reg] endpoint. *)
Theorem newRegistration_empty_contacts_is_posted :
  let es := [Call (NewRegistration (VRef 0) VUndefined);
             Reply 0 (Fulfilled directory_response);
             Tick 1; Tick 1; Signed 1 (Fulfilled (VString "jws"))] in
  let w := run es client_with_empty_contacts in
  isArray (heap client_with_empty_contacts) (VRef 0) = true /\
  snd (step (Call (NewRegistration (VRef 0) VUndefined))
         client_with_empty_contacts) = Returned 1 /\
  map req_method (sent w) = [GET; POST] /\
  signed w =
    [SignCall (VString "key") (VString "n0") (VRef 2) (Some new_reg_payload)] /\
  last (sent w) =
    Some (Request POST (VString "https://ca.example/acme/new-reg") true true
            (AGENT fresh_client) (JsonBody (VString "jws"))).
Proof. vm_compute. repeat split. Qed.

End Registration.

(** ** End-to-end scenarios *)

Section Scenarios.
Import JS Protocol.

Lemma respondToChallenge_keyAuthorization_witness :
  exists w1 p,
    respondToChallenge (VRef 1) challenge_client = (w1, Returned p) /\
    heap w1 !! 1%nat =
      Some (with_props
              (<["keyAuthorization" := VString "T.K"]>
                 (<["resource" := VString "challenge"]> (props challenge_object)))
              challenge_object).
Proof.
  destruct (respondToChallenge_keyAuthorization challenge_client) as [Hpost _].
  destruct (Hpost 1%nat challenge_object
              (VString "https://ca.example/acme/challenge/1") "T" "K")
    as (w1 & p & Hcall & Hheap & _); try reflexivity.
  exists w1, p. split; [exact Hcall|exact Hheap].
Defined.


Example respondToChallenge_end_to_end :
  let w := run [Call (RespondToChallenge (VRef 1));
                Reply 0 (Fulfilled (Response (<["replay-nonce" := "n7"]> ∅)
                                      (Primitive VUndefined)));
                Tick 0; Signed 0 (Fulfilled (VString "jws"))] challenge_client in
  prop (heap w) (VRef 1) "keyAuthorization" = VString "T.K" /\
  prop (heap w) (VRef 1) "resource" = VString "challenge" /\
  map req_method (sent w) = [HEAD; POST] /\
  map sc_nonce (signed w) = [VString "n7"].
Proof. vm_compute. repeat split. Qed.

End Scenarios.

(** ** Further properties: strings *)

Section StringFacts.
Import JS.

Lemma append_nil_l (x : string) : "" ++ x = x.
Proof. reflexivity. Qed.

Lemma contains_app (c : ascii) (x y : string) :
  Str.contains c (x ++ y) = Str.contains c x || Str.contains c y.
Proof.
  induction x as [|a x IH]; [reflexivity|].
  rewrite append_cons. simpl. rewrite IH. by rewrite orb_assoc.
Qed.
End StringFacts.

(** ** Further properties: the base64url codec *)

Section CodecProperties.
Import JS NodeBuffer AcmeUtils Base64Check Vocabulary Keys Notions.
Local Open Scope N_scope.

Lemma alphabet_ok_all (n : N) : n < 64 -> alphabet_ok n = true.
Proof. apply (N_below_forallb alphabet_ok 64). vm_compute. reflexivity. Qed.

Lemma alphabet_facts (n : N) :
  n < 64 ->
  let b := base64_char n in
  Ascii.eqb b "=" = false /\ Ascii.eqb (url_char b) "=" = false /\
  std_char (url_char b) = b /\ b64url_char (url_char b) = true /\
  unbase64 b = Some n.
Proof.
  intros Hn b. pose proof (alphabet_ok_all n Hn) as Hok.
  unfold alphabet_ok in Hok. fold b in Hok.
  repeat (apply andb_prop in Hok as [Hok ?]).
  apply negb_true_iff in Hok.
  repeat split; try assumption.
  - by apply negb_true_iff.
  - by apply Ascii.eqb_eq.
  - destruct (unbase64 b) as [m|]; [|discriminate].
    f_equal. by apply N.eqb_eq.
Qed.

Lemma to_standard_alphabet_cons (c : ascii) (s : string) :
  to_standard_alphabet (String c s) = String (std_char c) (to_standard_alphabet s).
Proof.
  unfold to_standard_alphabet, std_char. simpl.
  destruct (Ascii.eqb_spec c "-") as [->|]; [reflexivity|].
  destruct (Ascii.eqb_spec c "_") as [->|]; reflexivity.
Qed.

(** [toStandardB64] on a string that begins with a character other than the
    pad, in terms of the stripped and translated rest. *)
Lemma toStandardB64_body (x : string) :
  toStandardB64 x =
  let b64 := Str.remove_all "=" (to_standard_alphabet x) in
  match N.of_nat (String.length b64) mod 4 with
  | 2 => b64 ++ "=="
  | 3 => b64 ++ "="
  | _ => b64
  end.
Proof. reflexivity. Qed.

Lemma toStandardB64_cons4 (c1 c2 c3 c4 : ascii) (s : string) :
  Ascii.eqb (std_char c1) "=" = false -> Ascii.eqb (std_char c2) "=" = false ->
  Ascii.eqb (std_char c3) "=" = false -> Ascii.eqb (std_char c4) "=" = false ->
  toStandardB64 (String c1 (String c2 (String c3 (String c4 s)))) =
  String (std_char c1) (String (std_char c2) (String (std_char c3)
    (String (std_char c4) (toStandardB64 s)))).
Proof.
  intros H1 H2 H3 H4. rewrite !toStandardB64_body.
  rewrite !to_standard_alphabet_cons. cbn [Str.remove_all].
  rewrite H1, H2, H3, H4. cbv zeta.
  set (b64 := Str.remove_all "=" (to_standard_alphabet s)).
  cbn [String.length].
  replace (N.of_nat (S (S (S (S (String.length b64))))))
    with (N.of_nat (String.length b64) + 1 * 4) by lia.
  rewrite N.Div0.mod_add.
  destruct (N.of_nat (String.length b64) mod 4) as [|[[|[]|]|[|[]|]|]];
    rewrite ?append_cons; reflexivity.
Qed.

Lemma toStandardB64_two (c1 c2 : ascii) :
  Ascii.eqb (std_char c1) "=" = false -> Ascii.eqb (std_char c2) "=" = false ->
  toStandardB64 (String c1 (String c2 "")) =
  String (std_char c1) (String (std_char c2) "==").
Proof.
  intros H1 H2. rewrite toStandardB64_body, !to_standard_alphabet_cons.
  cbn [Str.remove_all to_standard_alphabet Str.replace_all]. rewrite H1, H2.
  reflexivity.
Qed.

Lemma toStandardB64_three (c1 c2 c3 : ascii) :
  Ascii.eqb (std_char c1) "=" = false -> Ascii.eqb (std_char c2) "=" = false ->
  Ascii.eqb (std_char c3) "=" = false ->
  toStandardB64 (String c1 (String c2 (String c3 ""))) =
  String (std_char c1) (String (std_char c2) (String (std_char c3) "=")).
Proof.
  intros H1 H2 H3. rewrite toStandardB64_body, !to_standard_alphabet_cons.
  cbn [Str.remove_all to_standard_alphabet Str.replace_all].
  rewrite H1, H2, H3. reflexivity.
Qed.

Lemma fromStandardB64_char (n : N) (s : string) :
  n < 64 ->
  fromStandardB64 (String (base64_char n) s) =
  String (url_char (base64_char n)) (fromStandardB64 s).
Proof.
  intros Hn. destruct (alphabet_facts n Hn) as (_ & Hu & _).
  by rewrite fromStandardB64_cons, Hu.
Qed.

Lemma std_url_not_pad (n : N) :
  n < 64 -> Ascii.eqb (std_char (url_char (base64_char n))) "=" = false.
Proof.
  intros Hn. destruct (alphabet_facts n Hn) as (Hb & _ & -> & _). exact Hb.
Qed.

Lemma sextets_standard_cons (n : N) (s : string) :
  n < 64 -> sextets (String (base64_char n) s) = n :: sextets s.
Proof.
  intros Hn. destruct (alphabet_facts n Hn) as (Hb & _ & _ & _ & Hd).
  simpl. by rewrite Hb, Hd.
Qed.

Lemma from_base64_toString (x : list byte) :
  from_base64 (toString_base64 x) = x.
Proof.
  unfold from_base64.
  induction x as [|a|a b|a b c rest IH] using buffer_ind3.
  - reflexivity.
  - destruct (enc_bounds a a) as (H1 & _ & _ & _).
    destruct (enc_bounds_last a) as (H2 & _).
    cbn [toString_base64]. rewrite !sextets_standard_cons by assumption.
    cbn. f_equal. apply dec1_enc_last.
  - destruct (enc_bounds a b) as (H1 & H2 & _ & _).
    destruct (enc_bounds_last b) as (_ & H3).
    cbn [toString_base64]. rewrite !sextets_standard_cons by assumption.
    cbn [sextets decode_groups Ascii.eqb Bool.eqb].
    f_equal; [apply dec1_enc|]. f_equal. apply dec2_enc_last.
  - destruct (enc_bounds a b) as (H1 & H2 & _ & _).
    destruct (enc_bounds b c) as (_ & _ & H3 & _).
    destruct (enc_bounds c c) as (_ & _ & _ & H4).
    cbn [toString_base64]. rewrite !sextets_standard_cons by assumption.
    cbn [decode_groups]. rewrite IH.
    f_equal; [apply dec1_enc|]. f_equal; [apply dec2_enc|].
    f_equal. apply dec3_enc.
Qed.

(** X1. For every byte sequence, [toStandardB64] applied to the output of
    [b64enc] is the padded standard base64 text of the bytes: the two
    characters are translated back and the padding recomputed from the
    length is the padding that [fromStandardB64] has removed.  [b64dec]
    reads this padded text as well and gives the bytes back. *)
Theorem toStandardB64_b64enc (x : list byte) :
  toStandardB64 (b64enc x) = toString_base64 x /\
  b64dec (toStandardB64 (b64enc x)) = x.
Proof.
  assert (Hstd : toStandardB64 (b64enc x) = toString_base64 x).
  {
    unfold b64enc.
    induction x as [|a|a b|a b c rest IH] using buffer_ind3.
    - reflexivity.
    - destruct (enc_bounds a a) as (H1 & _ & _ & _).
      destruct (enc_bounds_last a) as (H2 & _).
      cbn [toString_base64].
      rewrite !fromStandardB64_char by assumption.
      change (fromStandardB64 "==") with "".
      rewrite toStandardB64_two by (by apply std_url_not_pad).
      destruct (alphabet_facts _ H1) as (_ & _ & -> & _).
      destruct (alphabet_facts _ H2) as (_ & _ & -> & _). reflexivity.
    - destruct (enc_bounds a b) as (H1 & H2 & _ & _).
      destruct (enc_bounds_last b) as (_ & H3).
      cbn [toString_base64].
      rewrite !fromStandardB64_char by assumption.
      change (fromStandardB64 "=") with "".
      rewrite toStandardB64_three by (by apply std_url_not_pad).
      destruct (alphabet_facts _ H1) as (_ & _ & -> & _).
      destruct (alphabet_facts _ H2) as (_ & _ & -> & _).
      destruct (alphabet_facts _ H3) as (_ & _ & -> & _). reflexivity.
    - destruct (enc_bounds a b) as (H1 & H2 & _ & _).
      destruct (enc_bounds b c) as (_ & _ & H3 & _).
      destruct (enc_bounds c c) as (_ & _ & _ & H4).
      cbn [toString_base64].
      rewrite !fromStandardB64_char by assumption.
      rewrite toStandardB64_cons4 by (by apply std_url_not_pad).
      rewrite IH.
      destruct (alphabet_facts _ H1) as (_ & _ & -> & _).
      destruct (alphabet_facts _ H2) as (_ & _ & -> & _).
      destruct (alphabet_facts _ H3) as (_ & _ & -> & _).
      destruct (alphabet_facts _ H4) as (_ & _ & -> & _). reflexivity.
  }
  split; [exact Hstd|]. rewrite Hstd. apply from_base64_toString.
Qed.

(** X3. Whatever the bytes, the text returned by [b64enc] passes
    [isB64String]: it holds no [+], no [/] and no padding. *)
Theorem b64enc_isB64String (x : list byte) :
  isB64String (VString (b64enc x)) = true.
Proof.
  unfold isB64String, b64enc.
  induction x as [|a|a b|a b c rest IH] using buffer_ind3.
  - reflexivity.
  - destruct (enc_bounds a a) as (H1 & _ & _ & _).
    destruct (enc_bounds_last a) as (H2 & _).
    cbn [toString_base64]. rewrite !fromStandardB64_char by assumption.
    change (fromStandardB64 "==") with "". cbn [Str.all_chars].
    destruct (alphabet_facts _ H1) as (_ & _ & _ & -> & _).
    destruct (alphabet_facts _ H2) as (_ & _ & _ & -> & _). reflexivity.
  - destruct (enc_bounds a b) as (H1 & H2 & _ & _).
    destruct (enc_bounds_last b) as (_ & H3).
    cbn [toString_base64]. rewrite !fromStandardB64_char by assumption.
    change (fromStandardB64 "=") with "". cbn [Str.all_chars].
    destruct (alphabet_facts _ H1) as (_ & _ & _ & -> & _).
    destruct (alphabet_facts _ H2) as (_ & _ & _ & -> & _).
    destruct (alphabet_facts _ H3) as (_ & _ & _ & -> & _). reflexivity.
  - destruct (enc_bounds a b) as (H1 & H2 & _ & _).
    destruct (enc_bounds b c) as (_ & _ & H3 & _).
    destruct (enc_bounds c c) as (_ & _ & _ & H4).
    cbn [toString_base64]. rewrite !fromStandardB64_char by assumption.
    cbn [Str.all_chars]. rewrite IH.
    destruct (alphabet_facts _ H1) as (_ & _ & _ & -> & _).
    destruct (alphabet_facts _ H2) as (_ & _ & _ & -> & _).
    destruct (alphabet_facts _ H3) as (_ & _ & _ & -> & _).
    destruct (alphabet_facts _ H4) as (_ & _ & _ & -> & _). reflexivity.
Qed.

(** X4. [b64enc] of [n] bytes has [(4 * n + 2) / 3] characters, the length of
    unpadded base64. *)
Theorem b64enc_length (x : list byte) :
  String.length (b64enc x) = ((4 * List.length x + 2) / 3)%nat.
Proof.
  unfold b64enc.
  induction x as [|a|a b|a b c rest IH] using buffer_ind3.
  - reflexivity.
  - destruct (enc_bounds a a) as (H1 & _ & _ & _).
    destruct (enc_bounds_last a) as (H2 & _).
    cbn [toString_base64]. rewrite !fromStandardB64_char by assumption.
    reflexivity.
  - destruct (enc_bounds a b) as (H1 & H2 & _ & _).
    destruct (enc_bounds_last b) as (_ & H3).
    cbn [toString_base64]. rewrite !fromStandardB64_char by assumption.
    reflexivity.
  - destruct (enc_bounds a b) as (H1 & H2 & _ & _).
    destruct (enc_bounds b c) as (_ & _ & H3 & _).
    destruct (enc_bounds c c) as (_ & _ & _ & H4).
    cbn [toString_base64]. rewrite !fromStandardB64_char by assumption.
    cbn [String.length List.length]. rewrite IH.
    replace (4 * S (S (S (List.length rest))) + 2)%nat
      with ((4 * List.length rest + 2) + 4 * 3)%nat by lia.
    rewrite Nat.div_add by lia. lia.
Qed.

Lemma url_alphabet_ok_all (c : ascii) : url_alphabet_ok c = true.
Proof. destruct c as [[] [] [] [] [] [] [] []]; reflexivity. Qed.

Lemma fromStandardB64_app (x y : string) :
  fromStandardB64 (x ++ y) = fromStandardB64 x ++ fromStandardB64 y.
Proof.
  unfold fromStandardB64. by rewrite !replace_all_app, remove_all_app.
Qed.

Lemma base64url_text_fixed (s : string) :
  base64url_text s ->
  Str.remove_all "=" s = s /\
  fromStandardB64 (to_standard_alphabet s) = s.
Proof.
  induction s as [|c r IH]; [by split|].
  cbn [base64url_text]. intros [Hc Hr]. destruct (IH Hr) as [IH1 IH2].
  pose proof (url_alphabet_ok_all c) as Hok. unfold url_alphabet_ok in Hok.
  rewrite Hc in Hok. simpl in Hok.
  repeat (apply andb_prop in Hok as [Hok ?]).
  apply negb_true_iff in Hok.
  match goal with H : negb _ = true |- _ => apply negb_true_iff in H end.
  match goal with H : Ascii.eqb (url_char _) _ = true |- _ =>
    apply Ascii.eqb_eq in H; rename H into Hback end.
  split.
  - simpl. by rewrite Hok, IH1.
  - rewrite to_standard_alphabet_cons, fromStandardB64_cons, Hback.
    destruct (Ascii.eqb c "=") eqn:E; [discriminate|]. by rewrite IH2.
Qed.

(** X2. On a text over the base64url alphabet, [fromStandardB64] undoes
    [toStandardB64]: the padding that was added is removed and every
    character comes back. *)
Theorem fromStandardB64_toStandardB64 (s : string) :
  base64url_text s -> fromStandardB64 (toStandardB64 s) = s.
Proof.
  intros Hs. destruct (base64url_text_fixed s Hs) as [Hrm Hback].
  rewrite toStandardB64_unfold, Hrm. cbv zeta.
  destruct (N.of_nat (String.length s) mod 4) as [|[[|[]|]|[|[]|]|]];
    rewrite ?fromStandardB64_app, Hback;
    first [ apply append_empty_r | reflexivity ].
Qed.

Lemma fromStandardB64_toStandardB64_witness :
  fromStandardB64 (toStandardB64 "-_8-AQ") = "-_8-AQ".
Proof.
  apply fromStandardB64_toStandardB64. simpl. intuition reflexivity.
Defined.
End CodecProperties.

(** ** Further properties: keys, signatures and fingerprints *)

Section KeyProperties.
Import JS NodeBuffer AcmeUtils Base64Check Vocabulary Keys Notions.

(** On an object that owns no field named [hasOwnProperty], [fieldsPresent]
    is the conjunction of the built-in test over the fields. *)
Lemma fieldsPresent_plain (h : list object) (l : loc) (o : object)
    (fields : list string) :
  h !! l = Some o -> props o !! "hasOwnProperty" = None ->
  fieldsPresent h fields (VRef l) =
    Ok (forallb (hasOwnProperty h (VRef l)) fields).
Proof.
  intros Hl Hs. unfold fieldsPresent. cbn [truthy typeof negb orb].
  change (String.eqb "object" "object") with true. cbn [negb].
  induction fields as [|f r IH]; [reflexivity|]. cbn [every forallb].
  rewrite (call_hasOwnProperty_plain h l o f Hl Hs).
  destruct (hasOwnProperty h (VRef l) f); [exact IH|reflexivity].
Qed.

Lemma fieldsPresent_dangling (h : list object) (l : loc) (fields : list string) :
  h !! l = None -> exists b, fieldsPresent h fields (VRef l) = Ok b /\
                        (fields <> [] -> b = false).
Proof.
  intros Hl. unfold fieldsPresent. cbn [truthy typeof negb orb].
  change (String.eqb "object" "object") with true. cbn [negb].
  assert (Hc : forall f, call_hasOwnProperty h (VRef l) f = Ok false).
  { intros f. unfold call_hasOwnProperty, hasOwnProperty.
    match goal with
    | |- context [match ?x with Some _ => _ | None => _ end] =>
        replace x with (@None object) by (symmetry; exact Hl)
    end.
    reflexivity. }
  destruct fields as [|f r]; cbn [every].
  - exists true. by split.
  - rewrite Hc. exists false. by split.
Qed.

Lemma fieldsPresent_primitive (h : list object) (fields : list string)
    (v : value) :
  (forall l, v <> VRef l) -> fieldsPresent h fields v = Ok false.
Proof.
  intros Hv. unfold fieldsPresent.
  destruct v as [| | b | s | l]; try reflexivity.
  - by destruct b.
  - simpl. by destruct (negb (String.eqb s "")).
  - by destruct (Hv l).
Qed.

Lemma fieldsPresent_inv (h : list object) (fields : list string) (v : value) :
  fieldsPresent h fields v = Ok true ->
  fields <> [] ->
  exists l o, v = VRef l /\ h !! l = Some o /\
         props o !! "hasOwnProperty" = None /\
         Forall (fun f => hasOwnProperty h (VRef l) f = true) fields.
Proof.
  intros Hf Hne.
  destruct v as [| | b | s | l];
    try (rewrite fieldsPresent_primitive in Hf by discriminate; discriminate).
  destruct (h !! l) as [o|] eqn:Hl.
  - destruct (props o !! "hasOwnProperty") as [x|] eqn:Hs.
    + rewrite (fieldsPresent_shadowed h l o fields Hl) in Hf by eauto.
      discriminate.
    + rewrite (fieldsPresent_plain h l o fields Hl Hs) in Hf.
      injection Hf as Hf. exists l, o. repeat split; try assumption.
      apply Forall_forall. intros f Hin.
      rewrite forallb_forall in Hf. apply Hf. by apply list_elem_of_In.
  - destruct (fieldsPresent_dangling h l fields Hl) as (b & Hb & Hfalse).
    rewrite Hb in Hf. rewrite (Hfalse Hne) in Hf. discriminate.
Qed.

Lemma fieldsPresent_throws_inv (h : list object) (fields : list string)
    (v : value) (e : error) :
  fieldsPresent h fields v = Throw e ->
  e = TypeError "object.hasOwnProperty is not a function" /\
  exists l o, v = VRef l /\ h !! l = Some o /\
         is_Some (props o !! "hasOwnProperty").
Proof.
  intros Hf.
  destruct v as [| | b | s | l];
    try (rewrite fieldsPresent_primitive in Hf by discriminate; discriminate).
  destruct (h !! l) as [o|] eqn:Hl.
  - destruct (props o !! "hasOwnProperty") as [x|] eqn:Hs.
    + destruct fields as [|f r]; [discriminate|].
      rewrite (fieldsPresent_shadowed h l o (f :: r) Hl) in Hf
        by (eauto || discriminate).
      injection Hf as <-. split; [reflexivity|]. exists l, o.
      repeat split; [exact Hl|]. rewrite Hs. by eexists.
    + rewrite (fieldsPresent_plain h l o fields Hl Hs) in Hf. discriminate.
  - destruct (fieldsPresent_dangling h l fields Hl) as (b & Hb & _).
    rewrite Hb in Hf. discriminate.
Qed.

(** A named field that the built-in test finds is a property of the
    object. *)
Lemma hasOwnProperty_named_inv (h : list object) (l : loc) (o : object)
    (name : string) :
  h !! l = Some o ->
  array_index name = None -> String.eqb name "length" = false ->
  hasOwnProperty h (VRef l) name = true -> is_Some (props o !! name).
Proof.
  intros Hl Hi Hn. rewrite (hasOwnProperty_named h l o name Hl Hi Hn).
  apply bool_decide_eq_true.
Qed.

Lemma isB64String_inv (v : value) :
  isB64String v = true -> exists s, v = VString s /\ base64url_text s.
Proof.
  destruct v as [| | | s |]; try discriminate. simpl. intros Hs.
  exists s. split; [reflexivity|].
  induction s as [|c r IH]; [exact I|].
  simpl in Hs. apply andb_prop in Hs as [Hc Hr].
  cbn [base64url_text]. split; [|by apply IH].
  by rewrite <- b64url_char_alphabet.
Qed.

Lemma prop_string_inv (h : list object) (l : loc) (o : object)
    (name s : string) :
  h !! l = Some o -> prop h (VRef l) name = VString s ->
  props o !! name = Some (VString s).
Proof.
  intros Hl. simpl. rewrite Hl. destruct (props o !! name); simpl; congruence.
Qed.

Lemma typeof_string_inv (v : value) :
  String.eqb (typeof v) "string" = true -> exists s, v = VString s.
Proof. destruct v; try discriminate. eauto. Qed.

Lemma validJWK_inv (h : list object) (jwk : value) :
  validJWK h jwk = Ok true ->
  exists l o,
    jwk = VRef l /\ h !! l = Some o /\
    props o !! "hasOwnProperty" = None /\ props o !! "d" = None /\
    ((props o !! "kty" = Some (VString "RSA") /\
      exists n e,
        props o !! "n" = Some (VString n) /\ props o !! "e" = Some (VString e) /\
        base64url_text n /\ base64url_text e) \/
     (props o !! "kty" = Some (VString "EC") /\
      exists crv x y,
        props o !! "crv" = Some (VString crv) /\
        props o !! "x" = Some (VString x) /\ props o !! "y" = Some (VString y) /\
        base64url_text x /\ base64url_text y)).
Proof.
  unfold validJWK. intros Hv.
  destruct (fieldsPresent h ["kty"] jwk) as [[|]|e] eqn:Hf; try discriminate.
  destruct (fieldsPresent_inv h ["kty"] jwk Hf) as (l & o & -> & Hl & Hs & _);
    [discriminate|].
  rewrite (has_property_d h l o Hl) in Hv. cbn [negb orb] in Hv.
  destruct (bool_decide (is_Some (props o !! "d"))) eqn:Hd; [discriminate|].
  apply bool_decide_eq_false in Hd.
  assert (Hnod : props o !! "d" = None)
    by (destruct (props o !! "d"); [exfalso; apply Hd; eauto|reflexivity]).
  exists l, o. split; [reflexivity|]. split; [exact Hl|].
  split; [exact Hs|]. split; [exact Hnod|].
  destruct (prop h (VRef l) "kty") as [| | | kty |] eqn:Hk; try discriminate.
  destruct (String.eqb_spec kty "RSA") as [->|Hrsa].
  - left. split; [by apply (prop_string_inv h l o)|].
    injection Hv as Hv. apply andb_prop in Hv as [Hn He].
    destruct (isB64String_inv _ Hn) as (n & Hpn & Tn).
    destruct (isB64String_inv _ He) as (e & Hpe & Te).
    exists n, e. repeat split; try assumption; by apply (prop_string_inv h l o).
  - destruct (String.eqb_spec kty "EC") as [->|Hec]; [|discriminate].
    right. split; [by apply (prop_string_inv h l o)|].
    injection Hv as Hv.
    apply andb_prop in Hv as [Hv Hy]. apply andb_prop in Hv as [Hc Hx].
    destruct (typeof_string_inv _ Hc) as (crv & Hpc).
    destruct (isB64String_inv _ Hx) as (x & Hpx & Tx).
    destruct (isB64String_inv _ Hy) as (y & Hpy & Ty).
    exists crv, x, y.
    repeat split; try assumption; by apply (prop_string_inv h l o).
Qed.

Lemma validJWK_throws_inv (h : list object) (jwk : value) (e : error) :
  validJWK h jwk = Throw e ->
  e = TypeError "object.hasOwnProperty is not a function" /\
  exists l o, jwk = VRef l /\ h !! l = Some o /\
         is_Some (props o !! "hasOwnProperty").
Proof.
  unfold validJWK. intros Hv.
  destruct (fieldsPresent h ["kty"] jwk) as [b|e'] eqn:Hf.
  - destruct (negb b || has_property h jwk "d"); [discriminate|].
    destruct (prop h jwk "kty") as [| | | kty |]; try discriminate.
    destruct (String.eqb kty "RSA"); [discriminate|].
    destruct (String.eqb kty "EC"); discriminate.
  - injection Hv as <-. by apply (fieldsPresent_throws_inv h ["kty"]).
Qed.

(** X6. [validJWK] answers true exactly on the two shapes it names: an object
    that owns no field named [hasOwnProperty] and no [d], whose [kty] is
    RSA with [n] and [e] base64url strings, or whose [kty] is EC with a
    string [crv] and [x] and [y] base64url strings.  It throws exactly
    on an object that owns a field named [hasOwnProperty], and what it
    throws is a [TypeError]; on everything else it answers false. *)
Theorem validJWK_iff (h : list object) (jwk : value) :
  (validJWK h jwk = Ok true <->
   exists l o,
     jwk = VRef l /\ h !! l = Some o /\
     props o !! "hasOwnProperty" = None /\ props o !! "d" = None /\
     ((props o !! "kty" = Some (VString "RSA") /\
       exists n e,
         props o !! "n" = Some (VString n) /\
         props o !! "e" = Some (VString e) /\
         base64url_text n /\ base64url_text e) \/
      (props o !! "kty" = Some (VString "EC") /\
       exists crv x y,
         props o !! "crv" = Some (VString crv) /\
         props o !! "x" = Some (VString x) /\
         props o !! "y" = Some (VString y) /\
         base64url_text x /\ base64url_text y))) /\
  ((exists e, validJWK h jwk = Throw e) <->
   exists l o, jwk = VRef l /\ h !! l = Some o /\
          is_Some (props o !! "hasOwnProperty")) /\
  (forall e, validJWK h jwk = Throw e -> exists msg, e = TypeError msg).
Proof.
  split; [|split].
  - split; [apply validJWK_inv|].
    intros (l & o & -> & Hl & Hs & Hd & Hcase). unfold validJWK.
    destruct Hcase as [(Hk & n & e & Hn & He & Tn & Te)
                      |(Hk & crv & x & y & Hc & Hx & Hy & Tx & Ty)].
    + rewrite (fieldsPresent_kty h l o _ Hl Hs Hk), (has_property_d h l o Hl), Hd.
      rewrite bool_decide_eq_false_2 by (intros [? ?]; discriminate).
      rewrite (prop_own _ _ _ _ _ Hl Hk), (prop_own _ _ _ _ _ Hl Hn),
        (prop_own _ _ _ _ _ Hl He).
      cbn [negb orb String.eqb Ascii.eqb Bool.eqb].
      by rewrite !isB64String_text.
    + rewrite (fieldsPresent_kty h l o _ Hl Hs Hk), (has_property_d h l o Hl), Hd.
      rewrite bool_decide_eq_false_2 by (intros [? ?]; discriminate).
      rewrite (prop_own _ _ _ _ _ Hl Hk), (prop_own _ _ _ _ _ Hl Hc),
        (prop_own _ _ _ _ _ Hl Hx), (prop_own _ _ _ _ _ Hl Hy).
      cbn [negb orb andb typeof String.eqb Ascii.eqb Bool.eqb].
      by rewrite !isB64String_text.
  - split.
    + intros [e He]. by destruct (validJWK_throws_inv h jwk e He) as [_ H].
    + intros (l & o & -> & Hl & Hs). eexists. unfold validJWK.
      by rewrite (fieldsPresent_shadowed h l o ["kty"] Hl Hs).
  - intros e He. destruct (validJWK_throws_inv h jwk e He) as [-> _].
    by eexists.
Qed.

Lemma validJWK_iff_witness :
  validJWK [rsa_private; rsa_public; ec_public] (VRef 1) = Ok true /\
  validJWK [rsa_private; rsa_public; ec_public] (VRef 0) <> Ok true.
Proof.
  destruct (validJWK_iff [rsa_private; rsa_public; ec_public] (VRef 1))
    as [Hacc _].
  destruct (validJWK_iff [rsa_private; rsa_public; ec_public] (VRef 0))
    as [Hrej _].
  split.
  - apply Hacc. exists 1%nat, rsa_public.
    split; [reflexivity|]. split; [reflexivity|]. split; [reflexivity|].
    split; [reflexivity|].
    left. split; [reflexivity|]. exists "AQAB-_", "AQAB".
    repeat split; try reflexivity; simpl; intuition reflexivity.
  - intros E. apply Hrej in E.
    destruct E as (l & o & [= <-] & [= <-] & _ & Hd & _). discriminate.
Defined.

Lemma fieldsPresent_own (h : list object) (l : loc) (o : object)
    (fields : list string) :
  h !! l = Some o -> props o !! "hasOwnProperty" = None ->
  Forall (fun f => is_Some (props o !! f)) fields ->
  fieldsPresent h fields (VRef l) = Ok true.
Proof.
  intros Hl Hs Hall. rewrite (fieldsPresent_plain h l o fields Hl Hs).
  f_equal. apply forallb_forall. intros f Hin.
  unfold hasOwnProperty.
  match goal with
  | |- context [match ?x with Some _ => _ | None => _ end] =>
      replace x with (Some o) by (symmetry; exact Hl)
  end.
  unfold own_key. apply orb_true_iff. left.
  apply bool_decide_eq_true. rewrite Forall_forall in Hall.
  apply Hall. by apply list_elem_of_In.
Qed.

(** X7. [validSignature] answers true exactly for an object that owns no
    field named [hasOwnProperty], with a string [alg], base64url strings
    [nonce] and [sig], and a [jwk] on which [validJWK] answers true.  On
    an envelope that owns a field named [hasOwnProperty] it throws, and
    whatever it throws is a [TypeError]. *)
Theorem validSignature_iff (h : list object) (sig : value) :
  (validSignature h sig = Ok true <->
   exists l o alg nonce s jwk,
     sig = VRef l /\ h !! l = Some o /\
     props o !! "hasOwnProperty" = None /\
     props o !! "alg" = Some (VString alg) /\
     props o !! "nonce" = Some (VString nonce) /\ base64url_text nonce /\
     props o !! "sig" = Some (VString s) /\ base64url_text s /\
     props o !! "jwk" = Some jwk /\ validJWK h jwk = Ok true) /\
  (forall l o,
     sig = VRef l -> h !! l = Some o ->
     is_Some (props o !! "hasOwnProperty") ->
     exists msg, validSignature h sig = Throw (TypeError msg)) /\
  (forall e, validSignature h sig = Throw e -> exists msg, e = TypeError msg).
Proof.
  unfold validSignature. split; [split|split].
  - intros Hv.
    destruct (fieldsPresent h ["alg"; "nonce"; "sig"; "jwk"] sig)
      as [[|]|e] eqn:Hf; try discriminate.
    destruct (fieldsPresent_inv h _ sig Hf) as (l & o & -> & Hl & Hsh & Hall);
      [discriminate|].
    destruct (String.eqb (typeof (prop h (VRef l) "alg")) "string" &&
              isB64String (prop h (VRef l) "nonce") &&
              isB64String (prop h (VRef l) "sig")) eqn:Hc; [|discriminate].
    apply andb_prop in Hc as [Hc Hs]. apply andb_prop in Hc as [Ha Hn].
    destruct (typeof_string_inv _ Ha) as (alg & Hpa).
    destruct (isB64String_inv _ Hn) as (nonce & Hpn & Tn).
    destruct (isB64String_inv _ Hs) as (s & Hps & Ts).
    apply Forall_cons in Hall as [_ Hall]. apply Forall_cons in Hall as [_ Hall].
    apply Forall_cons in Hall as [_ Hall].
    apply Forall_cons in Hall as [Hjwk _].
    apply (hasOwnProperty_named_inv h l o "jwk" Hl) in Hjwk;
      [|reflexivity|reflexivity].
    destruct Hjwk as [jwk Hjwk].
    exists l, o, alg, nonce, s, jwk.
    repeat split; try assumption; try (by apply (prop_string_inv h l o)).
    by rewrite <- (prop_own h l o "jwk" jwk Hl Hjwk).
  - intros (l & o & alg & nonce & s & jwk & -> & Hl & Hsh & Ha & Hn & Tn & Hs
            & Ts & Hj & Hv).
    assert (Hown : Forall (fun f => is_Some (props o !! f))
                     ["alg"; "nonce"; "sig"; "jwk"])
      by (repeat constructor; eauto).
    rewrite (fieldsPresent_own h l o _ Hl Hsh Hown).
    rewrite (prop_own _ _ _ _ _ Hl Ha), (prop_own _ _ _ _ _ Hl Hn),
      (prop_own _ _ _ _ _ Hl Hs), (prop_own _ _ _ _ _ Hl Hj).
    cbn [typeof]. change (String.eqb "string" "string") with true.
    by rewrite !isB64String_text.
  - intros l o -> Hl Hsh. eexists.
    by rewrite (fieldsPresent_shadowed h l o _ Hl Hsh).
  - intros e He.
    destruct (fieldsPresent h ["alg"; "nonce"; "sig"; "jwk"] sig)
      as [[|]|e'] eqn:Hf.
    + destruct (String.eqb (typeof (prop h sig "alg")) "string" &&
                isB64String (prop h sig "nonce") &&
                isB64String (prop h sig "sig")); [|discriminate].
      destruct (validJWK_throws_inv _ _ _ He) as [-> _]. by eexists.
    + discriminate.
    + injection He as <-.
      destruct (fieldsPresent_throws_inv _ _ _ _ Hf) as [-> _]. by eexists.
Qed.

Lemma base64url_text_no_bar (s : string) :
  base64url_text s -> Str.contains "|" s = false.
Proof.
  induction s as [|c r IH]; [reflexivity|].
  cbn [base64url_text]. intros [Hc Hr]. simpl. rewrite (IH Hr), orb_false_r.
  destruct (Ascii.eqb_spec c "|") as [->|]; [discriminate|reflexivity].
Qed.

(** A string is cut in one way only at its last bar. *)
Lemma last_bar_unique (a a' y y' : string) :
  Str.contains "|" y = false -> Str.contains "|" y' = false ->
  a ++ "|" ++ y = a' ++ "|" ++ y' -> a = a' /\ y = y'.
Proof.
  intros Hy Hy'. revert a'.
  induction a as [|c a IH]; intros [|c' a'] Heq;
    rewrite ?append_cons, ?append_nil_l in Heq.
  - injection Heq as ->. by split.
  - injection Heq as <- ->. exfalso. rewrite contains_app in Hy.
    rewrite ?append_cons, ?append_nil_l in Hy. simpl in Hy. by rewrite orb_true_r in Hy.
  - injection Heq as -> <-. exfalso. rewrite contains_app in Hy'.
    rewrite ?append_cons, ?append_nil_l in Hy'. simpl in Hy'. by rewrite orb_true_r in Hy'.
  - injection Heq as -> Heq.
    destruct (IH a') as [-> ->]; [|by split].
    by rewrite ?append_cons, ?append_nil_l.
Qed.

(** The fingerprint of a key that [validJWK] accepts. *)
Lemma keyFingerprint_valid (h : list object) (jwk : value) :
  validJWK h jwk = Ok true ->
  (exists n, prop h jwk "kty" = VString "RSA" /\ prop h jwk "n" = VString n /\
        base64url_text n /\ keyFingerprint h jwk = Ok (VString n)) \/
  (exists crv x y,
     prop h jwk "kty" = VString "EC" /\ prop h jwk "crv" = VString crv /\
     prop h jwk "x" = VString x /\ prop h jwk "y" = VString y /\
     base64url_text x /\ base64url_text y /\
     keyFingerprint h jwk = Ok (VString ((crv ++ "|" ++ x) ++ "|" ++ y))).
Proof.
  intros Hv.
  destruct (validJWK_inv h jwk Hv) as (l & o & -> & Hl & Hs & _ & Hcase).
  unfold keyFingerprint.
  destruct Hcase as [(Hk & n & e & Hn & _ & Tn & _)
                    |(Hk & crv & x & y & Hc & Hx & Hy & Tx & Ty)];
    rewrite (fieldsPresent_kty h l o _ Hl Hs Hk), (prop_own _ _ _ _ _ Hl Hk).
  - left. exists n. rewrite (prop_own _ _ _ _ _ Hl Hn).
    repeat split; try assumption.
  - right. exists crv, x, y.
    rewrite (prop_own _ _ _ _ _ Hl Hc), (prop_own _ _ _ _ _ Hl Hx),
      (prop_own _ _ _ _ _ Hl Hy).
    repeat split; try assumption.
    cbn [negb String.eqb Ascii.eqb Bool.eqb]. unfold concat.
    rewrite !to_string_VString. f_equal. f_equal.
    by rewrite append_nil_l, !append_assoc.
Qed.

Lemma bars_assoc (crv x y : string) :
  (crv ++ "|" ++ x) ++ "|" ++ y = crv ++ "|" ++ x ++ "|" ++ y.
Proof. by rewrite append_assoc. Qed.

(** X8. On a key that [validJWK] accepts, [keyFingerprint] does not throw: it
    returns [n] for an RSA key and [crv|x|y] for an EC key. *)
Theorem keyFingerprint_of_valid (h : list object) (jwk : value) :
  validJWK h jwk = Ok true ->
  (exists n, prop h jwk "kty" = VString "RSA" /\ prop h jwk "n" = VString n /\
        keyFingerprint h jwk = Ok (VString n)) \/
  (exists crv x y,
     prop h jwk "kty" = VString "EC" /\ prop h jwk "crv" = VString crv /\
     prop h jwk "x" = VString x /\ prop h jwk "y" = VString y /\
     keyFingerprint h jwk = Ok (VString (crv ++ "|" ++ x ++ "|" ++ y))).
Proof.
  intros Hv. destruct (keyFingerprint_valid h jwk Hv)
    as [(n & Hk & Hn & _ & Hfp)|(crv & x & y & Hk & Hc & Hx & Hy & _ & _ & Hfp)].
  - left. by exists n.
  - right. exists crv, x, y. rewrite Hfp, bars_assoc. by repeat split.
Qed.

Lemma keyFingerprint_of_valid_witness :
  keyFingerprint [rsa_private; rsa_public; ec_public] (VRef 2) =
    Ok (VString "P-256|f83O|x_FE").
Proof.
  destruct (keyFingerprint_of_valid [rsa_private; rsa_public; ec_public]
              (VRef 2) eq_refl)
    as [(n & Hk & _)|(crv & x & y & _ & Hc & Hx & Hy & Hfp)];
    [discriminate|].
  injection Hc as <-. injection Hx as <-. injection Hy as <-. exact Hfp.
Defined.

(** X9. Two keys that [validJWK] accepts and that have the same fingerprint
    have the same [kty] and the same [n] (RSA), or the same [crv], [x]
    and [y] (EC): the separator cannot occur in a base64url field. *)
Theorem keyFingerprint_injective (h : list object) (a b : value) :
  validJWK h a = Ok true -> validJWK h b = Ok true ->
  keyFingerprint h a = keyFingerprint h b ->
  prop h a "kty" = prop h b "kty" /\
  (prop h a "kty" = VString "RSA" -> prop h a "n" = prop h b "n") /\
  (prop h a "kty" = VString "EC" ->
   prop h a "crv" = prop h b "crv" /\ prop h a "x" = prop h b "x" /\
   prop h a "y" = prop h b "y").
Proof.
  intros Ha Hb Heq.
  destruct (keyFingerprint_valid h a Ha)
    as [(n & Hk & Hn & Tn & Hfp)|(crv & x & y & Hk & Hc & Hx & Hy & Tx & Ty & Hfp)];
  destruct (keyFingerprint_valid h b Hb)
    as [(n' & Hk' & Hn' & Tn' & Hfp')
       |(crv' & x' & y' & Hk' & Hc' & Hx' & Hy' & Tx' & Ty' & Hfp')];
  rewrite Hfp, Hfp' in Heq; injection Heq as Heq.
  - subst n'. rewrite Hk, Hk', Hn, Hn'. split; [reflexivity|].
    split; [reflexivity|intros [=]].
  - exfalso. apply base64url_text_no_bar in Tn. rewrite Heq in Tn.
    rewrite !contains_app in Tn. simpl in Tn. by rewrite orb_true_r in Tn.
  - exfalso. apply base64url_text_no_bar in Tn'. rewrite <- Heq in Tn'.
    rewrite !contains_app in Tn'. simpl in Tn'. by rewrite orb_true_r in Tn'.
  - destruct (last_bar_unique _ _ _ _ (base64url_text_no_bar _ Ty)
                (base64url_text_no_bar _ Ty') Heq) as [Heq1 ->].
    destruct (last_bar_unique _ _ _ _ (base64url_text_no_bar _ Tx)
                (base64url_text_no_bar _ Tx') Heq1) as [-> ->].
    rewrite Hk, Hk', Hc, Hc', Hx, Hx', Hy, Hy'.
    split; [reflexivity|]. split; [intros [=]|by intros _].
Qed.

Lemma validSignature_iff_witness :
  validSignature [rsa_private; rsa_public; signature_object] (VRef 2) =
    Ok true.
Proof.
  destruct (validSignature_iff [rsa_private; rsa_public; signature_object]
              (VRef 2)) as [Hacc _].
  apply Hacc.
  exists 2%nat, signature_object, "RS256", "bm9uY2U", "c2ln_-", (VRef 1).
  repeat split; try reflexivity; simpl; intuition reflexivity.
Defined.

Lemma keyFingerprint_injective_witness :
  prop [rsa_public; rsa_public] (VRef 0) "n" =
  prop [rsa_public; rsa_public] (VRef 1) "n".
Proof.
  destruct (keyFingerprint_injective [rsa_public; rsa_public]
              (VRef 0) (VRef 1) eq_refl eq_refl eq_refl) as (_ & Hn & _).
  apply Hn. reflexivity.
Defined.

(** X10. [keyFingerprint] on a key that was not validated.  An object that owns
    a field named [hasOwnProperty] makes it throw a [TypeError].  On any
    other object: without [kty] it throws [Error], Invalid key; with
    another [kty] than RSA and EC it throws [Error], Unrecognized key
    type; for an RSA key with a string [n] it returns [n] whatever the
    other fields, and the text undefined when [n] is missing. *)
Theorem keyFingerprint_unvalidated (h : list object) (l : loc) (o : object) :
  h !! l = Some o ->
  (is_Some (props o !! "hasOwnProperty") ->
     exists msg, keyFingerprint h (VRef l) = Throw (TypeError msg)) /\
  (props o !! "hasOwnProperty" = None ->
     (props o !! "kty" = None ->
        keyFingerprint h (VRef l) = Throw (Error "Invalid key")) /\
     (forall k, props o !! "kty" = Some k ->
        k <> VString "RSA" -> k <> VString "EC" ->
        keyFingerprint h (VRef l) = Throw (Error "Unrecognized key type")) /\
     (forall n, props o !! "kty" = Some (VString "RSA") ->
        props o !! "n" = Some (VString n) ->
        keyFingerprint h (VRef l) = Ok (VString n)) /\
     (props o !! "kty" = Some (VString "RSA") -> props o !! "n" = None ->
        keyFingerprint h (VRef l) = Ok (VString "undefined"))).
Proof.
  intros Hl. unfold keyFingerprint. split.
  - intros Hs. eexists. by rewrite (fieldsPresent_shadowed h l o _ Hl Hs).
  - intros Hs. repeat split.
    + intros Hk. rewrite (fieldsPresent_plain h l o _ Hl Hs). cbn [forallb].
      rewrite (hasOwnProperty_named h l o "kty" Hl) by reflexivity.
      rewrite Hk.
      by rewrite bool_decide_eq_false_2 by (intros [? ?]; discriminate).
    + intros k Hk Hr He.
      rewrite (fieldsPresent_kty h l o _ Hl Hs Hk), (prop_own _ _ _ _ _ Hl Hk).
      destruct k as [| | | kty |]; try reflexivity.
      destruct (String.eqb_spec kty "RSA") as [->|]; [congruence|].
      destruct (String.eqb_spec kty "EC") as [->|]; [congruence|reflexivity].
    + intros n Hk Hn.
      rewrite (fieldsPresent_kty h l o _ Hl Hs Hk), (prop_own _ _ _ _ _ Hl Hk),
        (prop_own _ _ _ _ _ Hl Hn). reflexivity.
    + intros Hk Hn.
      rewrite (fieldsPresent_kty h l o _ Hl Hs Hk), (prop_own _ _ _ _ _ Hl Hk).
      cbn [String.eqb Ascii.eqb Bool.eqb]. unfold prop. rewrite Hl, Hn.
      reflexivity.
Qed.

Lemma keyFingerprint_unvalidated_witness :
  keyFingerprint [rsa_private; bare_rsa; null_kty] (VRef 0) =
    Ok (VString "AQAB-_") /\
  keyFingerprint [rsa_private; bare_rsa; null_kty] (VRef 1) =
    Ok (VString "undefined") /\
  keyFingerprint [rsa_private; bare_rsa; null_kty] (VRef 2) =
    Throw (Error "Unrecognized key type") /\
  exists msg,
    keyFingerprint [shadowing_public] (VRef 0) = Throw (TypeError msg).
Proof.
  split; [|split; [|split]].
  - destruct (keyFingerprint_unvalidated [rsa_private; bare_rsa; null_kty]
                0%nat rsa_private eq_refl) as (_ & Hplain).
    destruct (Hplain eq_refl) as (_ & _ & Hn & _). apply Hn; reflexivity.
  - destruct (keyFingerprint_unvalidated [rsa_private; bare_rsa; null_kty]
                1%nat bare_rsa eq_refl) as (_ & Hplain).
    destruct (Hplain eq_refl) as (_ & _ & _ & Hu). apply Hu; reflexivity.
  - destruct (keyFingerprint_unvalidated [rsa_private; bare_rsa; null_kty]
                2%nat null_kty eq_refl) as (_ & Hplain).
    destruct (Hplain eq_refl) as (_ & Hk & _).
    apply (Hk VNull); [reflexivity|discriminate|discriminate].
  - destruct (keyFingerprint_unvalidated [shadowing_public] 0%nat
                shadowing_public eq_refl) as (Hshadow & _).
    apply Hshadow. by eexists.
Defined.
End KeyProperties.

(** ** Further properties: the Link header *)

Section LinkProperties.
Import JS Link Protocol Base64Check Vocabulary Notions.

Lemma split_no_sep (sep : ascii) (x : string) :
  Str.contains sep x = false -> Str.split sep x = [x].
Proof.
  induction x as [|c x IH]; [reflexivity|]. simpl.
  destruct (Ascii.eqb c sep); [discriminate|]. simpl.
  intros Hx. by rewrite (IH Hx).
Qed.

Lemma split_cut (sep : ascii) (x y : string) :
  Str.contains sep x = false ->
  Str.split sep (x ++ String sep y) = x :: Str.split sep y.
Proof.
  induction x as [|c x IH]; intros Hx.
  - rewrite append_nil_l. simpl. by rewrite Ascii.eqb_refl.
  - rewrite append_cons. simpl in *.
    destruct (Ascii.eqb c sep); [discriminate|]. simpl in Hx.
    by rewrite (IH Hx).
Qed.

Lemma span_cut (p : ascii -> bool) (x : string) (c : ascii) (y : string) :
  Str.all_chars p x = true -> p c = false ->
  Str.span p (x ++ String c y) = (x, String c y).
Proof.
  induction x as [|a x IH]; intros Hx Hc.
  - rewrite append_nil_l. simpl. by rewrite Hc.
  - rewrite append_cons. simpl in *. apply andb_prop in Hx as [-> Hx].
    by rewrite (IH Hx Hc).
Qed.

Lemma no_char_all (c : ascii) (x : string) :
  Str.contains c x = false ->
  Str.all_chars (fun a => negb (Ascii.eqb a c)) x = true.
Proof.
  induction x as [|a x IH]; [reflexivity|]. simpl.
  destruct (Ascii.eqb a c); [discriminate|]. simpl. exact IH.
Qed.

Lemma closing_cut (u : string) :
  Str.contains ">" u = false -> closing (u ++ ">") = Some u.
Proof.
  induction u as [|c u IH]; [reflexivity|].
  rewrite append_cons. simpl.
  destruct (Ascii.eqb c ">"); [discriminate|]. simpl.
  intros Hu. by rewrite (IH Hu).
Qed.

Lemma append_not_empty (a b : string) : b <> "" -> a ++ b <> "".
Proof. destruct a; [by rewrite append_nil_l|by rewrite append_cons]. Qed.

Lemma trim_right_cut (a b : string) :
  Str.trim_right b <> "" -> Str.trim_right (a ++ b) = a ++ Str.trim_right b.
Proof.
  intros Hb. induction a as [|c a IH]; [reflexivity|].
  rewrite !append_cons. simpl. rewrite IH.
  destruct (a ++ Str.trim_right b) eqn:E; [|reflexivity].
  exfalso. by apply (append_not_empty a (Str.trim_right b)).
Qed.

Lemma trim_right_quoted (a : string) :
  Str.trim_right (a ++ dq) = a ++ dq.
Proof. apply (trim_right_cut a dq). discriminate. Qed.

Lemma plain_url_inv (u : string) :
  plain_url u = true ->
  Str.contains "," u = false /\ Str.contains ";" u = false /\
  Str.contains ">" u = false.
Proof.
  unfold plain_url. intros H.
  repeat (apply andb_prop in H as [H ?]).
  repeat split; by apply negb_true_iff.
Qed.

Lemma plain_rel_inv (r : string) :
  plain_rel r = true ->
  r <> "" /\ r <> "__proto__" /\ Str.contains quote r = false /\
  Str.contains "," r = false /\ Str.contains ";" r = false.
Proof.
  unfold plain_rel. intros H.
  repeat (apply andb_prop in H as [H ?]).
  repeat split; try (by apply negb_true_iff).
  - intros ->. discriminate.
  - intros ->. match goal with H : negb (String.eqb _ _) = true |- _ =>
      discriminate H end.
Qed.

Lemma match_attr_rel (r : string) :
  r <> "" -> Str.contains quote r = false ->
  match_attr ("rel=" ++ dq ++ r ++ dq) = Some ("rel", r).
Proof.
  intros Hne Hq.
  change ("rel=" ++ dq ++ r ++ dq)
    with (String "r" (String "e" (String "l" (String "="
            (String quote (r ++ String quote "")))))).
  unfold match_attr, quote in *.
  cbn [Str.span Ascii.eqb Bool.eqb negb orb snd].
  rewrite (span_cut _ r "034"%char "") by
    (first [by apply no_char_all | reflexivity]).
  destruct r as [|c r]; [done|]. reflexivity.
Qed.

Lemma trim_attr (r : string) :
  Str.trim (" rel=" ++ dq ++ r ++ dq) = "rel=" ++ dq ++ r ++ dq.
Proof.
  unfold Str.trim.
  change (" rel=" ++ dq ++ r ++ dq) with (String " " ("rel=" ++ dq ++ r ++ dq)).
  change (Str.trim_left (String " " ("rel=" ++ dq ++ r ++ dq)))
    with ("rel=" ++ dq ++ r ++ dq).
  replace ("rel=" ++ dq ++ r ++ dq) with (("rel=" ++ dq ++ r) ++ dq)
    by (by rewrite !append_assoc).
  apply trim_right_quoted.
Qed.

Lemma trim_link (u r : string) :
  Str.trim (format_link u r) = format_link u r.
Proof.
  unfold Str.trim.
  change (Str.trim_left (format_link u r)) with (format_link u r).
  replace (format_link u r) with (("<" ++ u ++ ">; rel=" ++ dq ++ r) ++ dq)
    by (unfold format_link; by rewrite !append_assoc).
  apply trim_right_quoted.
Qed.

Lemma split_link (u r : string) :
  Str.contains ";" u = false -> Str.contains ";" r = false ->
  Str.split ";" (format_link u r) =
  [String "<" (u ++ ">"); " rel=" ++ dq ++ r ++ dq].
Proof.
  intros Hu Hr.
  replace (format_link u r)
    with (String "<" (u ++ ">") ++ String ";" (" rel=" ++ dq ++ r ++ dq))
    by (unfold format_link; rewrite !append_cons, append_assoc; reflexivity).
  rewrite split_cut.
  - f_equal. apply split_no_sep.
    rewrite !contains_app, Hr. reflexivity.
  - simpl. rewrite contains_app, Hu. reflexivity.
Qed.

(** One well-formed link is read back as its URL and its relation. *)
Lemma parse_segment_link (u r : string) :
  plain_url u = true -> plain_rel r = true ->
  parse_segment (format_link u r) =
  <["url" := VString u]> (<["rel" := VString r]> ∅).
Proof.
  intros Hu Hr.
  destruct (plain_url_inv u Hu) as (_ & Hu2 & Hu3).
  destruct (plain_rel_inv r Hr) as (Hne & Hproto & Hq & _ & Hr2).
  unfold parse_segment.
  rewrite trim_link, (split_link u r Hu2 Hr2).
  cbn [fold_left]. rewrite trim_attr, (match_attr_rel r Hne Hq).
  cbn [unbracket Ascii.eqb Bool.eqb]. by rewrite (closing_cut u Hu3).
Qed.

Lemma parse_segment_space (s : string) :
  parse_segment (String " " s) = parse_segment s.
Proof. reflexivity. Qed.

Lemma format_link_no_comma (u r : string) :
  plain_url u = true -> plain_rel r = true ->
  Str.contains "," (format_link u r) = false.
Proof.
  intros Hu Hr. destruct (plain_url_inv u Hu) as (Hu1 & _).
  destruct (plain_rel_inv r Hr) as (_ & _ & _ & Hr1 & _).
  unfold format_link, dq, quote. rewrite !contains_app, Hu1, Hr1. reflexivity.
Qed.

Lemma format_links_one (u r : string) :
  format_links [(u, r)] = format_link u r.
Proof. reflexivity. Qed.

Lemma format_links_more (u r : string) (p : string * string)
    (l : list (string * string)) :
  format_links ((u, r) :: p :: l) =
  format_link u r ++ String "," (" " ++ format_links (p :: l)).
Proof. destruct p. reflexivity. Qed.

(** The segments of a formatted header, after the first, begin with the
    space that follows the comma. *)
Lemma relations_fold (l : list (string * string)) (pad : string)
    (acc : gmap string value) :
  Forall plain_link l -> l <> [] ->
  (pad = "" \/ pad = " ") ->
  fold_left
    (fun acc info =>
       match info !! "rel" with
       | Some rel =>
           assign (to_string [] rel) (default VUndefined (info !! "url")) acc
       | None => acc
       end)
    (map parse_segment (Str.split "," (pad ++ format_links l))) acc =
  fold_left (fun acc '(url, rel) => <[rel := VString url]> acc) l acc.
Proof.
  intros Hall. revert pad acc.
  induction Hall as [|[u r] l [Hu Hr] Hall IH]; intros pad acc Hne Hpad; [done|].
  simpl in Hu, Hr.
  destruct (plain_rel_inv r Hr) as (_ & Hproto & _).
  assert (Hseg : parse_segment (pad ++ format_link u r) =
                 <["url" := VString u]> (<["rel" := VString r]> ∅)).
  { destruct Hpad as [-> | ->].
    - rewrite append_nil_l. by apply parse_segment_link.
    - change (" " ++ format_link u r) with (String " " (format_link u r)).
      rewrite parse_segment_space. by apply parse_segment_link. }
  assert (Hcomma : Str.contains "," (pad ++ format_link u r) = false).
  { rewrite contains_app, (format_link_no_comma u r Hu Hr).
    by destruct Hpad as [-> | ->]. }
  assert (Hstep : forall acc',
            match (<["url" := VString u]> (<["rel" := VString r]> ∅
                     : gmap string value)) !! "rel" with
            | Some rel =>
                assign (to_string [] rel)
                  (default VUndefined
                     ((<["url" := VString u]> (<["rel" := VString r]> ∅
                         : gmap string value)) !! "url")) acc'
            | None => acc'
            end = <[r := VString u]> acc').
  { intros acc'. rewrite lookup_insert_ne by discriminate.
    rewrite !lookup_insert_eq. simpl default.
    rewrite to_string_VString. unfold assign.
    destruct (String.eqb_spec r "__proto__"); [contradiction|reflexivity]. }
  destruct l as [|[u' r'] l'].
  - rewrite format_links_one, (split_no_sep _ _ Hcomma). cbn [map fold_left].
    by rewrite Hseg, Hstep.
  - rewrite format_links_more, <- append_assoc, (split_cut _ _ _ Hcomma).
    cbn [map fold_left]. rewrite Hseg, Hstep.
    apply IH; [discriminate|by right].
Qed.

Lemma links_map_last (l : list (string * string)) (u r : string) :
  links_map (l ++ [(u, r)]) !! r = Some (VString u).
Proof.
  unfold links_map. rewrite fold_left_app. simpl. apply lookup_insert_eq.
Qed.

(** X11. A header made of links written [<url>; rel=...] with the relation in
    quotes, separated by a comma and a space, whose URLs hold no comma,
    semicolon or [>] and whose relations are non-empty, are not
    [__proto__] and hold no quote, comma or semicolon, is parsed by
    [_parseLink] into the map from each relation to its URL; of two
    links with the same relation the later one wins. *)
Theorem parseLink_formatted (l : list (string * string)) :
  Forall plain_link l ->
  _parseLink (VString (format_links l)) = Some (links_map l) /\
  (forall l' u r, l = (l' ++ [(u, r)])%list ->
     exists m, _parseLink (VString (format_links l)) = Some m /\
          m !! r = Some (VString u)).
Proof.
  intros Hall.
  assert (Hparse : _parseLink (VString (format_links l)) = Some (links_map l)).
  { simpl. f_equal. destruct l as [|p l]; [reflexivity|].
    unfold relations, links_map.
    rewrite <- (append_nil_l (format_links (p :: l))).
    apply relations_fold; [exact Hall|discriminate|by left]. }
  split; [exact Hparse|].
  intros l' u r ->. exists (links_map (l' ++ [(u, r)])).
  split; [exact Hparse|apply links_map_last].
Qed.

Lemma parseLink_formatted_witness :
  _parseLink (VString (format_links [("a", "x"); ("b", "x")])) =
  Some (<["x" := VString "b"]> (<["x" := VString "a"]> ∅)).
Proof.
  apply (parseLink_formatted [("a", "x"); ("b", "x")]).
  repeat constructor.
Defined.

(** X12. The response handler of [_post], on a JSON object body with a [Link]
    header: the object is returned with its own fields, [getLink] on it
    gives the URL of each relation that the header declares,
    [getLocation] gives the [Location] header, the [replay-nonce] header
    is deposited when present, and no object that existed before is
    changed. *)
Theorem post_response_metadata (w : world) (resp : response) (o : object)
    (link : string) :
  body resp = Parsed o -> headers resp !! "link" = Some link ->
  exists w' out o',
    on_post_response false resp w = (w', Fulfilled (VRef out)) /\
    heap w' !! out = Some o' /\
    kind_of o' = kind_of o /\ props o' = props o /\
    (forall name u, name <> "" -> relations link !! name = Some u ->
       getLink (heap w') (VRef out) (VString name) = Ok u) /\
    getLocation (heap w') (VRef out) = Ok (header resp "location") /\
    nonces w' = deposit (header resp "replay-nonce") (nonces w) /\
    (forall l, (l < List.length (heap w))%nat -> heap w' !! l = heap w !! l).
Proof.
  intros Hb Hlink. rewrite (on_post_response_object w resp o Hb).
  assert (Hh : header resp "link" = VString link)
    by (unfold header; by rewrite Hlink).
  rewrite Hh. simpl _parseLink.
  set (out := List.length (heap w)).
  assert (Hlen : (out < List.length ((heap w ++ [o]) ++ [plain (relations link)]))%nat)
    by (rewrite !List.length_app; simpl; unfold out; lia).
  eexists _, out, _. split; [reflexivity|]. simpl heap. simpl nonces.
  split; [by apply list_lookup_insert_eq|].
  split; [reflexivity|]. split; [reflexivity|].
  assert (Hrel : (<[out := Object (kind_of o) (props o) (Some (VRef (S out)))
                              (Some (header resp "location"))]>
                    ((heap w ++ [o]) ++ [plain (relations link)]))%list
                 !! S out = Some (plain (relations link))).
  { rewrite list_lookup_insert_ne by lia.
    apply list_lookup_middle. rewrite List.length_app. simpl. unfold out. lia. }
  split; [|split; [|split]].
  - intros name u Hname Hu. unfold getLink, LINKS_of.
    rewrite list_lookup_insert_eq by exact Hlen. simpl.
    destruct name as [|c name]; [done|]. simpl.
    unfold prop.
    match goal with
    | |- context [match ?x with Some _ => _ | None => _ end] =>
        replace x with (Some (plain (relations link)))
          by (symmetry; exact Hrel)
    end.
    cbn [props plain].
    match goal with
    | |- context [default VUndefined ?x] =>
        replace x with (Some u) by (symmetry; exact Hu)
    end.
    reflexivity.
  - unfold getLocation, LOCATION_of.
    rewrite list_lookup_insert_eq by exact Hlen. reflexivity.
  - reflexivity.
  - intros l Hl. rewrite list_lookup_insert_ne by (unfold out; lia).
    rewrite <- app_assoc. by rewrite lookup_app_l.
Qed.

Lemma post_response_metadata_witness :
  exists w' out,
    on_post_response false
      (Response (<["link" := format_link "https://ca.example/terms" "terms-of-service"]>
                   (<["location" := "https://ca.example/acme/reg/1"]> ∅))
                (Parsed (plain ∅))) fresh_client
    = (w', Fulfilled (VRef out)) /\
    getLink (heap w') (VRef out) (VString "terms-of-service") =
      Ok (VString "https://ca.example/terms") /\
    getLocation (heap w') (VRef out) = Ok (VString "https://ca.example/acme/reg/1").
Proof.
  destruct (post_response_metadata fresh_client
              (Response (<["link" := format_link "https://ca.example/terms" "terms-of-service"]>
                           (<["location" := "https://ca.example/acme/reg/1"]> ∅))
                        (Parsed (plain ∅)))
              (plain ∅)
              (format_link "https://ca.example/terms" "terms-of-service")
              eq_refl)
    as (w' & out & o' & Hpost & _ & _ & _ & Hlinks & Hloc & _); [reflexivity|].
  exists w', out. split; [exact Hpost|]. split; [|exact Hloc].
  apply Hlinks; [discriminate|reflexivity].
Defined.
End LinkProperties.

(** ** Further properties: runs of the client *)

Section RunProperties.
Import JS Protocol Base64Check Vocabulary Notions.
Ltac open_step :=
  unfold step, do_call, do_tick, do_signed, do_reply, newRegistration,
    updateRegistration, respondToChallenge, directory, on_directory_newReg,
    _post, _nonce, on_nonce, on_signed, on_post_response,
    on_directory_response, on_probe_response, new_Buffer, receive, deposit,
    spawn, set_job, dispatch, alloc in *.

Ltac split_step := open_step; repeat case_match; simplify_eq; simpl in *.

Lemma step_user_agent (hp : string) (e : event) (w : world) :
  AGENT w !! "User-Agent" = Some hp /\
  Forall (fun r => req_headers r !! "User-Agent" = Some hp) (sent w) ->
  AGENT (fst (step e w)) !! "User-Agent" = Some hp /\
  Forall (fun r => req_headers r !! "User-Agent" = Some hp)
         (sent (fst (step e w))).
Proof.
  intros [Ha Hs]. destruct e as [c|q|q o|q o]; [destruct c|..];
    split_step;
    rewrite ?lookup_insert_ne by discriminate;
    (split; [assumption|]);
    rewrite ?Forall_app; repeat split; try assumption;
    repeat constructor; simpl;
    rewrite ?lookup_insert_ne by discriminate; assumption.
Qed.

(** X13. In any run of the client, that is any sequence of calls to
    [directory], [newRegistration], [updateRegistration],
    [respondToChallenge] and [_post] and of their callbacks, every
    request sent carries the [User-Agent] header of the module. *)
Theorem every_request_identifies (homepage : string) (h : list object)
    (key uri : value) (w0 : world) (es : list event) :
  constructor homepage h key uri = Ok w0 ->
  Forall (fun r => req_headers r !! "User-Agent" = Some homepage)
         (sent (run es w0)).
Proof.
  intros Hc.
  apply (run_invariant
           (fun w => AGENT w !! "User-Agent" = Some homepage /\
                     Forall (fun r => req_headers r !! "User-Agent" = Some homepage)
                            (sent w))).
  - intros e w. apply step_user_agent.
  - unfold constructor in Hc. destruct (truthy key); [|discriminate].
    injection Hc as <-. simpl. split; [apply lookup_singleton_eq|constructor].
Qed.

Lemma leaks_snoc (l : list request) (r : request) :
  content_type_leaks l ->
  (req_headers r !! "Content-Type" = Some "application/json" \/
   Forall (fun r' => text_body r' = false) l) ->
  content_type_leaks (l ++ [r]).
Proof.
  intros Hl Hr i j ri rj Hij Hi Hti Hj.
  assert (Hjlt : (j < List.length (l ++ [r]))%nat) by (by eapply lookup_lt_Some).
  rewrite List.length_app in Hjlt. simpl in Hjlt.
  assert (Hil : l !! i = Some ri) by (rewrite lookup_app_l in Hi; [done|lia]).
  destruct (decide (j < List.length l)%nat) as [Hlt|Hge].
  - rewrite lookup_app_l in Hj by exact Hlt. by apply (Hl i j ri rj).
  - assert (j = List.length l) by lia. subst j.
    rewrite list_lookup_middle in Hj by reflexivity. injection Hj as <-.
    destruct Hr as [Hr|Hr]; [exact Hr|].
    rewrite Forall_lookup in Hr. rewrite (Hr i ri Hil) in Hti. discriminate.
Qed.

Lemma step_content_type (e : event) (w : world) :
  content_type_state w -> content_type_state (fst (step e w)).
Proof.
  unfold content_type_state. intros (Hl & Hs & Ht).
  destruct e as [c|q|q o|q o]; [destruct c|..]; split_step;
    try (split; [|split]; assumption);
    (split; [|split];
     [ apply leaks_snoc; [assumption|]; simpl;
       first [ left; apply lookup_insert_eq
             | destruct Hs as [Hs|Hs]; [left|right]; assumption ]
     | first [ left; apply lookup_insert_eq
             | destruct Hs as [Hs|Hs]; [left; assumption|right];
               apply Forall_app; split; [assumption|];
               repeat constructor ]
     | apply Forall_app; split; [assumption|];
       repeat constructor; simpl;
       first [ intros _; apply lookup_insert_eq | discriminate ] ]).
Qed.

(** X14. [_post] in binary mode writes [Content-Type] into the header object
    that all requests share: in any run, once a POST with a text body
    has been sent, that POST and every later request, of whatever kind,
    carry [Content-Type: application/json]. *)
Theorem content_type_sticks (homepage : string) (h : list object)
    (key uri : value) (w0 : world) (es : list event) :
  constructor homepage h key uri = Ok w0 ->
  forall i j ri rj,
    (i <= j)%nat ->
    sent (run es w0) !! i = Some ri -> text_body ri = true ->
    sent (run es w0) !! j = Some rj ->
    req_headers rj !! "Content-Type" = Some "application/json".
Proof.
  intros Hc.
  assert (Hst : content_type_state (run es w0)).
  { apply (run_invariant _ step_content_type).
    unfold constructor in Hc. destruct (truthy key); [|discriminate].
    injection Hc as <-. split; [|split].
    - intros i j ri rj _ Hi. simpl in Hi. by rewrite lookup_nil in Hi.
    - right. constructor.
    - constructor. }
  destruct Hst as (Hl & _ & Ht).
  intros i j ri rj Hij Hi Hti Hj.
  destruct (decide (i = j)) as [->|Hne].
  - rewrite Hi in Hj. injection Hj as <-.
    rewrite Forall_lookup in Ht. by apply (Ht j ri).
  - apply (Hl i j ri rj); [lia|assumption..].
Qed.

Example content_type_sticks_sample :
  let w := run [Call (Post (VString "https://ca.example/acme/new-cert")
                        (VString "csr") true);
                Reply 0 (Fulfilled (Response (<["replay-nonce" := "n1"]> ∅)
                                      (Primitive VUndefined)));
                Tick 0; Signed 0 (Fulfilled (VString "jws"));
                Call Directory] fresh_client in
  map req_method (sent w) = [HEAD; POST; GET] /\
  map (fun r => req_headers r !! "Content-Type") (sent w) =
    [None; Some "application/json"; Some "application/json"].
Proof. vm_compute. split; reflexivity. Qed.

Lemma content_type_sticks_witness :
  exists r,
    sent (run [Call (Post (VString "https://ca.example/acme/new-cert")
                       (VString "csr") true);
               Reply 0 (Fulfilled (Response (<["replay-nonce" := "n1"]> ∅)
                                     (Primitive VUndefined)));
               Tick 0; Signed 0 (Fulfilled (VString "jws"));
               Call Directory] fresh_client) !! 2%nat = Some r /\
    req_headers r !! "Content-Type" = Some "application/json".
Proof.
  eexists. split; [vm_compute; reflexivity|].
  eapply (content_type_sticks "https://github.com/isaackwan/node-acme" []
            (VString "key") VUndefined fresh_client
            [Call (Post (VString "https://ca.example/acme/new-cert")
                     (VString "csr") true);
             Reply 0 (Fulfilled (Response (<["replay-nonce" := "n1"]> ∅)
                                   (Primitive VUndefined)));
             Tick 0; Signed 0 (Fulfilled (VString "jws"));
             Call Directory] eq_refl 1%nat 2%nat);
    [lia|vm_compute; reflexivity|reflexivity|vm_compute; reflexivity].
Defined.

Lemma count_insert {A : Type} (f : A -> bool) (l : list A) (i : nat) (x y : A) :
  l !! i = Some x ->
  (List.length (List.filter f (<[i := y]> l)) + (if f x then 1 else 0) =
   List.length (List.filter f l) + (if f y then 1 else 0))%nat.
Proof.
  revert i. induction l as [|a l IH]; intros [|i] Hi; simpl in *; try done.
  - injection Hi as ->. destruct (f x), (f y); simpl; lia.
  - specialize (IH i Hi). destruct (f a); simpl; lia.
Qed.

Lemma count_set {A : Type} (f : A -> bool) (l : list A) (i : nat) (x y : A) :
  l !! i = Some x ->
  List.length (List.filter f (<[i := y]> l)) =
  (List.length (List.filter f l) + (if f y then 1 else 0)
   - (if f x then 1 else 0))%nat.
Proof.
  intros Hi. pose proof (count_insert f l i x y Hi).
  destruct (f x), (f y); lia.
Qed.

Lemma count_pos {A : Type} (f : A -> bool) (l : list A) (i : nat) (x : A) :
  l !! i = Some x -> f x = true -> (1 <= List.length (List.filter f l))%nat.
Proof.
  revert i. induction l as [|a l IH]; intros [|i] Hi Hx; simpl in *; try done.
  - injection Hi as ->. rewrite Hx. simpl. lia.
  - specialize (IH i Hi Hx). destruct (f a); simpl; lia.
Qed.

Lemma step_signed_before_post (e : event) (w : world) :
  (posts w + signing_jobs w <= List.length (signed w))%nat ->
  (posts (fst (step e w)) + signing_jobs (fst (step e w))
   <= List.length (signed (fst (step e w))))%nat.
Proof.
  unfold posts, signing_jobs. intros Hw.
  destruct e as [c|q|q o|q o]; [destruct c|..]; split_step;
    try match goal with
        | H : jobs _ !! _ = Some (Signing _ _) |- _ =>
            pose proof (count_pos is_signing _ _ _ H eq_refl)
        end;
    try (erewrite count_set by eassumption);
    rewrite ?List.filter_app, ?List.length_app; simpl; lia.
Qed.

(** X15. In any run, the POSTs sent plus the jobs that wait for their envelope
    never exceed the calls made to the signer: nothing is posted that
    was not signed first. *)
Theorem never_posts_unsigned (homepage : string) (h : list object)
    (key uri : value) (w0 : world) (es : list event) :
  constructor homepage h key uri = Ok w0 ->
  (posts (run es w0) + signing_jobs (run es w0)
   <= List.length (signed (run es w0)))%nat.
Proof.
  intros Hc. apply run_invariant.
  - intros e w. apply step_signed_before_post.
  - unfold constructor in Hc. destruct (truthy key); [|discriminate].
    injection Hc as <-. unfold posts, signing_jobs. simpl. lia.
Qed.

Lemma header_token (resp : response) (name : string) :
  truthy (header resp name) = true -> is_token (header resp name) = true.
Proof. unfold header. by destruct (headers resp !! name). Qed.

Lemma shift_tokens (pool l : list value) (v : value) :
  Forall (fun v => is_token v = true) pool -> shift pool = (v, l) ->
  Forall (fun v => is_token v = true) l /\
  (truthy v = true -> is_token v = true).
Proof.
  intros Hp Hs. destruct pool as [|x r]; simpl in Hs; injection Hs as <- <-.
  - split; [constructor|discriminate].
  - apply Forall_cons in Hp as [Hx Hr]. by split.
Qed.

Lemma step_signer_state (key : value) (e : event) (w : world) :
  signer_state key w -> signer_state key (fst (step e w)).
Proof.
  unfold signer_state. intros (Hk & Hn & Hj & Hs).
  destruct e as [c|q|q o|q o]; [destruct c|..]; split_step.
  all: repeat match goal with
       | H : shift _ = _ |- _ =>
           apply (shift_tokens _ _ _ Hn) in H; destruct H
       | H : Forall job_nonce_ok ?js, H' : ?js !! _ = Some (NonceReady _ _ _ _) |- _ =>
           let Hq := fresh "Hq" in
           pose proof (proj1 (Forall_lookup _ _) H _ _ H') as Hq;
           simpl in Hq; clear H'
       end.
  all: repeat split; try assumption.
  all: rewrite ?Forall_app; repeat split; try assumption.
  all: try (apply Forall_insert; [assumption|]).
  all: repeat constructor; simpl; auto using header_token.
Qed.

(** X16. In any run, every call to the signer passes the private key the client
    was built with and a nonce that is a non-empty string. *)
Theorem signer_gets_key_and_nonce (homepage : string) (h : list object)
    (key uri : value) (w0 : world) (es : list event) :
  constructor homepage h key uri = Ok w0 ->
  Forall (fun c => sc_key c = key /\
                   exists s, sc_nonce c = VString s /\ s <> "")
         (signed (run es w0)).
Proof.
  intros Hc.
  assert (Hst : signer_state key (run es w0)).
  { apply run_invariant.
    - intros e w. apply step_signer_state.
    - unfold constructor in Hc. destruct (truthy key); [|discriminate].
      injection Hc as <-. repeat split; constructor. }
  destruct Hst as (_ & _ & _ & Hs).
  eapply Forall_impl; [exact Hs|]. intros c [Hk Ht]. split; [exact Hk|].
  destruct (sc_nonce c) as [| | |s|]; try discriminate.
  exists s. split; [reflexivity|]. intros ->. discriminate.
Qed.

Lemma step_frame (e : event) (w : world) (l : loc) (o : object) :
  ~ writes_to_caller e ->
  heap w !! l = Some o -> heap (fst (step e w)) !! l = Some o.
Proof.
  intros He Hl.
  assert (Hlt : (l < List.length (heap w))%nat) by (by eapply lookup_lt_Some).
  destruct e as [c|q|q ot|q ot]; [destruct c|..]; simpl in He;
    try (exfalso; by apply He); split_step;
    try assumption; try (exfalso; by apply He).
  all: rewrite ?list_lookup_insert_ne by (rewrite ?List.length_app; simpl; lia).
  all: rewrite ?lookup_app_l by (rewrite ?List.length_app; simpl; lia).
  all: try assumption.
Qed.

(** X17. The objects of the caller, those that it passes to the client or gets
    from it, are the heap of a world.  Apart from [updateRegistration]
    and [respondToChallenge], which tag their argument, and from a
    response whose body is an object the caller holds, no event changes
    an object of this heap: [newRegistration] leaves the contacts as
    they are and [_post] its body.  The client's own state (the header
    object [AGENT], the nonce pool) is no part of the heap, and it does
    change. *)
Theorem untouched_objects (es : list event) (w : world) (l : loc) (o : object) :
  Forall (fun e => ~ writes_to_caller e) es ->
  heap w !! l = Some o -> heap (run es w) !! l = Some o.
Proof.
  revert w. induction es as [|e es IH]; intros w Hes Hl; [exact Hl|].
  apply Forall_cons in Hes as [He Hes]. rewrite run_cons.
  apply IH; [exact Hes|]. by apply step_frame.
Qed.

Lemma step_directory_uri (e : event) (w : world) (u : value) :
  directoryURI w = u /\
  Forall (fun r => is_directory_fetch r = true -> req_uri r = u) (sent w) ->
  directoryURI (fst (step e w)) = u /\
  Forall (fun r => is_directory_fetch r = true -> req_uri r = u)
         (sent (fst (step e w))).
Proof.
  intros [Hu Hs].
  destruct e as [c|q|q ot|q ot]; [destruct c|..]; split_step;
    (split; [reflexivity|]);
    rewrite ?Forall_app; repeat split; try assumption;
    repeat constructor; simpl; try discriminate; reflexivity.
Qed.

(** X18. The constructor throws [TypeError] on a falsy key; otherwise the
    client is built and, in any run, every fetch of the directory goes
    to the directory URI it was given, or to the staging default when
    that argument is falsy. *)
Theorem directory_fetched_from_configured_uri (homepage : string)
    (h : list object) (key uri : value) (es : list event) :
  (truthy key = false ->
   constructor homepage h key uri = Throw (TypeError "privateKey required")) /\
  (truthy key = true ->
   exists w0, constructor homepage h key uri = Ok w0 /\
     Forall (fun r => is_directory_fetch r = true ->
                      req_uri r = if truthy uri then uri
                                  else VString DEFAULTS_directoryURI)
            (sent (run es w0))).
Proof.
  unfold constructor. split; intros ->; simpl; [reflexivity|].
  eexists. split; [reflexivity|].
  apply (run_invariant
           (fun w => directoryURI w = (if truthy uri then uri
                                       else VString DEFAULTS_directoryURI) /\
                     Forall (fun r => is_directory_fetch r = true ->
                                      req_uri r = if truthy uri then uri
                                                  else VString DEFAULTS_directoryURI)
                            (sent w))).
  - intros e w. apply step_directory_uri.
  - simpl. split; [reflexivity|constructor].
Qed.

Lemma lookup_end {A : Type} (l : list A) (x : A) :
  ((l ++ [x])%list) !! List.length l = Some x.
Proof. by apply list_lookup_middle. Qed.

Lemma lookup_end_S {A : Type} (l : list A) (x y : A) :
  (((l ++ [x]) ++ [y])%list) !! S (List.length l) = Some y.
Proof.
  replace (S (List.length l)) with (List.length (l ++ [x])%list).
  - apply lookup_end.
  - rewrite List.length_app. simpl. lia.
Qed.

Lemma lookup_end_1 {A : Type} (l : list A) (x y : A) :
  (((l ++ [x]) ++ [y])%list) !! List.length l = Some x.
Proof.
  rewrite lookup_app_l by (rewrite List.length_app; simpl; lia).
  apply lookup_end.
Qed.

Lemma call_newRegistration_fresh (w : world) (contacts agreement : value) :
  isArray (heap w) contacts = true -> dirPromise w = None -> jobs w = [] ->
  fst (step (Call (NewRegistration contacts agreement)) w) =
    World (heap w) (AGENT w) (nonces w) (privateKey w) (directoryURI w)
          (Some 0%nat) [DirFetch; AwaitDirectory 0 (NewReg contacts agreement)]
          (sent w ++ [Request GET (directoryURI w) true true (AGENT w) NoBody])
          (signed w).
Proof.
  intros Ha Hd Hj. open_step. rewrite Ha, Hd. simpl. rewrite Hj. reflexivity.
Qed.

Lemma reply_directory (w : world) (resp : response) (dir : object) (rest : list job) :
  jobs w = DirFetch :: rest -> body resp = Parsed dir ->
  fst (step (Reply 0 (Fulfilled resp)) w) =
    World (heap w ++ [dir]) (AGENT w)
          (deposit (header resp "replay-nonce") (nonces w))
          (privateKey w) (directoryURI w) (dirPromise w)
          (Settled (Fulfilled (VRef (List.length (heap w)))) :: rest)
          (sent w) (signed w).
Proof.
  intros Hj Hb. open_step. rewrite Hj, Hb. simpl. rewrite Hj. reflexivity.
Qed.

Lemma truthy_nonempty (s : string) : s <> "" -> truthy (VString s) = true.
Proof. intros H. simpl. by destruct (String.eqb_spec s ""). Qed.

Lemma prop_alloc (h : list object) (o dir : object) (d : loc) (name : string)
    (v : value) :
  h !! d = Some dir -> props dir !! name = Some v ->
  prop (h ++ [o]) (VRef d) name = v.
Proof.
  intros Hd Hn. unfold prop.
  assert (Hl : ((h ++ [o])%list) !! d = Some dir).
  { rewrite lookup_app_l by (by eapply lookup_lt_Some). exact Hd. }
  match goal with
  | |- context [match ?x with Some _ => _ | None => _ end] =>
      replace x with (Some dir) by (symmetry; exact Hl)
  end.
  by rewrite Hn.
Qed.

Lemma tick_newReg (w : world) (contacts agreement : value) (d : loc)
    (dir : object) (u : string) (rest : list job) :
  jobs w = Settled (Fulfilled (VRef d))
             :: AwaitDirectory 0 (NewReg contacts agreement) :: rest ->
  heap w !! d = Some dir ->
  props dir !! "new-reg" = Some (VString u) -> u <> "" ->
  let registration :=
    <["contact" := contacts]> (<["resource" := VString "new-reg"]> ∅) in
  let payload :=
    plain (if truthy agreement then <["agreement" := agreement]> registration
           else registration) in
  fst (step (Tick 1) w) =
    match _post (VString u) (VRef (List.length (heap w))) false
                (set_heap (heap w ++ [payload]) w) with
    | (w', j) => set_job 1 j w'
    end.
Proof.
  intros Hj Hd Hn Hu registration payload. subst registration payload.
  pose proof (truthy_nonempty u Hu) as Htu.
  unfold step, do_tick. cbn [fst]. rewrite Hj. cbn [lookup list_lookup].
  unfold on_directory_newReg, get.
  rewrite (prop_own _ _ _ _ _ Hd Hn), Htu. cbn [negb]. unfold alloc.
  destruct (truthy agreement); cbn [set_heap heap];
    erewrite prop_alloc by eassumption; reflexivity.
Qed.

(** X19. [newRegistration] on a fresh client, with any array of contacts: once
    the directory has arrived with a [new-reg] endpoint, the payload
    [{resource: new-reg, contact}] (with [agreement] exactly when it is
    truthy) is handed to the signer together with the nonce of the
    directory response, and no probe is sent; when the directory
    response carries no nonce, a HEAD probe goes to the [new-reg]
    endpoint and nothing is signed yet. *)
Theorem newRegistration_flow (homepage : string) (h : list object)
    (key uri contacts agreement : value) (w0 : world) (resp : response)
    (dir : object) (u : string) :
  constructor homepage h key uri = Ok w0 ->
  isArray h contacts = true ->
  body resp = Parsed dir ->
  props dir !! "new-reg" = Some (VString u) -> u <> "" ->
  let w := run [Call (NewRegistration contacts agreement);
                Reply 0 (Fulfilled resp); Tick 1; Tick 1] w0 in
  let fetch := Request GET (directoryURI w0) true true
                       {["User-Agent" := homepage]} NoBody in
  let registration :=
    <["contact" := contacts]> (<["resource" := VString "new-reg"]> ∅) in
  let payload :=
    plain (if truthy agreement then <["agreement" := agreement]> registration
           else registration) in
  (forall n, headers resp !! "replay-nonce" = Some n -> n <> "" ->
     sent w = [fetch] /\
     signed w = [SignCall key (VString n) (VRef (S (List.length h)))
                   (Some payload)] /\
     jobs w !! 1%nat = Some (Signing (VString u) false)) /\
  (headers resp !! "replay-nonce" = None ->
     sent w = [fetch; Request HEAD (VString u) true true
                        {["User-Agent" := homepage]} NoBody] /\
     signed w = [] /\
     jobs w !! 1%nat =
       Some (NonceProbe (VString u) (VRef (S (List.length h))) false)).
Proof.
  intros Hc Harr Hb Hu Hne w fetch registration payload.
  unfold constructor in Hc. destruct (truthy key); [|discriminate].
  injection Hc as <-. subst w fetch.
  generalize ({["User-Agent" := homepage]} : gmap string string). intros A.
  rewrite !run_cons. change (run [] ?x) with x.
  rewrite call_newRegistration_fresh by (try reflexivity; exact Harr).
  cbn [heap AGENT nonces privateKey directoryURI sent signed].
  rewrite (reply_directory _ resp dir
             [AwaitDirectory 0 (NewReg contacts agreement)])
    by (try reflexivity; exact Hb).
  cbn [heap AGENT nonces privateKey directoryURI sent signed dirPromise].
  match goal with
  | |- context [fst (step (Tick 1) (fst (step (Tick 1) ?x)))] =>
      rewrite (tick_newReg x contacts agreement (List.length h) dir u [])
        by (try reflexivity; try exact Hu; try exact Hne; apply lookup_end)
  end.
  fold registration. fold payload.
  cbn [heap AGENT nonces privateKey directoryURI sent signed dirPromise set_heap].
  unfold _post, _nonce, deposit, header.
  cbn [heap AGENT nonces privateKey directoryURI sent signed dirPromise set_nonces].
  clearbody payload. clear registration.
  split.
  - intros n Hn Hnn. rewrite Hn, (truthy_nonempty n Hnn).
    cbn [app shift nonces set_heap]. rewrite (truthy_nonempty n Hnn).
    unfold step, do_tick, set_job, on_nonce. simpl.
    rewrite List.length_app, Nat.add_1_r. simpl.
    rewrite lookup_end_S. repeat split.
  - intros Hn. rewrite Hn. cbn [truthy app shift nonces set_heap].
    unfold step, do_tick, set_job, dispatch. simpl.
    rewrite List.length_app, Nat.add_1_r. repeat split.
Qed.

Lemma newRegistration_flow_witness :
  let w := run [Call (NewRegistration (VRef 0) VUndefined);
                Reply 0 (Fulfilled directory_response); Tick 1; Tick 1]
               client_with_one_contact in
  List.length (sent w) = 1%nat /\
  map sc_nonce (signed w) = [VString "n0"] /\
  jobs w !! 1%nat =
    Some (Signing (VString "https://ca.example/acme/new-reg") false).
Proof.
  destruct (newRegistration_flow "https://github.com/isaackwan/node-acme"
              [Object (Array [VString "mailto:a@example.com"]) ∅ None None]
              (VString "key") VUndefined (VRef 0) VUndefined
              client_with_one_contact directory_response directory_body
              "https://ca.example/acme/new-reg"
              eq_refl eq_refl eq_refl eq_refl) as [Hpos _]; [discriminate|].
  destruct (Hpos "n0") as (Hs & Hg & Hj); [reflexivity|discriminate|].
  cbv zeta. rewrite Hs, Hg. split; [reflexivity|]. split; [reflexivity|exact Hj].
Defined.

(** X20. [newRegistration] fails without signing anything: contacts that are
    not an array make it throw at once and send nothing; a failed
    directory fetch rejects its promise with the same error; a
    directory without a truthy [new-reg] rejects it with [Error], No
    new-registration endpoint available; a [null] or [undefined]
    directory rejects it with a [TypeError].  In these three cases the
    only request sent is the directory fetch. *)
Theorem newRegistration_failures (homepage : string) (h : list object)
    (key uri contacts agreement : value) (w0 : world) :
  constructor homepage h key uri = Ok w0 ->
  (isArray h contacts = false ->
     step (Call (NewRegistration contacts agreement)) w0 =
       (w0, Threw (TypeError "contacts must be non-empty array of URIs"))) /\
  (isArray h contacts = true ->
     (forall e,
        let w := run [Call (NewRegistration contacts agreement);
                      Reply 0 (Rejected e); Tick 1] w0 in
        jobs w !! 1%nat = Some (Settled (Rejected e)) /\
        signed w = [] /\ List.length (sent w) = 1%nat) /\
     (forall resp dir,
        body resp = Parsed dir ->
        truthy (default VUndefined (props dir !! "new-reg")) = false ->
        let w := run [Call (NewRegistration contacts agreement);
                      Reply 0 (Fulfilled resp); Tick 1] w0 in
        jobs w !! 1%nat =
          Some (Settled (Rejected
                  (Error "No new-registration endpoint available"))) /\
        signed w = [] /\ List.length (sent w) = 1%nat) /\
     (forall resp v,
        body resp = Primitive v -> v = VNull \/ v = VUndefined ->
        let w := run [Call (NewRegistration contacts agreement);
                      Reply 0 (Fulfilled resp); Tick 1] w0 in
        (exists msg, jobs w !! 1%nat = Some (Settled (Rejected (TypeError msg)))) /\
        signed w = [] /\ List.length (sent w) = 1%nat)).
Proof.
  intros Hc. unfold constructor in Hc. destruct (truthy key); [|discriminate].
  injection Hc as <-.
  generalize ({["User-Agent" := homepage]} : gmap string string). intros A.
  split.
  - intros Harr. unfold step, do_call, newRegistration. cbn [heap].
    by rewrite Harr.
  - intros Harr.
    assert (Hstart : forall o,
              run [Call (NewRegistration contacts agreement); Reply 0 o; Tick 1]
                  (World h A [] key
                     (if truthy uri then uri else VString DEFAULTS_directoryURI)
                     None [] [] []) =
              fst (step (Tick 1) (fst (step (Reply 0 o)
                (World h A [] key
                   (if truthy uri then uri else VString DEFAULTS_directoryURI)
                   (Some 0%nat)
                   [DirFetch; AwaitDirectory 0 (NewReg contacts agreement)]
                   [Request GET
                      (if truthy uri then uri else VString DEFAULTS_directoryURI)
                      true true A NoBody] []))))).
    { intros o. rewrite !run_cons. change (run [] ?x) with x.
      rewrite call_newRegistration_fresh by (try reflexivity; exact Harr).
      reflexivity. }
    split; [|split].
    + intros e. cbv zeta. rewrite Hstart. simpl. repeat split.
    + intros resp dir Hb Hf. cbv zeta. rewrite Hstart.
      rewrite (reply_directory _ resp dir
                 [AwaitDirectory 0 (NewReg contacts agreement)])
        by (try reflexivity; exact Hb).
      unfold step, do_tick, on_directory_newReg, get, set_job.
      cbn [fst jobs lookup list_lookup heap].
      assert (Hp : prop (h ++ [dir]) (VRef (List.length h)) "new-reg" =
                   default VUndefined (props dir !! "new-reg")).
      { unfold prop. by rewrite lookup_end. }
      rewrite Hp, Hf. simpl. repeat split.
    + intros resp v Hb Hv. cbv zeta. rewrite Hstart.
      unfold step, do_reply, on_directory_response, receive, do_tick,
        on_directory_newReg, get, set_job.
      cbn [fst jobs lookup list_lookup heap]. rewrite Hb.
      destruct Hv as [-> | ->]; simpl; repeat split; eexists; reflexivity.
Qed.

Lemma newRegistration_failures_witness :
  let w := run [Call (NewRegistration (VRef 0) VUndefined);
                Reply 0 (Rejected refused); Tick 1] client_with_one_contact in
  jobs w !! 1%nat = Some (Settled (Rejected refused)) /\ signed w = [].
Proof.
  destruct (newRegistration_failures "https://github.com/isaackwan/node-acme"
              [Object (Array [VString "mailto:a@example.com"]) ∅ None None]
              (VString "key") VUndefined (VRef 0) VUndefined
              client_with_one_contact eq_refl) as [_ Hfail].
  destruct (Hfail eq_refl) as (Hrej & _ & _).
  destruct (Hrej refused) as (Hj & Hs & _). split; [exact Hj|exact Hs].
Defined.

Lemma insert_end {A : Type} (l : list A) (x y : A) :
  <[List.length l := y]> ((l ++ [x])%list) = (l ++ [y])%list.
Proof. induction l as [|a l IH]; simpl; [reflexivity|]. by rewrite IH. Qed.

(** X21. [_post] with an empty pool sends one HEAD probe to the target URI.  A
    probe response without [replay-nonce] rejects the promise with
    [Error], No nonce available, and a failed probe rejects it with its
    error; nothing is signed and no object changes.  A probe response
    with a nonce has the body signed with that nonce, which does not
    enter the pool. *)
Theorem post_with_empty_pool (w : world) (uri body : value) (binary : bool) :
  nonces w = [] ->
  let p := List.length (jobs w) in
  let probe := Request HEAD uri true true (AGENT w) NoBody in
  (forall resp,
     truthy (header resp "replay-nonce") = false ->
     let w' := run [Call (Post uri body binary); Reply p (Fulfilled resp)] w in
     jobs w' !! p = Some (Settled (Rejected (Error "No nonce available"))) /\
     sent w' = (sent w ++ [probe])%list /\ signed w' = signed w /\
     heap w' = heap w) /\
  (forall e,
     let w' := run [Call (Post uri body binary); Reply p (Rejected e)] w in
     jobs w' !! p = Some (Settled (Rejected e)) /\
     sent w' = (sent w ++ [probe])%list /\ signed w' = signed w /\
     heap w' = heap w) /\
  (forall resp n,
     headers resp !! "replay-nonce" = Some n -> n <> "" ->
     let w' := run [Call (Post uri body binary); Reply p (Fulfilled resp);
                    Tick p] w in
     jobs w' !! p = Some (Signing uri binary) /\
     sent w' = (sent w ++ [probe])%list /\
     signed w' =
       (signed w ++
        [SignCall (privateKey w) (VString n) body
           match body with VRef l => heap w !! l | _ => None end])%list /\
     nonces w' = []).
Proof.
  intros Hn p probe. subst p probe.
  assert (Hcall : fst (step (Call (Post uri body binary)) w) =
                  set_jobs (jobs w ++ [NonceProbe uri body binary])
                    (dispatch (Request HEAD uri true true (AGENT w) NoBody)
                       (set_nonces [] w))).
  { unfold step, do_call, _post, _nonce. rewrite Hn. reflexivity. }
  split; [|split].
  - intros resp Hr. cbv zeta. rewrite !run_cons. change (run [] ?x) with x.
    rewrite Hcall. unfold step, do_reply, on_probe_response.
    cbn [fst jobs set_jobs]. rewrite lookup_end, Hr.
    unfold set_job. cbn [jobs set_jobs]. rewrite insert_end, lookup_end.
    repeat split.
  - intros e. cbv zeta. rewrite !run_cons. change (run [] ?x) with x.
    rewrite Hcall. unfold step, do_reply.
    cbn [fst jobs set_jobs]. rewrite lookup_end.
    unfold set_job. cbn [jobs set_jobs]. rewrite insert_end, lookup_end.
    repeat split.
  - intros resp n Hh Hne. cbv zeta. rewrite !run_cons.
    change (run [] ?x) with x.
    rewrite Hcall. unfold step, do_reply, on_probe_response, header.
    cbn [fst jobs set_jobs]. rewrite lookup_end, Hh, (truthy_nonempty n Hne).
    unfold set_job. cbn [jobs set_jobs]. rewrite insert_end.
    unfold do_tick. cbn [jobs set_jobs]. rewrite lookup_end.
    unfold on_nonce, set_job. cbn [jobs set_jobs set_signed].
    rewrite insert_end, lookup_end. repeat split.
Qed.

Lemma post_with_empty_pool_witness :
  let w' := run [Call (Post (VString "u") (VRef 0) false);
                 Reply 0 (Fulfilled (Response ∅ (Primitive VUndefined)))]
              client_with_one_contact in
  jobs w' !! 0%nat = Some (Settled (Rejected (Error "No nonce available"))) /\
  signed w' = [].
Proof.
  destruct (post_with_empty_pool client_with_one_contact (VString "u")
              (VRef 0) false eq_refl) as [Hfail _].
  destruct (Hfail (Response ∅ (Primitive VUndefined)))
    as (Hj & _ & Hs & _); [vm_compute; reflexivity|].
  split; [exact Hj|exact Hs].
Defined.

(** X26. The response handler of [_post] and the body of the response.  When
    the body is not an object ([undefined], [null], a boolean or a
    string), the handler rejects with a [TypeError] and the
    [replay-nonce] of the response is not deposited; in binary mode the
    same holds for [undefined], [null] and a boolean.  In binary mode a
    string body is wrapped: a new object whose [body] is a new [Buffer]
    made from the string is returned, with the [Location] header
    attached and the nonce deposited, and no existing object is
    changed. *)
Theorem post_response_bodies (w : world) (resp : response) :
  (forall v,
     body resp = Primitive v -> (forall l, v <> VRef l) ->
     exists w' msg,
       on_post_response false resp w = (w', Rejected (TypeError msg)) /\
       nonces w' = nonces w /\ heap w' = heap w) /\
  (forall v,
     body resp = Primitive v -> (forall l, v <> VRef l) ->
     (forall s, v <> VString s) ->
     exists w' msg,
       on_post_response true resp w = (w', Rejected (TypeError msg)) /\
       nonces w' = nonces w /\ heap w' = heap w) /\
  (forall s,
     body resp = Primitive (VString s) ->
     exists w' out b lk,
       on_post_response true resp w = (w', Fulfilled (VRef out)) /\
       heap w' !! out =
         Some (Object Plain {["body" := VRef b]} (Some lk)
                 (Some (header resp "location"))) /\
       heap w' !! b = Some (Object (Buffer (VString s)) ∅ None None) /\
       (List.length (heap w) <= b)%nat /\ (List.length (heap w) <= out)%nat /\
       nonces w' = deposit (header resp "replay-nonce") (nonces w) /\
       (forall l o, heap w !! l = Some o -> heap w' !! l = Some o)).
Proof.
  split; [|split].
  - intros v Hb Hv. unfold on_post_response, receive. rewrite Hb.
    destruct v as [| | b | s | l]; try (by eexists _, _);
      exfalso; by apply (Hv l).
  - intros v Hb Hv Hs. unfold on_post_response, receive, new_Buffer.
    rewrite Hb.
    destruct v as [| | b | s | l]; try (by eexists _, _).
    + exfalso. by apply (Hs s).
    + exfalso. by apply (Hv l).
  - intros s Hb. unfold on_post_response, receive, new_Buffer, alloc.
    rewrite Hb.
    set (h2 := ((heap w ++ [Object (Buffer (VString s)) ∅ None None]) ++
                [plain {["body" := VRef (List.length (heap w))]}])%list).
    assert (Hout : h2 !! S (List.length (heap w)) =
                   Some (plain {["body" := VRef (List.length (heap w))]})).
    { unfold h2. apply list_lookup_middle. rewrite List.length_app. simpl. lia. }
    assert (Hlen : List.length (heap w ++ [Object (Buffer (VString s)) ∅ None None])
                   = S (List.length (heap w)))
      by (rewrite List.length_app; simpl; lia).
    rewrite Hlen.
    assert (Hlen2 : List.length h2 = S (S (List.length (heap w))))
      by (unfold h2; rewrite !List.length_app; simpl; lia).
    assert (Hbuf : forall t, ((h2 ++ t)%list) !! List.length (heap w) =
                        Some (Object (Buffer (VString s)) ∅ None None)).
    { intros t. rewrite lookup_app_l by lia. unfold h2.
      rewrite lookup_app_l by lia. by apply list_lookup_middle. }
    assert (Hold : forall t l o, heap w !! l = Some o ->
                     ((h2 ++ t)%list) !! l = Some o).
    { intros t l o Hl.
      assert (l < List.length (heap w))%nat by (by eapply lookup_lt_Some).
      rewrite lookup_app_l by lia. unfold h2.
      rewrite !lookup_app_l by (rewrite ?List.length_app; simpl; lia).
      exact Hl. }
    destruct (Link._parseLink (header resp "link")) as [m|] eqn:Hm.
    + assert (Hout' : ((h2 ++ [plain m])%list) !! S (List.length (heap w)) =
                      Some (plain {["body" := VRef (List.length (heap w))]}))
        by (rewrite lookup_app_l by lia; exact Hout).
      match goal with
      | |- context [match ?x with Some _ => _ | None => _ end] =>
          replace x with (Some (plain {["body" := VRef (List.length (heap w))]}))
            by (symmetry; exact Hout')
      end.
      eexists _, _, (List.length (heap w)), _. split; [reflexivity|].
      cbn [heap set_heap set_nonces nonces kind_of props plain].
      split; [apply list_lookup_insert_eq; rewrite List.length_app; lia|].
      split; [rewrite list_lookup_insert_ne by lia; apply Hbuf|].
      repeat split; try lia.
      intros l o Hl.
      assert (l < List.length (heap w))%nat by (by eapply lookup_lt_Some).
      rewrite list_lookup_insert_ne by lia. by apply Hold.
    + match goal with
      | |- context [match ?x with Some _ => _ | None => _ end] =>
          replace x with (Some (plain {["body" := VRef (List.length (heap w))]}))
            by (symmetry; exact Hout)
      end.
      eexists _, _, (List.length (heap w)), _. split; [reflexivity|].
      cbn [heap set_heap set_nonces nonces kind_of props plain].
      split; [apply list_lookup_insert_eq; lia|].
      split; [rewrite list_lookup_insert_ne by lia;
              rewrite <- (app_nil_r h2); apply Hbuf|].
      repeat split; try lia.
      intros l o Hl.
      assert (l < List.length (heap w))%nat by (by eapply lookup_lt_Some).
      rewrite list_lookup_insert_ne by lia.
      rewrite <- (app_nil_r h2). by apply Hold.
Qed.




Lemma every_request_identifies_witness :
  Forall (fun r => req_headers r !! "User-Agent" =
                   Some "https://github.com/isaackwan/node-acme")
         (sent (run [Call Directory; Call (Post (VString "u") VUndefined true)]
                    fresh_client)).
Proof.
  apply (every_request_identifies "https://github.com/isaackwan/node-acme" []
           (VString "key") VUndefined fresh_client).
  reflexivity.
Defined.

Lemma never_posts_unsigned_witness :
  let w := run [Call (Post (VString "u") VUndefined false);
                Reply 0 (Fulfilled directory_response); Tick 0;
                Signed 0 (Fulfilled (VString "jws"))] fresh_client in
  (posts w + signing_jobs w <= List.length (signed w))%nat.
Proof.
  apply (never_posts_unsigned "https://github.com/isaackwan/node-acme" []
           (VString "key") VUndefined fresh_client).
  reflexivity.
Defined.

Lemma signer_gets_key_and_nonce_witness :
  Forall (fun c => sc_key c = VString "key" /\
                   exists s, sc_nonce c = VString s /\ s <> "")
         (signed (run [Call (Post (VString "u") VUndefined false);
                       Reply 0 (Fulfilled directory_response); Tick 0]
                      fresh_client)).
Proof.
  apply (signer_gets_key_and_nonce "https://github.com/isaackwan/node-acme" []
           (VString "key") VUndefined fresh_client).
  reflexivity.
Defined.

Lemma untouched_objects_witness :
  heap (run [Call (NewRegistration (VRef 0) VUndefined);
             Reply 0 (Fulfilled directory_response); Tick 1; Tick 1]
            client_with_one_contact) !! 0%nat =
    Some (Object (Array [VString "mailto:a@example.com"]) ∅ None None).
Proof.
  apply untouched_objects; [|reflexivity].
  repeat constructor; simpl; intros [].
Defined.
End RunProperties.

(** ** Further properties: the http-01 validator *)

Section Validator.
Import JS AcmeUtils Notions.

Lemma strict_equal_string (s : string) (v : value) :
  HTTP01validator.strict_equal v (VString s) = true <-> v = VString s.
Proof.
  destruct v as [| | b | t | l]; simpl; try (split; [discriminate|discriminate]).
  rewrite String.eqb_eq. split; [by intros ->|by intros [= ->]].
Qed.

Lemma strict_equal_string_l (s : string) (v : value) :
  HTTP01validator.strict_equal (VString s) v = true <-> v = VString s.
Proof.
  destruct v as [| | b | t | l]; simpl; try (split; [discriminate|discriminate]).
  rewrite String.eqb_eq. split; [by intros ->|by intros [= ->]].
Qed.

(** X22. The constructor of [HTTP01validator] accepts exactly a challenge
    object that owns [type], [token] and [keyAuthorization], whose
    [type] is the string http-01 and that owns no field named
    [hasOwnProperty].  A challenge that owns such a field makes it throw
    the [TypeError] of the failed call; every other error is
    [TypeError], Mal-formed challenge.  The port of a validator is never
    0: an absent port and the port 0 give 80. *)
Theorem validator_constructor (h : list object) (domain challenge : value)
    (port : option N) :
  (forall l o,
     challenge = VRef l -> h !! l = Some o ->
     props o !! "hasOwnProperty" = None ->
     props o !! "type" = Some (VString "http-01") ->
     is_Some (props o !! "token") ->
     is_Some (props o !! "keyAuthorization") ->
     HTTP01validator.constructor h domain challenge port =
       Ok (HTTP01validator.Validator
             (match port with
              | Some p => if N.eqb p 0 then 80%N else p
              | None => 80%N
              end) domain challenge)) /\
  (forall v,
     HTTP01validator.constructor h domain challenge port = Ok v ->
     HTTP01validator.port v <> 0%N /\
     exists l o,
       challenge = VRef l /\ h !! l = Some o /\
       props o !! "hasOwnProperty" = None /\
       props o !! "type" = Some (VString "http-01") /\
       is_Some (props o !! "token") /\
       is_Some (props o !! "keyAuthorization")) /\
  (forall l o,
     challenge = VRef l -> h !! l = Some o ->
     is_Some (props o !! "hasOwnProperty") ->
     exists msg,
       HTTP01validator.constructor h domain challenge port =
         Throw (TypeError msg)) /\
  (forall e,
     HTTP01validator.constructor h domain challenge port = Throw e ->
     e = TypeError "Mal-formed challenge" \/
     exists msg l o,
       e = TypeError msg /\ challenge = VRef l /\ h !! l = Some o /\
       is_Some (props o !! "hasOwnProperty")).
Proof.
  unfold HTTP01validator.constructor. split; [|split; [|split]].
  - intros l o -> Hl Hs Hty Htok Hka.
    rewrite (fieldsPresent_own h l o _ Hl Hs)
      by (unfold HTTP01validator.CHALLENGE_FIELDS; repeat constructor;
          try assumption; by eexists).
    rewrite (prop_own _ _ _ _ _ Hl Hty). reflexivity.
  - intros v Hv.
    destruct (fieldsPresent h HTTP01validator.CHALLENGE_FIELDS challenge)
      as [[|]|e] eqn:Hf; try discriminate.
    destruct (HTTP01validator.strict_equal (prop h challenge "type")
                (VString "http-01")) eqn:Hs; [|discriminate].
    injection Hv as <-. split.
    + simpl. destruct port as [p|]; [|discriminate].
      destruct (N.eqb_spec p 0); [discriminate|assumption].
    + apply fieldsPresent_inv in Hf; [|discriminate].
      destruct Hf as (l & o & -> & Hl & Hsh & Hall).
      apply Forall_cons in Hall as [Hty Hall].
      apply Forall_cons in Hall as [Htok Hall].
      apply Forall_cons in Hall as [Hka _].
      apply (hasOwnProperty_named_inv h l o _ Hl) in Hty;
        [|reflexivity|reflexivity].
      apply (hasOwnProperty_named_inv h l o _ Hl) in Htok;
        [|reflexivity|reflexivity].
      apply (hasOwnProperty_named_inv h l o _ Hl) in Hka;
        [|reflexivity|reflexivity].
      destruct Hty as [ty Hty].
      exists l, o. repeat split; try assumption.
      apply strict_equal_string in Hs.
      rewrite (prop_own _ _ _ _ _ Hl Hty) in Hs. by rewrite Hty, Hs.
  - intros l o -> Hl Hs. eexists.
    by rewrite (fieldsPresent_shadowed h l o _ Hl Hs).
  - intros e He.
    destruct (fieldsPresent h HTTP01validator.CHALLENGE_FIELDS challenge)
      as [b|e'] eqn:Hf.
    + left. destruct (negb _ || negb _); [by injection He as <-|discriminate].
    + right. injection He as <-.
      destruct (fieldsPresent_throws_inv _ _ _ _ Hf) as (-> & l & o & Hc & Hl & Hs).
      by eexists _, l, o.
Qed.

Lemma split_head (sep : ascii) (x : string) :
  exists y ys, Str.split sep x = y :: ys /\ Str.contains sep y = false.
Proof.
  induction x as [|c x (y & ys & IH & Hy)]; simpl.
  - by exists "", [].
  - destruct (Ascii.eqb c sep) eqn:Hc.
    + by exists "", (Str.split sep x).
    + rewrite IH. exists (String c y), ys. split; [reflexivity|].
      simpl. by rewrite Hc.
Qed.

Lemma end_body_string (h : list object) (s : string) :
  HTTP01validator.end_body h (VString s) = Ok (VString s).
Proof.
  unfold HTTP01validator.end_body. simpl.
  by destruct (String.eqb_spec s "") as [->|].
Qed.

Lemma end_body_cases (h : list object) (ka : value) :
  (truthy ka = false -> HTTP01validator.end_body h ka = Ok (VString "")) /\
  (is_Buffer h ka = true -> HTTP01validator.end_body h ka = Ok ka) /\
  (truthy ka = true -> (forall s, ka <> VString s) -> is_Buffer h ka = false ->
   exists msg, HTTP01validator.end_body h ka = Throw (TypeError msg)).
Proof.
  unfold HTTP01validator.end_body, is_Buffer. repeat split.
  - by intros ->.
  - destruct ka as [| | b | s | l]; try discriminate. simpl.
    destruct (h !! l) as [[[| |src] ? ? ?]|]; by try discriminate.
  - intros Ht Hs Hb. rewrite Ht. simpl.
    destruct ka as [| | b | s | l]; try discriminate; try (by eexists).
    + by destruct (Hs s).
    + destruct (h !! l) as [[[| |src] ? ? ?]|]; try discriminate; by eexists.
Qed.

(** X23. The handler of the validator, when the [Host] header, up to its first
    colon, is the domain and the token of the route is the challenge's
    token: a string [keyAuthorization] is served with status 200 as
    [text/plain], a [Buffer] as well, a falsy one gives 200 with an
    empty body, and any other value makes [res.end], and so the handler,
    throw a [TypeError].  A wrong token, a domain that is not a string
    and a domain that holds a colon always give 404 with an empty body;
    a request without [Host] header makes the handler throw a
    [TypeError]. *)
Theorem validator_handler (h : list object) (v : HTTP01validator.validator)
    (token : string) :
  let not_found := Ok (HTTP01validator.Reply 404 None (VString "")) in
  let found body := Ok (HTTP01validator.Reply 200 (Some "text/plain") body) in
  (forall d,
     HTTP01validator.domain v = VString d -> Str.contains ":" d = false ->
     prop h (HTTP01validator.challenge v) "token" = VString token ->
     forall host, host = d \/ (exists rest, host = d ++ String ":" rest) ->
     let ka := prop h (HTTP01validator.challenge v) "keyAuthorization" in
     (forall s, ka = VString s ->
        HTTP01validator.handle h v (Some host) token = found (VString s)) /\
     (is_Buffer h ka = true ->
        HTTP01validator.handle h v (Some host) token = found ka) /\
     (truthy ka = false ->
        HTTP01validator.handle h v (Some host) token = found (VString "")) /\
     (truthy ka = true -> (forall s, ka <> VString s) ->
      is_Buffer h ka = false ->
        exists msg,
          HTTP01validator.handle h v (Some host) token =
            Throw (TypeError msg))) /\
  (forall host,
     prop h (HTTP01validator.challenge v) "token" <> VString token ->
     HTTP01validator.handle h v (Some host) token = not_found) /\
  (forall host d,
     HTTP01validator.domain v = VString d -> Str.contains ":" d = true ->
     HTTP01validator.handle h v (Some host) token = not_found) /\
  (forall host,
     (forall d, HTTP01validator.domain v <> VString d) ->
     HTTP01validator.handle h v (Some host) token = not_found) /\
  (exists msg, HTTP01validator.handle h v None token = Throw (TypeError msg)).
Proof.
  intros not_found found. subst not_found found. cbv beta.
  split; [|split; [|split; [|split]]].
  - intros d Hd Hc Htok host Hhost ka.
    assert (Hname : exists ys, Str.split ":" host = d :: ys).
    { destruct Hhost as [->|[rest ->]].
      - exists []. by apply split_no_sep.
      - eexists. by apply split_cut. }
    destruct Hname as [ys Hname].
    assert (Hgo : HTTP01validator.handle h v (Some host) token =
                  match HTTP01validator.end_body h ka with
                  | Ok written =>
                      Ok (HTTP01validator.Reply 200 (Some "text/plain") written)
                  | Throw e => Throw e
                  end).
    { unfold HTTP01validator.handle. rewrite Hname, Hd, Htok. simpl.
      by rewrite !String.eqb_refl. }
    rewrite Hgo. destruct (end_body_cases h ka) as (Hfalsy & Hbuf & Hbad).
    repeat split.
    + intros s ->. by rewrite end_body_string.
    + intros Hb. by rewrite (Hbuf Hb).
    + intros Ht. by rewrite (Hfalsy Ht).
    + intros Ht Hs Hb. destruct (Hbad Ht Hs Hb) as [msg ->]. by eexists.
  - intros host Hne. unfold HTTP01validator.handle.
    destruct (HTTP01validator.strict_equal (VString token) _) eqn:Hs.
    + apply strict_equal_string_l in Hs. contradiction.
    + by rewrite andb_false_r.
  - intros host d Hd Hc. unfold HTTP01validator.handle.
    destruct (split_head ":" host) as (y & ys & -> & Hy).
    rewrite Hd. simpl. destruct (String.eqb_spec y d) as [->|]; [|reflexivity].
    congruence.
  - intros host Hd. unfold HTTP01validator.handle.
    destruct (split_head ":" host) as (y & ys & -> & Hy).
    destruct (HTTP01validator.strict_equal (VString y) _) eqn:Hs;
      [|reflexivity].
    apply strict_equal_string_l in Hs. by apply Hd in Hs.
  - by eexists.
Qed.

(** X24. A challenge as the authority sends it, without [keyAuthorization], is
    refused by the validator; after [respondToChallenge] the same object
    is accepted, and the handler serves the text made of the token, a
    dot and the key thumbprint.  This is so for a challenge that owns no
    field named [hasOwnProperty]; one that owns such a field makes the
    constructor throw a [TypeError], before and after
    [respondToChallenge]. *)
Theorem validator_serves_key_authorization (w : Protocol.world) (l : loc)
    (o : object) (uri : value) (T K d : string) (port : option N) :
  Protocol.heap w !! l = Some o ->
  props o !! "type" = Some (VString "http-01") ->
  props o !! "uri" = Some uri -> truthy uri = true ->
  props o !! "token" = Some (VString T) ->
  truthy (Protocol.privateKey w) = true ->
  prop (Protocol.heap w) (Protocol.privateKey w) "thumbprint" = VString K ->
  Str.contains ":" d = false ->
  (props o !! "hasOwnProperty" = None ->
     (props o !! "keyAuthorization" = None ->
        HTTP01validator.constructor (Protocol.heap w) (VString d) (VRef l)
          port = Throw (TypeError "Mal-formed challenge")) /\
     exists w1 p v,
       Protocol.respondToChallenge (VRef l) w = (w1, Protocol.Returned p) /\
       HTTP01validator.constructor (Protocol.heap w1) (VString d) (VRef l)
         port = Ok v /\
       HTTP01validator.handle (Protocol.heap w1) v (Some d) T =
         Ok (HTTP01validator.Reply 200 (Some "text/plain")
               (VString (T ++ "." ++ K)))) /\
  (is_Some (props o !! "hasOwnProperty") ->
     exists w1 p,
       Protocol.respondToChallenge (VRef l) w = (w1, Protocol.Returned p) /\
       (exists msg,
          HTTP01validator.constructor (Protocol.heap w) (VString d) (VRef l)
            port = Throw (TypeError msg)) /\
       (exists msg,
          HTTP01validator.constructor (Protocol.heap w1) (VString d) (VRef l)
            port = Throw (TypeError msg))).
Proof.
  intros Hl Hty Hu Ht Htok Hk Hthumb Hd.
  assert (Hlt : (l < List.length (Protocol.heap w))%nat)
    by (by eapply lookup_lt_Some).
  assert (Hresp :
    exists w1 p payload,
      Protocol.respondToChallenge (VRef l) w = (w1, Protocol.Returned p) /\
      Protocol.heap w1 !! l = Some payload /\
      props payload =
        <["keyAuthorization" := VString (T ++ "." ++ K)]>
          (<["resource" := VString "challenge"]> (props o))).
  { rewrite (respondToChallenge_sync w l o uri Hl Hu Ht Hk).
    rewrite (prop_own _ _ _ _ _ Hl Htok), Hthumb.
    unfold concat. rewrite !to_string_VString, append_assoc.
    cbn [props Vocabulary.with_props].
    set (payload := Vocabulary.with_props
                      (<["keyAuthorization" := VString (T ++ "." ++ K)]>
                         (<["resource" := VString "challenge"]> (props o))) o).
    set (w' := Protocol.set_heap (<[l := payload]> (Protocol.heap w)) w).
    destruct (_post_sync uri (VRef l) false w')
      as (w1 & j & Hp & Hh & _).
    rewrite Hp.
    destruct (Protocol.spawn j w1) as [p w2] eqn:Hspawn.
    exists w2, p, payload. split; [reflexivity|]. split; [|reflexivity].
    unfold Protocol.spawn in Hspawn. injection Hspawn as <- <-. simpl.
    rewrite Hh. unfold w'. simpl. by rewrite list_lookup_insert_eq. }
  destruct Hresp as (w2 & p & payload & Hcall & Hh2 & Hpay).
  assert (Hprops : forall name, name <> "keyAuthorization" ->
            name <> "resource" -> props payload !! name = props o !! name).
  { intros name H1 H2. rewrite Hpay.
    by rewrite !lookup_insert_ne by congruence. }
  assert (Hkap : props payload !! "keyAuthorization" =
                 Some (VString (T ++ "." ++ K))).
  { rewrite Hpay. apply lookup_insert_eq. }
  split; intros Hsh; [split|].
  - intros Hka. unfold HTTP01validator.constructor.
    rewrite (fieldsPresent_plain _ l o _ Hl Hsh).
    unfold HTTP01validator.CHALLENGE_FIELDS. cbn [forallb].
    rewrite (hasOwnProperty_named _ l o "keyAuthorization" Hl) by reflexivity.
    rewrite Hka.
    rewrite (bool_decide_eq_false_2 (is_Some None))
      by (intros [? ?]; discriminate).
    by rewrite !andb_false_r.
  - exists w2, p.
    exists (HTTP01validator.Validator
              (match port with
               | Some q => if N.eqb q 0 then 80%N else q
               | None => 80%N
               end) (VString d) (VRef l)).
    split; [exact Hcall|]. split.
    + unfold HTTP01validator.constructor.
      rewrite (fieldsPresent_own _ l payload _ Hh2).
      * rewrite (prop_own _ l payload "type" (VString "http-01") Hh2)
          by (rewrite Hprops by discriminate; exact Hty).
        reflexivity.
      * rewrite Hprops by discriminate. exact Hsh.
      * unfold HTTP01validator.CHALLENGE_FIELDS. repeat constructor.
        -- rewrite Hprops by discriminate. rewrite Hty. by eexists.
        -- rewrite Hprops by discriminate. rewrite Htok. by eexists.
        -- rewrite Hkap. by eexists.
    + unfold HTTP01validator.handle. cbn [HTTP01validator.domain
        HTTP01validator.challenge].
      rewrite (split_no_sep _ _ Hd).
      rewrite (prop_own _ l payload "token" (VString T) Hh2)
        by (rewrite Hprops by discriminate; exact Htok).
      rewrite (prop_own _ _ _ _ _ Hh2 Hkap).
      rewrite end_body_string. simpl. by rewrite !String.eqb_refl.
  - exists w2, p. split; [exact Hcall|]. split; eexists.
    + unfold HTTP01validator.constructor.
      by rewrite (fieldsPresent_shadowed _ l o _ Hl Hsh).
    + unfold HTTP01validator.constructor.
      rewrite (fieldsPresent_shadowed _ l payload _ Hh2); [reflexivity| |done].
      rewrite Hprops by discriminate. exact Hsh.
Qed.

Lemma validator_serves_key_authorization_witness :
  exists w1 p v,
    Protocol.respondToChallenge (VRef 1) Vocabulary.challenge_client =
      (w1, Protocol.Returned p) /\
    HTTP01validator.constructor (Protocol.heap w1) (VString "example.com")
      (VRef 1) None = Ok v /\
    HTTP01validator.handle (Protocol.heap w1) v (Some "example.com") "T" =
      Ok (HTTP01validator.Reply 200 (Some "text/plain") (VString "T.K")).
Proof.
  destruct (validator_serves_key_authorization Vocabulary.challenge_client
              1%nat Vocabulary.challenge_object
              (VString "https://ca.example/acme/challenge/1") "T" "K"
              "example.com" None) as [Hplain _]; try reflexivity.
  destruct Hplain as [_ H]; [reflexivity|]. exact H.
Defined.
End Validator.
